(** * Change-capture-and-broadcast pipeline of real-time-db-updates

    A shallow embedding of [src/changeListener.js] (the polling
    [ChangeListener]), of the [connection] handler and start-up code of
    [src/server.js], of [Database.query] and of the [BinlogListener]
    variant, then of the orders API (the methods of [Database] and the
    REST handlers of [src/server.js]), followed by the properties of the
    pipeline and of the API.

    JavaScript values are an inductive type, the [order_changes] table is a
    list of rows, the set [wss.clients] is a list in insertion order, and
    asynchronous methods are computations in a state-and-exception monad
    over the whole process state: a thrown exception keeps every mutation
    made before it, as in JavaScript.

    What the environment decides is part of the state: which calls of
    [database.query] the store rejects, what [Math.random()] returns, and
    whether [send] on a socket throws.  [JSON.parse] is a parameter.  Each
    callback of the event loop (a firing of the polling timer, a
    [connection] event, the settling of a promise) is a step of the
    process.  [tick], [ticks] and [start] run a poll or a call to its end
    before the next one starts; a poll that is still awaiting the store
    when the timer fires again, and a [start()] issued while another is
    awaiting, are described by the two halves of the callback
    ([poll_begin], [poll_end]) and of the call ([start_enter],
    [start_resume]). *)

From Stdlib Require Import ZArith String Ascii Bool Lia List.
From Stdlib Require Import QArith.
From Stdlib Require Import Sorting.Permutation Sorting.Sorted.
From Stdlib Require Import DecimalString.
Import ListNotations.

Close Scope Q_scope.
Open Scope string_scope.
Open Scope Z_scope.

(** ** JavaScript values *)

(** Values that a JSON column or [JSON.parse] can produce.  Numbers are
    restricted to integers. *)
#[warnings="-register-all"]
Inductive JsValue : Type :=
| JNull
| JBool (b : bool)
| JNum (n : Z)
| JStr (s : string)
| JArr (items : list JsValue)
| JObj (fields : list (string * JsValue)).

(** [!!v]: only [null], [false], [0] and the empty string are falsy. *)
Definition truthy (v : JsValue) : bool :=
  match v with
  | JNull => false
  | JBool b => b
  | JNum n => negb (n =? 0)
  | JStr s => negb (String.eqb s EmptyString)
  | JArr _ | JObj _ => true
  end.

(** [v === null] *)
Definition is_null (v : JsValue) : bool :=
  match v with
  | JNull => true
  | _ => false
  end.

(** [typeof v === 'object'] ([typeof null] is ['object'] too). *)
Definition typeof_object (v : JsValue) : bool :=
  match v with
  | JNull | JArr _ | JObj _ => true
  | _ => false
  end.

Definition comma_join (parts : list string) : string :=
  match parts with
  | [] => EmptyString
  | p :: ps => fold_left (fun acc q => acc ++ "," ++ q) ps p
  end.

(** The string coercion of a value: [v.toString()] where it exists, and
    what [JSON.parse] applies to its argument.  An array joins its elements
    with commas, a [null] element giving the empty string. *)
Fixpoint js_toString (v : JsValue) : string :=
  match v with
  | JNull => "null"
  | JBool true => "true"
  | JBool false => "false"
  | JNum n => NilZero.string_of_int (Z.to_int n)
  | JStr s => s
  | JArr items =>
      comma_join (map (fun x => match x with
                                | JNull => EmptyString
                                | _ => js_toString x
                                end) items)
  | JObj _ => "[object Object]"
  end.

(** Property read [o.k]; [None] is [undefined]. *)
Fixpoint assoc (k : string) (fields : list (string * JsValue)) : option JsValue :=
  match fields with
  | [] => None
  | (k', v) :: rest => if String.eqb k k' then Some v else assoc k rest
  end.

Definition get_prop (v : JsValue) (k : string) : option JsValue :=
  match v with
  | JObj fields => assoc k fields
  | _ => None
  end.

(** ** Data model *)

Inductive Operation : Type := INSERT | UPDATE | DELETE.

Definition op_name (o : Operation) : string :=
  match o with
  | INSERT => "INSERT"
  | UPDATE => "UPDATE"
  | DELETE => "DELETE"
  end.

(** A row of [order_changes] (the schema is in the repository's README). *)
Record ChangeRow : Type := mkRow {
  id : Z;
  order_id : option Z;
  operation_type : Operation;
  old_data : JsValue;
  new_data : JsValue;
  changed_at : string;
  processed : bool
}.

(** The object handed to [JSON.stringify] before it is sent.  A field that
    is [None] is absent from the object; [Some JNull] is a key whose value
    is [null]. *)
Record Message : Type := mkMessage {
  type : string;
  table : option string;
  timestamp : string;
  changeId : option Z;
  data : option JsValue;
  oldData : option JsValue;
  newData : option JsValue
}.

(** A WebSocket of [wss.clients].  [readyState] is 0 CONNECTING, 1 OPEN,
    2 CLOSING, 3 CLOSED; [send_throws] says whether [send] on the open
    socket throws; [received] is what has been handed to the socket.  A
    socket of the [ws] library does not throw when it is OPEN and handed a
    string: a write that fails shows later, as the socket leaving the OPEN
    state and closing ([socket_error], [on_close]).  [send_throws] is for
    the other server objects a listener can be constructed with. *)
Record Client : Type := mkClient {
  conn : nat;
  readyState : nat;
  send_throws : bool;
  received : list Message
}.

Record ChangeListener : Type := mkListener {
  isListening : bool;
  pollInterval : option nat;
  lastProcessedId : Z
}.

(** Lines written to the console. *)
Inductive Console : Type :=
| LogStartingFrom (cursor : Z)
| LogListenerStarted
| LogListenerStopped
| ErrFailedToStart
| ErrInitializing
| ErrCheckingForChanges
| ErrInCheckForChanges
| ErrProcessingChange (change : Z)
| WarnObjectObject
| ErrJSONParse (text : string)
| LogBroadcast (kind : string) (clientCount : nat)
| LogBinlogBroadcast (kind : string)
| ErrDatabaseQuery
| LogClientConnected
| ErrSendingInitialData
| LogClientDisconnected.

Inductive JsError : Type := DbError | SendError | TypeError.

(** The state of the running process and of the store behind it.
    [faults] decides the coming [database.query] calls in order ([true]: the
    call rejects; an exhausted list: the store is healthy); [randoms] are
    the coming results of [Math.random()] (0 once exhausted); [timers] are
    the live [setInterval] handles; [fetching] are the connections whose
    [getAllOrders()] promise has not settled yet. *)
Record Sys : Type := mkSys {
  this : ChangeListener;
  order_changes : list ChangeRow;
  clients : list Client;
  console : list Console;
  faults : list bool;
  randoms : list Q;
  timers : list nat;
  next_handle : nat;
  clock : string;
  exit_code : option Z;
  fetching : list nat
}.

Definition set_this (l : ChangeListener) (s : Sys) : Sys :=
  mkSys l (order_changes s) (clients s) (console s) (faults s) (randoms s)
        (timers s) (next_handle s) (clock s) (exit_code s) (fetching s).
Definition set_order_changes (t : list ChangeRow) (s : Sys) : Sys :=
  mkSys (this s) t (clients s) (console s) (faults s) (randoms s)
        (timers s) (next_handle s) (clock s) (exit_code s) (fetching s).
Definition set_clients (cs : list Client) (s : Sys) : Sys :=
  mkSys (this s) (order_changes s) cs (console s) (faults s) (randoms s)
        (timers s) (next_handle s) (clock s) (exit_code s) (fetching s).
Definition set_console (c : list Console) (s : Sys) : Sys :=
  mkSys (this s) (order_changes s) (clients s) c (faults s) (randoms s)
        (timers s) (next_handle s) (clock s) (exit_code s) (fetching s).
Definition set_faults (f : list bool) (s : Sys) : Sys :=
  mkSys (this s) (order_changes s) (clients s) (console s) f (randoms s)
        (timers s) (next_handle s) (clock s) (exit_code s) (fetching s).
Definition set_randoms (r : list Q) (s : Sys) : Sys :=
  mkSys (this s) (order_changes s) (clients s) (console s) (faults s) r
        (timers s) (next_handle s) (clock s) (exit_code s) (fetching s).
Definition set_timers (t : list nat) (n : nat) (s : Sys) : Sys :=
  mkSys (this s) (order_changes s) (clients s) (console s) (faults s) (randoms s)
        t n (clock s) (exit_code s) (fetching s).
Definition set_exit_code (c : option Z) (s : Sys) : Sys :=
  mkSys (this s) (order_changes s) (clients s) (console s) (faults s) (randoms s)
        (timers s) (next_handle s) (clock s) c (fetching s).

Definition set_fetching (f : list nat) (s : Sys) : Sys :=
  mkSys (this s) (order_changes s) (clients s) (console s) (faults s) (randoms s)
        (timers s) (next_handle s) (clock s) (exit_code s) f.

Definition set_isListening (b : bool) (l : ChangeListener) : ChangeListener :=
  mkListener b (pollInterval l) (lastProcessedId l).
Definition set_pollInterval (h : option nat) (l : ChangeListener) : ChangeListener :=
  mkListener (isListening l) h (lastProcessedId l).
Definition set_lastProcessedId (c : Z) (l : ChangeListener) : ChangeListener :=
  mkListener (isListening l) (pollInterval l) c.

(** ** Asynchronous computations *)

Inductive Outcome (A : Type) : Type :=
| Returned (a : A)
| Thrown (e : JsError).
Arguments Returned {A} a.
Arguments Thrown {A} e.

Definition Async (A : Type) : Type := Sys -> Outcome A * Sys.

Definition ret {A} (a : A) : Async A := fun s => (Returned a, s).
Definition throw {A} (e : JsError) : Async A := fun s => (Thrown e, s).

Definition bind {A B} (m : Async A) (k : A -> Async B) : Async B :=
  fun s =>
    match m s with
    | (Returned a, s') => k a s'
    | (Thrown e, s') => (Thrown e, s')
    end.

(** [try { m } catch (e) { h e }] *)
Definition try_catch {A} (m : Async A) (h : JsError -> Async A) : Async A :=
  fun s =>
    match m s with
    | (Returned a, s') => (Returned a, s')
    | (Thrown e, s') => h e s'
    end.

Notation "x <- m ;; k" := (bind m (fun x => k))
  (at level 61, m at next level, right associativity).
Notation "m ;; k" := (bind m (fun _ => k))
  (at level 61, right associativity).

Definition get {A} (f : Sys -> A) : Async A := fun s => (Returned (f s), s).
Definition modify (f : Sys -> Sys) : Async unit := fun s => (Returned tt, f s).

Definition log (line : Console) : Async unit :=
  modify (fun s => set_console (console s ++ [line]) s).
Definition log_all (lines : list Console) : Async unit :=
  modify (fun s => set_console (console s ++ lines) s).

Definition update_this (f : ChangeListener -> ChangeListener) : Async unit :=
  modify (fun s => set_this (f (this s)) s).

(** The state a computation leaves behind, whatever its outcome. *)
Definition exec {A} (m : Async A) (s : Sys) : Sys := snd (m s).

(** ** The store: [Database.query] and the statements sent to it *)

(** [ORDER BY id ASC] *)
Fixpoint insert_by_id (r : ChangeRow) (sorted : list ChangeRow) : list ChangeRow :=
  match sorted with
  | [] => [r]
  | x :: rest => if id r <=? id x then r :: sorted else x :: insert_by_id r rest
  end.

Definition order_by_id (rows : list ChangeRow) : list ChangeRow :=
  fold_right insert_by_id [] rows.

(** [SELECT MAX(id) as max_id FROM order_changes WHERE processed = 1];
    [None] is the SQL NULL of an empty aggregate. *)
Fixpoint select_max_processed (rows : list ChangeRow) : option Z :=
  match rows with
  | [] => None
  | r :: rest =>
      if processed r then
        match select_max_processed rest with
        | Some m => Some (Z.max (id r) m)
        | None => Some (id r)
        end
      else select_max_processed rest
  end.

(** [SELECT * FROM order_changes WHERE id > ? AND processed = 0
     ORDER BY id ASC LIMIT 50] *)
Definition unprocessed_after (cursor : Z) (r : ChangeRow) : bool :=
  (cursor <? id r) && negb (processed r).

Definition select_unprocessed (cursor : Z) (rows : list ChangeRow) : list ChangeRow :=
  firstn 50 (order_by_id (filter (unprocessed_after cursor) rows)).

(** [UPDATE order_changes SET processed = 1 WHERE id = ?] *)
Definition mark_processed (r : ChangeRow) : ChangeRow :=
  mkRow (id r) (order_id r) (operation_type r) (old_data r) (new_data r)
        (changed_at r) true.

Definition update_processed (i : Z) (rows : list ChangeRow) : list ChangeRow :=
  map (fun r => if id r =? i then mark_processed r else r) rows.

(** The [DELETE] of [cleanupOldChanges], as a store that accepts the
    statement runs it: the inner select is the id at [OFFSET 1000] of the
    processed rows in descending id order; when there is no such row the
    comparison is against NULL and nothing is deleted.  The statement
    selects from a derived table without an alias, which MySQL (the store
    of [Database]) refuses: on such a store every call of
    [query_delete_old] is a rejected call ([faults]), and [delete_old] is
    never applied. *)
Definition cleanup_threshold (rows : list ChangeRow) : option Z :=
  option_map id (nth_error (rev (order_by_id (filter processed rows))) 1000).

Definition delete_old (rows : list ChangeRow) : list ChangeRow :=
  match cleanup_threshold rows with
  | Some t => filter (fun r => negb (processed r && (id r <? t))) rows
  | None => rows
  end.

(** [Database.query]: runs a statement on the table, or logs and rethrows
    the driver's error. *)
Definition database_query {A} (stmt : list ChangeRow -> A * list ChangeRow) : Async A :=
  fun s =>
    let run s0 :=
      let (a, t) := stmt (order_changes s0) in (Returned a, set_order_changes t s0) in
    match faults s with
    | true :: rest =>
        (Thrown DbError, set_console (console s ++ [ErrDatabaseQuery]) (set_faults rest s))
    | false :: rest => run (set_faults rest s)
    | [] => run s
    end.

Definition query_max_processed : Async (option Z) :=
  database_query (fun t => (select_max_processed t, t)).
Definition query_unprocessed (cursor : Z) : Async (list ChangeRow) :=
  database_query (fun t => (select_unprocessed cursor t, t)).
Definition query_update_processed (i : Z) : Async unit :=
  database_query (fun t => (tt, update_processed i t)).
Definition query_delete_old : Async unit :=
  database_query (fun t => (tt, delete_old t)).

(** [Math.random()] *)
Definition Math_random : Async Q :=
  fun s =>
    match randoms s with
    | r :: rest => (Returned r, set_randoms rest s)
    | [] => (Returned 0%Q, s)
    end.

(** [r < 0.1] *)
Definition lt_tenth (r : Q) : bool := negb (Qle_bool (1 # 10) r).

(** ** Fan-out *)

Definition deliver (message : Message) (c : Client) : Client :=
  mkClient (conn c) (readyState c) (send_throws c) (received c ++ [message]).

(** The [forEach] over [wss.clients] of [broadcastChange]: open sockets are
    sent the message in set order; the first [send] that throws ends the
    iteration with the exception.  The count is [clientCount]. *)
Fixpoint forEach_send (message : Message) (cs : list Client) (clientCount : nat)
  : list Client * Outcome nat :=
  match cs with
  | [] => ([], Returned clientCount)
  | c :: rest =>
      if (readyState c =? 1)%nat then
        if send_throws c then (c :: rest, Thrown SendError)
        else
          let (rest', out) := forEach_send message rest (S clientCount) in
          (deliver message c :: rest', out)
      else
        let (rest', out) := forEach_send message rest clientCount in
        (c :: rest', out)
  end.

Definition forEach_clients (message : Message) : Async nat :=
  fun s =>
    let (cs, out) := forEach_send message (clients s) 0 in
    (out, set_clients cs s).

(** What [forEach_send] leaves in [wss.clients]. *)
Definition publish (message : Message) (cs : list Client) : list Client :=
  fst (forEach_send message cs 0).

Definition cursor (s : Sys) : Z := lastProcessedId (this s).

(** The rows a poll can still fetch, in the order it fetches them. *)
Definition pending (s : Sys) : list ChangeRow :=
  order_by_id (filter (unprocessed_after (cursor s)) (order_changes s)).

(** ** The polling listener ([src/changeListener.js]) *)

Section Listener.

(** [JSON.parse] of the runtime on a string; [None] is a thrown
    [SyntaxError]. *)
Variable JSON_parse : string -> option JsValue.

(** [safeJSONParse], with the lines it writes to the console. *)
Definition safeJSONParse (jsonString : JsValue) : JsValue * list Console :=
  if negb (truthy jsonString) then (JNull, [])
  else if typeof_object jsonString then (jsonString, [])
  else if String.eqb (js_toString jsonString) "[object Object]"
  then (JNull, [WarnObjectObject])
  else
    match JSON_parse (js_toString jsonString) with
    | Some v => (v, [])
    | None => (JNull, [ErrJSONParse (js_toString jsonString)])
    end.

(** The [changeData] object [processChange] builds, with the console lines
    of its [safeJSONParse] calls. *)
Definition changeData_of (change : ChangeRow) : Message * list Console :=
  let base (d : JsValue) (o n : option JsValue) :=
    mkMessage (op_name (operation_type change)) (Some "orders")
              (changed_at change) (Some (id change)) (Some d) o n in
  match operation_type change with
  | INSERT =>
      let (d, l) := safeJSONParse (new_data change) in (base d None None, l)
  | UPDATE =>
      let (o, l1) := safeJSONParse (old_data change) in
      let (n, l2) := safeJSONParse (new_data change) in
      (base n (Some o) (Some n), (l1 ++ l2)%list)
  | DELETE =>
      let (d, l) := safeJSONParse (old_data change) in (base d None None, l)
  end.

Definition data_truthy (m : Message) : bool :=
  match data m with
  | Some d => truthy d
  | None => false
  end.

(** The event of a row, if [processChange] publishes one. *)
Definition normalize (change : ChangeRow) : option Message :=
  let m := fst (changeData_of change) in
  if data_truthy m then Some m else None.

Definition publish_row (change : ChangeRow) (cs : list Client) : list Client :=
  match normalize change with
  | Some m => publish m cs
  | None => cs
  end.

Definition publish_rows (changes : list ChangeRow) (cs : list Client) : list Client :=
  fold_left (fun acc change => publish_row change acc) changes cs.

Definition broadcastChange (changeData : Message) : Async unit :=
  clientCount <- forEach_clients changeData ;;
  log (LogBroadcast (type changeData) clientCount).

Definition processChange (change : ChangeRow) : Async unit :=
  let (changeData, lines) := changeData_of change in
  log_all lines ;;
  try_catch
    (if data_truthy changeData then broadcastChange changeData else ret tt)
    (fun _ => log (ErrProcessingChange (id change))).

Definition cleanupOldChanges : Async unit :=
  try_catch query_delete_old (fun _ => ret tt).

(** The [for (const change of changes)] loop of [checkForChanges]. *)
Fixpoint process_batch (changes : list ChangeRow) : Async unit :=
  match changes with
  | [] => ret tt
  | change :: rest =>
      processChange change ;;
      update_this (set_lastProcessedId (id change)) ;;
      query_update_processed (id change) ;;
      process_batch rest
  end.

Definition checkForChanges : Async unit :=
  try_catch
    (cursor <- get (fun s => lastProcessedId (this s)) ;;
     changes <- query_unprocessed cursor ;;
     match changes with
     | [] => ret tt
     | _ =>
         process_batch changes ;;
         r <- Math_random ;;
         if lt_tenth r then cleanupOldChanges else ret tt
     end)
    (fun _ => log ErrInCheckForChanges).

Definition initializeLastProcessedId : Async unit :=
  try_catch
    (result <- query_max_processed ;;
     let max_id := match result with
                   | Some m => if m =? 0 then 0 else m
                   | None => 0
                   end in
     update_this (set_lastProcessedId max_id) ;;
     log (LogStartingFrom max_id))
    (fun _ =>
       log ErrInitializing ;;
       update_this (set_lastProcessedId 0)).

(** [setInterval(callback, 200)]: a fresh live handle. *)
Definition setInterval : Async nat :=
  fun s => (Returned (next_handle s),
            set_timers (next_handle s :: timers s) (S (next_handle s)) s).

Definition clearInterval (h : nat) : Async unit :=
  modify (fun s => set_timers (filter (fun t => negb (t =? h)%nat) (timers s))
                              (next_handle s) s).

Definition startPolling : Async unit :=
  h <- setInterval ;;
  update_this (set_pollInterval (Some h)).

Definition start : Async unit :=
  listening <- get (fun s => isListening (this s)) ;;
  if listening then ret tt
  else
    try_catch
      (initializeLastProcessedId ;;
       startPolling ;;
       update_this (set_isListening true) ;;
       log LogListenerStarted)
      (fun e => log ErrFailedToStart ;; throw e).

Definition stop : Async unit :=
  h <- get (fun s => pollInterval (this s)) ;;
  match h with
  | Some t => clearInterval t ;; update_this (set_pollInterval None)
  | None => ret tt
  end ;;
  update_this (set_isListening false) ;;
  log LogListenerStopped.

(** The callback given to [setInterval] by [startPolling]. *)
Definition poll_callback : Async unit :=
  try_catch checkForChanges (fun _ => log ErrCheckingForChanges).

(** One firing of the live polling timer. *)
Definition tick (s : Sys) : Sys := exec poll_callback s.

Fixpoint ticks (n : nat) (s : Sys) : Sys :=
  match n with
  | O => s
  | S k => ticks k (tick s)
  end.

(** ** The server ([src/server.js]) *)

(** [ws.send(message)] as the [ws] library does it: it throws on a socket
    that is still CONNECTING, hands the message to an OPEN socket (or throws
    when the socket's [send] does), and drops it on a closing or closed
    one. *)
Definition ws_send (c : nat) (message : Message) : Async unit :=
  fun s =>
    match find (fun x => (conn x =? c)%nat) (clients s) with
    | Some x =>
        if (readyState x =? 0)%nat then (Thrown SendError, s)
        else if (readyState x =? 1)%nat then
          if send_throws x then (Thrown SendError, s)
          else (Returned tt,
                set_clients (map (fun y => if (conn y =? c)%nat
                                           then deliver message y else y)
                                 (clients s)) s)
        else (Returned tt, s)
    | None => (Returned tt, s)
    end.

(** The server is created with [clientTracking: true]: the library adds the
    new socket to [wss.clients] before it emits [connection]. *)
Definition track_client (c : nat) (throws : bool) : Async unit :=
  modify (fun s => set_clients (clients s ++ [mkClient c 1 throws []])%list s).

(** [database.getAllOrders()] is issued; its promise settles in a later
    turn of the event loop. *)
Definition getAllOrders_begin (c : nat) : Async unit :=
  modify (fun s => set_fetching (fetching s ++ [c])%list s).

(** The synchronous part of the [connection] handler. *)
Definition connection_handler (c : nat) : Async unit :=
  log LogClientConnected ;;
  getAllOrders_begin c.

(** A socket completes its upgrade: it is tracked, then [connection] is
    emitted. *)
Definition on_connection (c : nat) (throws : bool) : Async unit :=
  track_client c throws ;;
  connection_handler c.

Definition initial_data (orders : list JsValue) (now : string) : Message :=
  mkMessage "INITIAL_DATA" None now None (Some (JArr orders)) None None.

(** The [.then(...).catch(...)] chain on the promise of [getAllOrders()];
    [None] is a rejection (which [Database.query] has logged). *)
Definition orders_callbacks (c : nat) (result : option (list JsValue)) : Async unit :=
  try_catch
    (match result with
     | Some orders =>
         now <- get clock ;;
         ws_send c (initial_data orders now)
     | None => log ErrDatabaseQuery ;; throw DbError
     end)
    (fun _ => log ErrSendingInitialData).

(** The promise of a fetch in flight settles (once). *)
Definition on_orders_settled (c : nat) (result : option (list JsValue)) : Async unit :=
  inflight <- get (fun s => existsb (Nat.eqb c) (fetching s)) ;;
  if inflight then
    modify (fun s => set_fetching (filter (fun x => negb (x =? c)%nat) (fetching s)) s) ;;
    orders_callbacks c result
  else ret tt.

(** The socket closes: the library removes it from [wss.clients], the
    handler logs. *)
Definition on_close (c : nat) : Async unit :=
  modify (fun s => set_clients (filter (fun x => negb (conn x =? c)%nat) (clients s)) s) ;;
  log LogClientDisconnected.

(** [changeListener.start().then(...).catch(... process.exit(1))] *)
Definition boot : Async unit :=
  try_catch
    (start ;; log LogListenerStarted)
    (fun _ => log ErrFailedToStart ;; modify (set_exit_code (Some 1))).

(** What the event loop can run next. *)
Inductive Event : Type :=
| EvBoot
| EvTimer (h : nat)
| EvConnection (c : nat) (throws : bool)
| EvOrdersSettled (c : nat) (result : option (list JsValue))
| EvClose (c : nat)
| EvSigterm.

Definition handler (e : Event) : Async unit :=
  match e with
  | EvBoot => boot
  | EvTimer h =>
      live <- get (fun s => existsb (Nat.eqb h) (timers s)) ;;
      if live then poll_callback else ret tt
  | EvConnection c throws => on_connection c throws
  | EvOrdersSettled c result => on_orders_settled c result
  | EvClose c => on_close c
  | EvSigterm => stop ;; modify (set_exit_code (Some 0))
  end.

(** A process that has exited runs nothing more. *)
Definition react (e : Event) (s : Sys) : Sys :=
  match exit_code s with
  | Some _ => s
  | None => exec (handler e) s
  end.

Definition run (events : list Event) (s : Sys) : Sys :=
  fold_left (fun acc e => react e acc) events s.

End Listener.

(** ** The binlog listener variant *)

Module BinlogListener.

(** A binlog event: [getTableName()], [getEventName()] and [rows]. *)
Record BinlogEvent : Type := mkBinlogEvent {
  tableName : string;
  eventName : string;
  rows : list JsValue
}.

Definition order_columns : list string :=
  ["id"; "customer_name"; "product_name"; "status"; "updated_at"; "created_at"].

(** [formatBinlogData(row)]; [None] is [undefined].  A column the row does
    not have is [undefined] in the result and so absent from the message. *)
Definition formatBinlogData (row : option JsValue) : JsValue :=
  match row with
  | None => JNull
  | Some r =>
      if truthy r then
        JObj (flat_map (fun k => match get_prop r k with
                                 | Some v => [(k, v)]
                                 | None => []
                                 end) order_columns)
      else JNull
  end.

Definition broadcastChange (changeData : Message) : Async unit :=
  forEach_clients changeData ;;
  log (LogBinlogBroadcast (type changeData)).

(** [binlogEvent.rows[0].before]: reading a property of [undefined] (no
    first row) or of [null] throws. *)
Definition row0_prop (ev : BinlogEvent) (k : string) : Async (option JsValue) :=
  match rows ev with
  | r :: _ => if is_null r then throw TypeError else ret (get_prop r k)
  | [] => throw TypeError
  end.

Definition handleBinlogEvent (ev : BinlogEvent) : Async unit :=
  if negb (String.eqb (tableName ev) "orders") then ret tt
  else if String.eqb (eventName ev) "writerows" then
    now <- get clock ;;
    broadcastChange (mkMessage "INSERT" (Some "orders") now None
                       (Some (formatBinlogData (hd_error (rows ev)))) None None)
  else if String.eqb (eventName ev) "updaterows" then
    before <- row0_prop ev "before" ;;
    after <- row0_prop ev "after" ;;
    now <- get clock ;;
    broadcastChange (mkMessage "UPDATE" (Some "orders") now None None
                       (Some (formatBinlogData before))
                       (Some (formatBinlogData after)))
  else if String.eqb (eventName ev) "deleterows" then
    now <- get clock ;;
    broadcastChange (mkMessage "DELETE" (Some "orders") now None
                       (Some (formatBinlogData (hd_error (rows ev)))) None None)
  else ret tt.

End BinlogListener.

(** ** A reference [JSON.parse]

    A parser for the fragment of JSON with integer numbers and strings
    without escapes, used to run the listener on concrete rows.  It is not
    [JSON.parse]: it rejects fractions, exponents and escapes, and accepts
    leading zeros; the texts it is run on are read alike by both.  The
    properties below hold for every [JSON_parse]. *)

Module Json.

Definition dquote : ascii := ascii_of_nat 34.
Definition backslash : ascii := ascii_of_nat 92.

Definition is_space (c : ascii) : bool :=
  let n := nat_of_ascii c in
  ((n =? 32) || (n =? 9) || (n =? 10) || (n =? 13))%nat.

Definition is_digit (c : ascii) : bool :=
  let n := nat_of_ascii c in ((48 <=? n) && (n <=? 57))%nat.

Fixpoint skip_space (cs : list ascii) : list ascii :=
  match cs with
  | c :: rest => if is_space c then skip_space rest else cs
  | [] => []
  end.

Fixpoint strip_prefix (prefix cs : list ascii) : option (list ascii) :=
  match prefix, cs with
  | [], _ => Some cs
  | p :: ps, c :: rest => if Ascii.eqb p c then strip_prefix ps rest else None
  | _ :: _, [] => None
  end.

Fixpoint digits (cs : list ascii) (acc : Z) : Z * list ascii :=
  match cs with
  | c :: rest =>
      if is_digit c then digits rest (10 * acc + Z.of_nat (nat_of_ascii c - 48))
      else (acc, cs)
  | [] => (acc, [])
  end.

Definition number (cs : list ascii) : option (Z * list ascii) :=
  match cs with
  | c :: rest =>
      if is_digit c then Some (digits cs 0)
      else if Ascii.eqb c "-" then
        match rest with
        | d :: _ => if is_digit d then
                      let (n, rest') := digits rest 0 in Some (- n, rest')
                    else None
        | [] => None
        end
      else None
  | [] => None
  end.

(** The characters up to the closing quote. *)
Fixpoint string_body (cs : list ascii) : option (string * list ascii) :=
  match cs with
  | [] => None
  | c :: rest =>
      if Ascii.eqb c dquote then Some (EmptyString, rest)
      else if Ascii.eqb c backslash then None
      else match string_body rest with
           | Some (str, rest') => Some (String c str, rest')
           | None => None
           end
  end.

Fixpoint value (fuel : nat) (cs : list ascii) : option (JsValue * list ascii) :=
  match fuel with
  | O => None
  | S fuel' =>
      match skip_space cs with
      | [] => None
      | c :: rest =>
          if Ascii.eqb c dquote then
            match string_body rest with
            | Some (str, rest') => Some (JStr str, rest')
            | None => None
            end
          else if Ascii.eqb c "[" then
            match skip_space rest with
            | d :: rest' =>
                if Ascii.eqb d "]" then Some (JArr [], rest')
                else items fuel' (d :: rest') []
            | [] => None
            end
          else if Ascii.eqb c "{" then
            match skip_space rest with
            | d :: rest' =>
                if Ascii.eqb d "}" then Some (JObj [], rest')
                else members fuel' (d :: rest') []
            | [] => None
            end
          else
            match strip_prefix (list_ascii_of_string "null") (c :: rest) with
            | Some rest' => Some (JNull, rest')
            | None =>
            match strip_prefix (list_ascii_of_string "true") (c :: rest) with
            | Some rest' => Some (JBool true, rest')
            | None =>
            match strip_prefix (list_ascii_of_string "false") (c :: rest) with
            | Some rest' => Some (JBool false, rest')
            | None =>
            match number (c :: rest) with
            | Some (n, rest') => Some (JNum n, rest')
            | None => None
            end end end end
      end
  end
with items (fuel : nat) (cs : list ascii) (acc : list JsValue)
  : option (JsValue * list ascii) :=
  match fuel with
  | O => None
  | S fuel' =>
      match value fuel' cs with
      | Some (v, rest) =>
          match skip_space rest with
          | d :: rest' =>
              if Ascii.eqb d "," then items fuel' rest' (v :: acc)
              else if Ascii.eqb d "]" then Some (JArr (rev (v :: acc)), rest')
              else None
          | [] => None
          end
      | None => None
      end
  end
with members (fuel : nat) (cs : list ascii) (acc : list (string * JsValue))
  : option (JsValue * list ascii) :=
  match fuel with
  | O => None
  | S fuel' =>
      match skip_space cs with
      | q :: rest =>
          if Ascii.eqb q dquote then
            match string_body rest with
            | Some (key, rest1) =>
                match skip_space rest1 with
                | colon :: rest2 =>
                    if Ascii.eqb colon ":" then
                      match value fuel' rest2 with
                      | Some (v, rest3) =>
                          match skip_space rest3 with
                          | d :: rest4 =>
                              if Ascii.eqb d "," then
                                members fuel' rest4 ((key, v) :: acc)
                              else if Ascii.eqb d "}" then
                                Some (JObj (rev ((key, v) :: acc)), rest4)
                              else None
                          | [] => None
                          end
                      | None => None
                      end
                    else None
                | [] => None
                end
            | None => None
            end
          else None
      | [] => None
      end
  end.

(** The whole text must be one value. *)
Definition parse (text : string) : option JsValue :=
  let cs := list_ascii_of_string text in
  match value (S (List.length cs)) cs with
  | Some (v, rest) =>
      match skip_space rest with
      | [] => Some v
      | _ :: _ => None
      end
  | None => None
  end.

(** A JSON text is written with [q] for the double quote. *)
Definition q : string := String dquote EmptyString.

End Json.


(** ** Statistics ([getStats]) *)

Module ListenerStats.

Definition listening (s : Sys) : bool := isListening (this s).

(** The object [getStats] resolves to. *)
Record Stats : Type := mkStats {
  totalChanges : nat;
  pendingChanges : nat;
  recentChanges : nat;
  lastProcessedId : Z;
  isListening : bool
}.

(** The line [getStats] itself writes to the console. *)
Inductive StatsConsole : Type := ErrGettingStats.

Section Recent.

(** [datetime(changed_at) > datetime('now', '-1 hour')], as the store
    evaluates it when the statement runs.  The comparison is written with
    SQLite's [datetime]: a store that does not know the function rejects
    the statement, which is a rejected call like any other. *)
Variable changed_within_last_hour : string -> bool.

(** [SELECT COUNT( * ) ...]: the first row of the result. *)
Definition count_total : Async nat :=
  database_query (fun t => (length t, t)).
Definition count_pending : Async nat :=
  database_query (fun t => (length (filter (fun r => negb (processed r)) t), t)).
Definition count_recent : Async nat :=
  database_query
    (fun t => (length (filter (fun r => changed_within_last_hour (changed_at r)) t), t)).

(** [getStats]: the report, or [null] ([None]) after the error line; the
    second component is what [getStats] wrote to the console. *)
Definition getStats : Async (option Stats * list StatsConsole) :=
  try_catch
    (total <- count_total ;;
     pending <- count_pending ;;
     recent <- count_recent ;;
     cur <- get cursor ;;
     on <- get listening ;;
     ret (Some (mkStats total pending recent cur on), []))
    (fun _ => ret (None, [ErrGettingStats])).

End Recent.

End ListenerStats.

(** ** The orders API ([Database] and the REST handlers of [src/server.js]) *)

Module Rest.

(** What the driver resolves an INSERT, UPDATE or DELETE to; a SELECT
    resolves to its rows. *)
Record Header : Type := mkHeader {
  insertId : Z;
  affectedRows : Z
}.

(** [res.status(code).json(body)] *)
Record Response : Type := mkResponse {
  status : nat;
  body : JsValue
}.

Inductive ApiConsole : Type :=
| DatabaseQueryError (message : string)
| GetOrdersError (message : string)
| CreateOrderError (message : string)
| UpdateOrderError (message : string)
| DeleteOrderError (message : string).

(** [parts.join(sep)] *)
Definition join (sep : string) (parts : list string) : string :=
  match parts with
  | [] => EmptyString
  | p :: ps => fold_left (fun acc x => acc ++ sep ++ x) ps p
  end.

(** The entries of [data] whose value is not [undefined] ([None]). *)
Definition defined_entries (data : list (string * option JsValue))
  : list (string * JsValue) :=
  flat_map (fun kv => match snd kv with
                      | Some v => [(fst kv, v)]
                      | None => []
                      end) data.

(** The statement [updateOrder] builds and its bound values; [None] when
    no field is left, in which case nothing is sent. *)
Definition updateOrder_statement (id : option JsValue)
           (data : list (string * option JsValue))
  : option (string * list (option JsValue)) :=
  match defined_entries data with
  | [] => None
  | entries =>
      Some ("UPDATE orders SET "
              ++ join ", " (map (fun kv => fst kv ++ " = ?") entries)
              ++ " WHERE id = ?",
            (map (fun kv => Some (snd kv)) entries ++ [id])%list)
  end.

(** [!v], where [None] is [undefined]. *)
Definition falsy (v : option JsValue) : bool :=
  match v with
  | Some x => negb (truthy x)
  | None => true
  end.

Definition json_error (message : string) : JsValue :=
  JObj [("success", JBool false); ("error", JStr message)].

(** [{ success: true, data }]; an [undefined] value leaves the key out. *)
Definition json_data (data : option JsValue) : JsValue :=
  JObj (("success", JBool true)
          :: match data with
             | Some d => [("data", d)]
             | None => []
             end).

(** [req.body] is [undefined] ([None]) or [null]: destructuring it
    throws. *)
Definition unreadable (req_body : option JsValue) : bool :=
  match req_body with
  | None => true
  | Some b => is_null b
  end.

(** [const { customer_name, product_name, status } = req.body]: the body,
    or the message of the TypeError. *)
Definition destructure (req_body : option JsValue) : string + JsValue :=
  match req_body with
  | None =>
      inl "Cannot destructure property 'customer_name' of 'req.body' as it is undefined."
  | Some b =>
      if is_null b
      then inl "Cannot destructure property 'customer_name' of 'req.body' as it is null."
      else inr b
  end.

(** The object the PUT handler collects from the body. *)
Definition updateData_of (body : JsValue) : list (string * option JsValue) :=
  flat_map (fun k => match get_prop body k with
                     | Some v => [(k, Some v)]
                     | None => []
                     end)
           ["customer_name"; "product_name"; "status"].

Section Engine.

(** The database behind the pool, and what [pool.execute] does with a
    statement and its bound values ([None] is [undefined]): it resolves to
    rows or to a header, or rejects with an error of some message. *)
Variable D : Type.
Variable select : string -> list (option JsValue) -> D -> (string + list JsValue) * D.
Variable change : string -> list (option JsValue) -> D -> (string + Header) * D.

Record Api : Type := mkApi {
  db : D;
  api_console : list ApiConsole
}.

Definition written (line : ApiConsole) (a : Api) : Api :=
  mkApi (db a) (api_console a ++ [line])%list.

(** A computation that resolves, or rejects with an error message. *)
Definition Req (A : Type) : Type := Api -> (string + A) * Api.

Definition resolve {A} (x : A) : Req A := fun a => (inr x, a).

Definition andThen {A B} (m : Req A) (k : A -> Req B) : Req B :=
  fun a =>
    match m a with
    | (inr x, a') => k x a'
    | (inl message, a') => (inl message, a')
    end.

(** [Database.query] on a SELECT, and on the other statements. *)
Definition query_rows (sql : string) (params : list (option JsValue))
  : Req (list JsValue) :=
  fun a =>
    match select sql params (db a) with
    | (inr rows, d) => (inr rows, mkApi d (api_console a))
    | (inl message, d) =>
        (inl message, written (DatabaseQueryError message) (mkApi d (api_console a)))
    end.

Definition query_header (sql : string) (params : list (option JsValue))
  : Req Header :=
  fun a =>
    match change sql params (db a) with
    | (inr h, d) => (inr h, mkApi d (api_console a))
    | (inl message, d) =>
        (inl message, written (DatabaseQueryError message) (mkApi d (api_console a)))
    end.

Definition getAllOrders : Req (list JsValue) :=
  query_rows "SELECT * FROM orders ORDER BY created_at DESC" [].

Definition getOrderById (id : option JsValue) : Req (option JsValue) :=
  andThen (query_rows "SELECT * FROM orders WHERE id = ?" [id])
          (fun rows => resolve (hd_error rows)).

Definition createOrder (customerName productName status : option JsValue) : Req Z :=
  andThen (query_header
             "INSERT INTO orders (customer_name, product_name, status) VALUES (?, ?, ?)"
             [customerName; productName;
              match status with
              | Some v => Some v
              | None => Some (JStr "pending")
              end])
          (fun h => resolve (insertId h)).

Definition updateOrder (id : option JsValue) (data : list (string * option JsValue))
  : Req bool :=
  match updateOrder_statement id data with
  | None => resolve false
  | Some (sql, values) =>
      andThen (query_header sql values) (fun h => resolve (0 <? affectedRows h))
  end.

Definition deleteOrder (id : option JsValue) : Req bool :=
  andThen (query_header "DELETE FROM orders WHERE id = ?" [id])
          (fun h => resolve (0 <? affectedRows h)).

(** [try { ... } catch (error) { console.error(...); res.status(500)... }] *)
Definition handle (line : string -> ApiConsole) (m : Req Response)
  : Api -> Response * Api :=
  fun a =>
    match m a with
    | (inr response, a') => (response, a')
    | (inl message, a') =>
        (mkResponse 500 (json_error message), written (line message) a')
    end.

(** [GET /api/orders] *)
Definition get_orders : Api -> Response * Api :=
  handle GetOrdersError
    (andThen getAllOrders
       (fun orders =>
          resolve (mkResponse 200 (json_data (Some (JArr orders)))))).

(** The destructuring of [req.body] inside the handler's [try]. *)
Definition destructured (req_body : option JsValue) : Req JsValue :=
  fun a => (destructure req_body, a).

(** [POST /api/orders]; [req_body] is what the body parser left in
    [req.body]. *)
Definition post_orders (req_body : option JsValue) : Api -> Response * Api :=
  handle CreateOrderError
    (andThen (destructured req_body)
       (fun body =>
          let customer_name := get_prop body "customer_name" in
          let product_name := get_prop body "product_name" in
          let status := get_prop body "status" in
          if falsy customer_name || falsy product_name then
            resolve (mkResponse 400
                       (json_error "customer_name and product_name are required"))
          else
            andThen (createOrder customer_name product_name status)
              (fun orderId =>
                 andThen (getOrderById (Some (JNum orderId)))
                   (fun newOrder =>
                      resolve (mkResponse 201 (json_data newOrder)))))).

(** [PUT /api/orders/:id] *)
Definition put_order (id : string) (req_body : option JsValue)
  : Api -> Response * Api :=
  handle UpdateOrderError
    (andThen (destructured req_body)
       (fun body =>
          let updateData := updateData_of body in
          match updateData with
          | [] => resolve (mkResponse 400 (json_error "No valid fields to update"))
          | _ =>
              andThen (updateOrder (Some (JStr id)) updateData)
                (fun updated =>
                   if negb updated then
                     resolve (mkResponse 404 (json_error "Order not found"))
                   else
                     andThen (getOrderById (Some (JStr id)))
                       (fun updatedOrder =>
                          resolve (mkResponse 200 (json_data updatedOrder))))
          end)).

(** [DELETE /api/orders/:id] *)
Definition delete_order (id : string) : Api -> Response * Api :=
  handle DeleteOrderError
    (andThen (deleteOrder (Some (JStr id)))
       (fun deleted =>
          if negb deleted then
            resolve (mkResponse 404 (json_error "Order not found"))
          else
            resolve (mkResponse 200
                       (JObj [("success", JBool true);
                              ("message", JStr "Order deleted successfully")])))).

End Engine.

End Rest.

(** ** Calls and polls that overlap, sockets that fail *)

(** [start()] up to its [await]: the guard on [isListening].  [true]: the
    call is past the guard and awaits [initializeLastProcessedId()]. *)
Definition start_enter : Async bool :=
  listening <- get (fun s => isListening (this s)) ;;
  ret (negb listening).

(** [start()] from there on: the cursor query is answered, the interval is
    created, and only then is the flag set. *)
Definition start_resume : Async unit :=
  try_catch
    (initializeLastProcessedId ;;
     startPolling ;;
     update_this (set_isListening true) ;;
     log LogListenerStarted)
    (fun e => log ErrFailedToStart ;; throw e).

(** A call of [start()] in its two halves. *)
Definition start_in_halves : Async unit :=
  entered <- start_enter ;;
  if entered then start_resume else ret tt.

(** Two calls of [start()], the second issued while the first awaits. *)
Definition overlapping_starts : Async unit :=
  first <- start_enter ;;
  second <- start_enter ;;
  (if first then start_resume else ret tt) ;;
  (if second then start_resume else ret tt).


Section Overlap.

Variable JSON_parse : string -> option JsValue.

(** The polling callback up to the answer of its [SELECT]: the cursor is
    read and the store answers from the table as it is then.  [None]: the
    query was rejected and the callback has ended. *)
Definition poll_begin : Async (option (list ChangeRow)) :=
  try_catch
    (cursor <- get (fun s => lastProcessedId (this s)) ;;
     changes <- query_unprocessed cursor ;;
     ret (Some changes))
    (fun _ => log ErrInCheckForChanges ;; ret None).

(** The polling callback from the answer on. *)
Definition poll_end (changes : list ChangeRow) : Async unit :=
  try_catch
    (try_catch
       (match changes with
        | [] => ret tt
        | _ =>
            process_batch JSON_parse changes ;;
            r <- Math_random ;;
            if lt_tenth r then cleanupOldChanges else ret tt
        end)
       (fun _ => log ErrInCheckForChanges))
    (fun _ => log ErrCheckingForChanges).

Definition poll_resume (fetched : option (list ChangeRow)) : Async unit :=
  match fetched with
  | Some changes => poll_end changes
  | None => ret tt
  end.

(** A firing of the timer in its two halves. *)
Definition poll_in_halves : Async unit :=
  fetched <- poll_begin ;;
  poll_resume fetched.

(** Two firings of the timer, the second while the first still awaits its
    [SELECT]: both queries are answered, then the first callback runs on,
    then the second. *)
Definition overlapping_polls : Async unit :=
  first <- poll_begin ;;
  second <- poll_begin ;;
  poll_resume first ;;
  poll_resume second.

End Overlap.
(** ** Vocabulary of the properties *)

Definition id_le (a b : ChangeRow) : Prop := id a <= id b.
Definition id_lt (a b : ChangeRow) : Prop := id a < id b.

(** [t'] comes from [t] by marking rows above [c] and deleting processed
    rows: the unprocessed rows up to [c] are kept as they are and no
    unprocessed row appears. *)
Definition table_step (c : Z) (t t' : list ChangeRow) : Prop :=
  (forall x, In x t -> processed x = false -> id x <= c -> In x t') /\
  (forall x, In x t' -> processed x = false -> In x t).

(** Every message of [extra] is the event of a change above [c]. *)
Definition above (c : Z) (extra : list Message) : Prop :=
  Forall (fun m => exists i, changeId m = Some i /\ c < i) extra.

(** The same sockets, each having received only events above [c] since. *)
Definition client_step (c : Z) (a b : Client) : Prop :=
  conn a = conn b /\ readyState a = readyState b /\
  send_throws a = send_throws b /\
  exists extra, received b = (received a ++ extra)%list /\ above c extra.

Definition clients_step (c : Z) (cs cs' : list Client) : Prop :=
  Forall2 (client_step c) cs cs'.

Definition grows (c : Z) (s s' : Sys) : Prop :=
  c <= cursor s' /\
  table_step c (order_changes s) (order_changes s') /\
  clients_step c (clients s) (clients s').


(** The table after the [UPDATE]s of a batch, and the listener after its
    assignments to [lastProcessedId]. *)
Definition mark_all (batch : list ChangeRow) (t : list ChangeRow) : list ChangeRow :=
  fold_left (fun acc r => update_processed (id r) acc) batch t.

Definition advance_to (batch : list ChangeRow) (l : ChangeListener) : ChangeListener :=
  fold_left (fun acc r => set_lastProcessedId (id r) acc) batch l.

(** The next [n] calls of [database.query] succeed. *)
Definition healthy (n : nat) (s : Sys) : Prop :=
  forallb negb (firstn n (faults s)) = true.

(** The end of a completed batch: the draw [r], then the [DELETE] when the
    draw is below 0.1, which the store (faults [f]) runs or rejects. *)
Definition sweep (r : Q) (f : list bool) (t : list ChangeRow) : list ChangeRow * list bool :=
  if lt_tenth r then ((if hd false f then t else delete_old t), tl f)
  else (t, f).

(** The listener as its constructor leaves it. *)
Definition constructed : ChangeListener := mkListener false None 0.

(** At most one interval is live, and it is the one the listener holds. *)
Definition one_poll_loop (s : Sys) : Prop :=
  match pollInterval (this s) with
  | Some h => timers s = [h] /\ isListening (this s) = true
  | None => timers s = [] /\ isListening (this s) = false
  end.

(** The calls a user of the class can make, each awaited before the next. *)
Inductive Call : Type := CallStart | CallStop | CallTick.

Definition call (JSON_parse : string -> option JsValue) (c : Call) (s : Sys) : Sys :=
  match c with
  | CallStart => exec (start) s
  | CallStop => exec stop s
  | CallTick => tick JSON_parse s
  end.

Definition calls (JSON_parse : string -> option JsValue) (cs : list Call) (s : Sys) : Sys :=
  fold_left (fun acc c => call JSON_parse c acc) cs s.

(** The four ways one firing of the timer can go. *)
Inductive TickCase (JSON_parse : string -> option JsValue) (s s' : Sys) : Prop :=
| FetchFails (f : list bool)
    (Hf : faults s = true :: f)
    (E : s' = mkSys (this s) (order_changes s) (clients s)
                    (console s ++ [ErrDatabaseQuery; ErrInCheckForChanges])%list f
                    (randoms s) (timers s) (next_handle s) (clock s)
                    (exit_code s) (fetching s))
| Idle
    (H : healthy 1 s)
    (B : select_unprocessed (cursor s) (order_changes s) = [])
    (E : s' = mkSys (this s) (order_changes s) (clients s) (console s)
                    (tl (faults s)) (randoms s) (timers s) (next_handle s)
                    (clock s) (exit_code s) (fetching s))
| Completed (lines : list Console)
    (B : select_unprocessed (cursor s) (order_changes s) <> [])
    (H : healthy (S (length (select_unprocessed (cursor s) (order_changes s)))) s)
    (E : s' =
         let batch := select_unprocessed (cursor s) (order_changes s) in
         let swept := sweep (hd 0%Q (randoms s))
                            (skipn (S (length batch)) (faults s))
                            (mark_all batch (order_changes s)) in
         mkSys (advance_to batch (this s)) (fst swept)
               (publish_rows JSON_parse batch (clients s))
               (console s ++ lines)%list (snd swept) (tl (randoms s))
               (timers s) (next_handle s) (clock s) (exit_code s) (fetching s))
| MarkFails (pre post : list ChangeRow) (r : ChangeRow) (f : list bool)
            (lines : list Console)
    (B : select_unprocessed (cursor s) (order_changes s) = (pre ++ r :: post)%list)
    (Hf : faults s = (false :: repeat false (length pre) ++ true :: f)%list)
    (E : s' = mkSys (set_lastProcessedId (id r) (advance_to pre (this s)))
                    (mark_all pre (order_changes s))
                    (publish_rows JSON_parse (pre ++ [r]) (clients s))
                    (console s ++ lines)%list f (randoms s)
                    (timers s) (next_handle s) (clock s) (exit_code s)
                    (fetching s)).


(** The cursor [initializeLastProcessedId] sets, and what it logs. *)
Definition init_cursor (s : Sys) : Z :=
  match faults s with
  | true :: _ => 0
  | _ => match select_max_processed (order_changes s) with
         | Some m => m
         | None => 0
         end
  end.

Definition init_lines (s : Sys) : list Console :=
  match faults s with
  | true :: _ => [ErrDatabaseQuery; ErrInitializing]
  | _ => [LogStartingFrom (init_cursor s)]
  end.

(** The payload [processChange] puts in [data]: [new_data] for an insert or
    an update, [old_data] for a delete. *)
Definition payload_of (change : ChangeRow) : JsValue :=
  match operation_type change with
  | DELETE => old_data change
  | _ => new_data change
  end.

(** The payload is the structured value [v], or a JSON text of [v]. *)
Definition parses_to (JSON_parse : string -> option JsValue)
           (payload v : JsValue) : Prop :=
  (typeof_object payload = true /\ truthy payload = true /\ v = payload) \/
  (exists text, payload = JStr text /\ text <> EmptyString /\
                text <> "[object Object]" /\ JSON_parse text = Some v).


(** One pass of the fan-out over a socket whose [send] succeeds. *)
Definition send_open (message : Message) (x : Client) : Client :=
  if (readyState x =? 1)%nat then deliver message x else x.

(** No open socket of the list throws on [send]. *)
Definition all_sends_succeed (cs : list Client) : Prop :=
  forallb (fun x => negb ((readyState x =? 1)%nat && send_throws x)) cs = true.

(** The messages a connection has been handed. *)
Definition inbox (c : nat) (s : Sys) : list Message :=
  match find (fun x => (conn x =? c)%nat) (clients s) with
  | Some x => received x
  | None => []
  end.

(** The events [ms] are published one after the other. *)
Definition publish_all (ms : list Message) (s : Sys) : Sys :=
  fold_left (fun acc m => exec (broadcastChange m) acc) ms s.

(** Connection [c] is in the live set, open, with a working [send]. *)
Definition live (c : nat) (s : Sys) : Prop :=
  exists x, find (fun y => (conn y =? c)%nat) (clients s) = Some x /\
            readyState x = 1%nat /\ send_throws x = false.

Definition unprocessed_rows (t : list ChangeRow) : list ChangeRow :=
  filter (fun r => negb (processed r)) t.

(** What delivery depends on: the listener, the sockets, the coming store
    faults and draws, and the rows still to deliver. *)
Definition delivery_state (s : Sys)
  : ChangeListener * list Client * list bool * list Q * list ChangeRow :=
  (this s, clients s, faults s, randoms s, unprocessed_rows (order_changes s)).

(** The processed rows, most recent first. *)
Definition processed_desc (t : list ChangeRow) : list ChangeRow :=
  rev (order_by_id (filter processed t)).

(** ** Vocabulary of the further properties *)

(** The messages of [extra] are change events with the ids [ids]. *)
Definition change_ids (extra : list Message) (ids : list Z) : Prop :=
  map changeId extra = map Some ids.

(** The same socket, having received since then at most [k] change events,
    with strictly increasing ids between [lo] and [hi]. *)
Definition delivered_between (lo hi : Z) (k : nat) (a b : Client) : Prop :=
  conn a = conn b /\ readyState a = readyState b /\
  send_throws a = send_throws b /\
  exists extra ids,
    received b = (received a ++ extra)%list /\ change_ids extra ids /\
    StronglySorted Z.lt ids /\ Forall (fun i => lo <= i <= hi) ids /\
    (length ids <= k)%nat.

Definition in_order (lo hi : Z) (k : nat) (cs cs' : list Client) : Prop :=
  Forall2 (delivered_between lo hi k) cs cs'.

(** Every row of [t'] is a row of [t], as it was or with only its
    [processed] flag set. *)
Definition from_rows (t t' : list ChangeRow) : Prop :=
  forall x, In x t' ->
            In x t \/
            exists y, In y t /\ processed y = false /\ x = mark_processed y.

(** A change event whose [data] is present and truthy. *)
Definition has_data (m : Message) : Prop :=
  exists d, data m = Some d /\ truthy d = true.

(** The same sockets, each having received only events with data since. *)
Definition only_with_data (cs cs' : list Client) : Prop :=
  Forall2 (fun a b => exists extra, received b = (received a ++ extra)%list /\
                                    Forall has_data extra) cs cs'.

(** The number of [?] placeholders of a statement. *)
Fixpoint placeholders (sql : string) : nat :=
  match sql with
  | EmptyString => 0%nat
  | String c rest => ((if Ascii.eqb c "?" then 1 else 0) + placeholders rest)%nat
  end.

(** What a handler made of the state [a].  When it could not read the
    body ([unread]): a 500 with the message of the TypeError, logged once
    by the handler, and no statement sent.  Otherwise: a 500 whose body
    carries the message of the rejected statement, logged by
    [Database.query] and then by the handler; or another status and no
    line. *)
Definition logged_iff_500 {D} (line : string -> Rest.ApiConsole) (unread : bool)
           (a : Rest.Api D) (out : Rest.Response * Rest.Api D) : Prop :=
  if unread then
    Rest.status (fst out) = 500%nat /\
    Rest.db D (snd out) = Rest.db D a /\
    exists message,
      Rest.body (fst out) = Rest.json_error message /\
      Rest.api_console D (snd out) = (Rest.api_console D a ++ [line message])%list
  else
    (Rest.status (fst out) = 500%nat /\
     exists message,
       Rest.body (fst out) = Rest.json_error message /\
       Rest.api_console D (snd out)
         = (Rest.api_console D a ++ [Rest.DatabaseQueryError message; line message])%list)
    \/
    (In (Rest.status (fst out)) [200; 201; 400; 404]%nat /\
     Rest.api_console D (snd out) = Rest.api_console D a).

(** ** Concrete processes *)

Module Scenario.

Import Json.

(** The text [{"id":5,"name":"Alice","status":"pending"}]. *)
Definition alice_text : string :=
  "{" ++ q ++ "id" ++ q ++ ":5," ++ q ++ "name" ++ q ++ ":" ++ q ++ "Alice" ++ q
      ++ "," ++ q ++ "status" ++ q ++ ":" ++ q ++ "pending" ++ q ++ "}".

Definition alice : JsValue :=
  JObj [("id", JNum 5); ("name", JStr "Alice"); ("status", JStr "pending")].

Definition shipped : JsValue :=
  JObj [("id", JNum 5); ("name", JStr "Alice"); ("status", JStr "shipped")].

Definition insert_alice (i : Z) (done : bool) : ChangeRow :=
  mkRow i (Some 5) INSERT JNull (JStr alice_text) "2024-01-01 10:00:00" done.

Definition update_alice (i : Z) (done : bool) : ChangeRow :=
  mkRow i (Some 5) UPDATE alice shipped "2024-01-01 10:00:05" done.

Definition insert_event (i : Z) : Message :=
  mkMessage "INSERT" (Some "orders") "2024-01-01 10:00:00" (Some i) (Some alice)
            None None.

Definition subscriber (c : nat) : Client := mkClient c 1 false [].
Definition broken_subscriber (c : nat) : Client := mkClient c 1 true [].

(** A process whose listener has just been constructed. *)
Definition process (t : list ChangeRow) (cs : list Client) (f : list bool) : Sys :=
  mkSys constructed t cs [] f [] [] 0 "2024-01-01T10:00:01.000Z" None [].

(** A binlog [updaterows] event on [orders]. *)
Definition binlog_update : BinlogListener.BinlogEvent :=
  BinlogListener.mkBinlogEvent "orders" "updaterows"
    [JObj [("before", alice); ("after", shipped)]].



(** A process whose listener is polling with its cursor at [c]. *)
Definition polling_at (c : Z) (t : list ChangeRow) (cs : list Client)
           (f : list bool) : Sys :=
  mkSys (mkListener true (Some 0%nat) c) t cs [] f [] [0%nat] 1
        "2024-01-01T10:00:01.000Z" None [].

End Scenario.

(** A store that answers from a script: each statement takes the next
    answer of its kind. *)
Module ScriptedEngine.

Definition D : Type := (list (string + list JsValue) * list (string + Rest.Header))%type.

Definition select (sql : string) (params : list (option JsValue)) (d : D)
  : (string + list JsValue) * D :=
  match fst d with
  | answer :: rest => (answer, (rest, snd d))
  | [] => (inr [], d)
  end.

Definition change (sql : string) (params : list (option JsValue)) (d : D)
  : (string + Rest.Header) * D :=
  match snd d with
  | answer :: rest => (answer, (fst d, rest))
  | [] => (inr (Rest.mkHeader 0 0), d)
  end.

Definition api (selects : list (string + list JsValue))
           (changes : list (string + Rest.Header)) : Rest.Api D :=
  Rest.mkApi D (selects, changes) [].

Definition order_7 : JsValue :=
  JObj [("id", JNum 7); ("customer_name", JStr "Alice");
        ("product_name", JStr "Laptop"); ("status", JStr "pending")].

End ScriptedEngine.
(** * Properties *)

(** ** Sorting and the store's statements *)

Lemma insert_by_id_perm (r : ChangeRow) (l : list ChangeRow) :
  Permutation (insert_by_id r l) (r :: l).
Proof.
  induction l as [|x l IH]; simpl.
  - apply Permutation_refl.
  - destruct (id r <=? id x).
    + apply Permutation_refl.
    + eapply Permutation_trans; [apply perm_skip, IH | apply perm_swap].
Qed.

Lemma order_by_id_perm (l : list ChangeRow) : Permutation (order_by_id l) l.
Proof.
  induction l as [|x l IH]; simpl.
  - apply perm_nil.
  - eapply Permutation_trans; [apply insert_by_id_perm | apply perm_skip, IH].
Qed.

Lemma order_by_id_In (x : ChangeRow) (l : list ChangeRow) :
  In x (order_by_id l) <-> In x l.
Proof.
  split; apply Permutation_in;
    [apply order_by_id_perm | apply Permutation_sym, order_by_id_perm].
Qed.

Lemma insert_by_id_sorted (r : ChangeRow) (l : list ChangeRow) :
  StronglySorted id_le l -> StronglySorted id_le (insert_by_id r l).
Proof.
  induction 1 as [|x l Hs IH Hx]; simpl.
  - repeat constructor.
  - destruct (id r <=? id x) eqn:E.
    + apply Z.leb_le in E. constructor; [constructor; assumption|].
      constructor; [exact E|].
      eapply Forall_impl; [|exact Hx]. unfold id_le. intros; lia.
    + apply Z.leb_gt in E. constructor; [exact IH|].
      eapply Permutation_Forall; [apply Permutation_sym, insert_by_id_perm|].
      constructor; [unfold id_le; lia | exact Hx].
Qed.

Lemma order_by_id_sorted (l : list ChangeRow) : StronglySorted id_le (order_by_id l).
Proof.
  induction l; simpl; [constructor | apply insert_by_id_sorted; assumption].
Qed.

Lemma In_firstn {A} (n : nat) (l : list A) (x : A) : In x (firstn n l) -> In x l.
Proof.
  intros H. rewrite <- (firstn_skipn n l). apply in_or_app. now left.
Qed.

Lemma In_skipn {A} (n : nat) (l : list A) (x : A) : In x (skipn n l) -> In x l.
Proof.
  intros H. rewrite <- (firstn_skipn n l). apply in_or_app. now right.
Qed.

Lemma pending_In (x : ChangeRow) (c : Z) (t : list ChangeRow) :
  In x (order_by_id (filter (unprocessed_after c) t)) <->
  In x t /\ c < id x /\ processed x = false.
Proof.
  rewrite order_by_id_In, filter_In. unfold unprocessed_after.
  rewrite andb_true_iff, Z.ltb_lt, negb_true_iff. tauto.
Qed.

(** Every fetched row is an unprocessed row of the table above the cursor. *)
Lemma select_unprocessed_In (x : ChangeRow) (c : Z) (t : list ChangeRow) :
  In x (select_unprocessed c t) -> In x t /\ c < id x /\ processed x = false.
Proof.
  unfold select_unprocessed. intros H. apply In_firstn in H.
  now apply pending_In.
Qed.

Lemma select_max_processed_bound (t : list ChangeRow) :
  match select_max_processed t with
  | Some m =>
      (exists x, In x t /\ processed x = true /\ id x = m) /\
      (forall x, In x t -> processed x = true -> id x <= m)
  | None => forall x, In x t -> processed x = false
  end.
Proof.
  induction t as [|r t IH]; simpl.
  - intros x [].
  - destruct (processed r) eqn:Hr.
    + destruct (select_max_processed t) as [m|].
      * destruct IH as [[y [Hy [Hp Hm]]] Hle]. split.
        -- destruct (Z.max_spec (id r) m) as [[_ E]|[_ E]]; rewrite E.
           ++ exists y. auto.
           ++ exists r. auto.
        -- intros x [<-|Hx] Hp'; [lia|]. specialize (Hle x Hx Hp'). lia.
      * split.
        -- exists r. auto.
        -- intros x [<-|Hx] Hp'; [lia|]. rewrite (IH x Hx) in Hp'. discriminate.
    + destruct (select_max_processed t) as [m|].
      * destruct IH as [[y [Hy [Hp Hm]]] Hle]. split.
        -- exists y. auto.
        -- intros x [<-|Hx] Hp'; [congruence | auto].
      * intros x [<-|Hx]; auto.
Qed.
(** ** The batch loop and the tick *)

Section Properties.

Variable JSON_parse : string -> option JsValue.

Ltac unfold_async :=
  unfold bind, ret, throw, try_catch, get, modify, log, log_all, update_this, exec in *.


Lemma processChange_spec (r : ChangeRow) (s : Sys) :
  exists lines,
    processChange JSON_parse r s =
    (Returned tt,
     mkSys (this s) (order_changes s) (publish_row JSON_parse r (clients s))
           (console s ++ lines)%list (faults s) (randoms s) (timers s)
           (next_handle s) (clock s) (exit_code s) (fetching s)).
Proof.
  unfold processChange, publish_row, normalize.
  destruct (changeData_of JSON_parse r) as [m lines] eqn:E. simpl.
  unfold broadcastChange, forEach_clients, publish. unfold_async.
  destruct (data_truthy m); simpl.
  - destruct (forEach_send m (clients s) 0) as [cs [n|e]] eqn:F; simpl.
    + exists (lines ++ [LogBroadcast (type m) n])%list.
      unfold set_console, set_clients; simpl. now rewrite app_assoc.
    + exists (lines ++ [ErrProcessingChange (id r)])%list.
      unfold set_console, set_clients; simpl. now rewrite app_assoc.
  - exists lines. destruct s; reflexivity.
Qed.

Lemma process_batch_cons_fail (r : ChangeRow) (rest : list ChangeRow) (s : Sys) (f : list bool) :
  faults s = true :: f ->
  exists lines,
    process_batch JSON_parse (r :: rest) s =
    (Thrown DbError,
     mkSys (set_lastProcessedId (id r) (this s)) (order_changes s)
           (publish_row JSON_parse r (clients s)) (console s ++ lines)%list f (randoms s)
           (timers s) (next_handle s) (clock s) (exit_code s) (fetching s)).
Proof.
  intros Hf. destruct (processChange_spec r s) as [lines E].
  exists (lines ++ [ErrDatabaseQuery])%list.
  simpl. unfold bind at 1. rewrite E.
  unfold query_update_processed, database_query. unfold_async. simpl.
  rewrite Hf. unfold set_console, set_faults; simpl. now rewrite app_assoc.
Qed.

Lemma process_batch_cons_ok (r : ChangeRow) (rest : list ChangeRow) (s : Sys) :
  hd false (faults s) = false ->
  exists lines,
    process_batch JSON_parse (r :: rest) s =
    process_batch JSON_parse rest
      (mkSys (set_lastProcessedId (id r) (this s))
             (update_processed (id r) (order_changes s))
             (publish_row JSON_parse r (clients s)) (console s ++ lines)%list
             (tl (faults s)) (randoms s)
             (timers s) (next_handle s) (clock s) (exit_code s) (fetching s)).
Proof.
  intros Hf. destruct (processChange_spec r s) as [lines E].
  exists lines.
  simpl. unfold bind at 1. rewrite E.
  unfold query_update_processed, database_query. unfold_async. simpl.
  destruct (faults s) as [|[|] f]; simpl in *; try discriminate; reflexivity.
Qed.


Lemma table_step_refl c t : table_step c t t.
Proof. split; auto. Qed.

Lemma table_step_trans c t1 t2 t3 :
  table_step c t1 t2 -> table_step c t2 t3 -> table_step c t1 t3.
Proof. intros [A1 B1] [A2 B2]. split; auto. Qed.

Lemma table_step_weaken c c' t t' :
  c <= c' -> table_step c' t t' -> table_step c t t'.
Proof. intros Hc [A B]. split; auto. intros x Hx Hp Hi. apply A; auto; lia. Qed.

Lemma update_processed_step c i t : c < i -> table_step c t (update_processed i t).
Proof.
  intros Hc. unfold update_processed. split.
  - intros x Hx Hp Hi. apply in_map_iff. exists x. split; auto.
    destruct (id x =? i) eqn:E; auto. apply Z.eqb_eq in E. lia.
  - intros x Hx Hp. apply in_map_iff in Hx. destruct Hx as [y [Hy Hin]].
    destruct (id y =? i); subst; auto. discriminate.
Qed.

Lemma delete_old_step c t : table_step c t (delete_old t).
Proof.
  unfold delete_old. destruct (cleanup_threshold t) as [th|].
  - split.
    + intros x Hx Hp _. apply filter_In. split; auto. now rewrite Hp.
    + intros x Hx _. now apply filter_In in Hx.
  - apply table_step_refl.
Qed.

Lemma above_weaken c c' extra : c <= c' -> above c' extra -> above c extra.
Proof.
  intros Hc. apply Forall_impl. intros m [i [E Hi]]. exists i. split; auto; lia.
Qed.

Lemma client_step_refl c a : client_step c a a.
Proof.
  repeat split. exists []. split; [now rewrite app_nil_r | constructor].
Qed.

Lemma client_step_trans c a1 a2 a3 :
  client_step c a1 a2 -> client_step c a2 a3 -> client_step c a1 a3.
Proof.
  intros [C1 [R1 [T1 [e1 [E1 A1]]]]] [C2 [R2 [T2 [e2 [E2 A2]]]]].
  repeat split; try congruence.
  exists (e1 ++ e2)%list. split.
  - now rewrite E2, E1, app_assoc.
  - apply Forall_app. split; assumption.
Qed.

Lemma clients_step_refl c cs : clients_step c cs cs.
Proof. induction cs; constructor; auto using client_step_refl. Qed.

Lemma clients_step_trans c cs1 cs2 cs3 :
  clients_step c cs1 cs2 -> clients_step c cs2 cs3 -> clients_step c cs1 cs3.
Proof.
  intros H. revert cs3.
  induction H as [|a b cs1 cs2 Hab H IH]; intros cs3 H3; inversion H3; subst.
  - constructor.
  - constructor; [eapply client_step_trans; eassumption | apply IH; assumption].
Qed.

Lemma clients_step_weaken c c' cs cs' :
  c <= c' -> clients_step c' cs cs' -> clients_step c cs cs'.
Proof.
  intros Hc. apply Forall2_impl.
  intros a b [C [R [T [e [E A]]]]]. repeat split; auto.
  exists e. split; auto. eapply above_weaken; eauto.
Qed.

Lemma forEach_send_step (c i : Z) (m : Message) (cs : list Client) (n : nat) :
  changeId m = Some i -> c < i -> clients_step c cs (fst (forEach_send m cs n)).
Proof.
  intros Hm Hi. revert n. induction cs as [|a cs IH]; intros n; simpl.
  - constructor.
  - destruct (readyState a =? 1)%nat.
    + destruct (send_throws a); simpl.
      * apply clients_step_refl.
      * specialize (IH (S n)). destruct (forEach_send m cs (S n)) as [cs' out].
        simpl in *. constructor; auto.
        repeat split. exists [m]. split; auto.
        constructor; [exists i; auto | constructor].
    + specialize (IH n). destruct (forEach_send m cs n) as [cs' out].
      simpl in *. constructor; auto using client_step_refl.
Qed.

Lemma changeData_of_changeId (r : ChangeRow) :
  changeId (fst (changeData_of JSON_parse r)) = Some (id r).
Proof.
  unfold changeData_of. destruct (operation_type r);
    repeat match goal with
           | |- context [safeJSONParse ?p ?v] => destruct (safeJSONParse p v)
           end; reflexivity.
Qed.

Lemma publish_row_step (c : Z) (r : ChangeRow) (cs : list Client) :
  c < id r -> clients_step c cs (publish_row JSON_parse r cs).
Proof.
  intros Hc. unfold publish_row, normalize.
  destruct (data_truthy _).
  - eapply forEach_send_step; eauto using changeData_of_changeId.
  - apply clients_step_refl.
Qed.

Lemma grows_trans c s1 s2 s3 : grows c s1 s2 -> grows c s2 s3 -> grows c s1 s3.
Proof.
  intros [_ [T1 C1]] [H [T2 C2]]. repeat split; auto.
  - eapply table_step_trans; eauto.
  - eapply table_step_trans; eauto.
  - eapply clients_step_trans; eauto.
Qed.

Lemma grows_weaken c c' s s' : c <= c' -> grows c' s s' -> grows c s s'.
Proof.
  intros Hc [H [T C]]. split; [lia|]. split.
  - eapply table_step_weaken; eauto.
  - eapply clients_step_weaken; eauto.
Qed.

Lemma process_batch_grows (rows : list ChangeRow) :
  forall (c : Z) (s : Sys),
    c <= cursor s -> Forall (fun r => c < id r) rows ->
    grows c s (snd (process_batch JSON_parse rows s)).
Proof.
  induction rows as [|r rows IH]; intros c s Hc Hrows.
  - simpl. repeat split; auto using clients_step_refl.
  - inversion Hrows as [|? ? Hr Hrest]; subst.
    destruct (faults s) as [|[|] f] eqn:Hf.
    + destruct (process_batch_cons_ok r rows s) as [lines E]; [now rewrite Hf|].
      rewrite E. eapply grows_trans; [|apply IH; auto; unfold cursor; simpl; lia].
      unfold grows, cursor; simpl. split; [lia|]. split.
      * now apply update_processed_step.
      * now apply publish_row_step.
    + destruct (process_batch_cons_fail r rows s f Hf) as [lines E].
      rewrite E. unfold grows, cursor; simpl. split; [lia|]. split.
      * apply table_step_refl.
      * now apply publish_row_step.
    + destruct (process_batch_cons_ok r rows s) as [lines E]; [now rewrite Hf|].
      rewrite E. eapply grows_trans; [|apply IH; auto; unfold cursor; simpl; lia].
      unfold grows, cursor; simpl. split; [lia|]. split.
      * now apply update_processed_step.
      * now apply publish_row_step.
Qed.


Lemma select_unprocessed_above (c : Z) (t : list ChangeRow) :
  Forall (fun r => c < id r) (select_unprocessed c t).
Proof.
  apply Forall_forall. intros x Hx. now apply select_unprocessed_In in Hx.
Qed.

Lemma grows_frame (c : Z) (s s1 s2 : Sys) :
  grows c s s1 ->
  this s2 = this s1 ->
  table_step c (order_changes s1) (order_changes s2) ->
  clients s2 = clients s1 ->
  grows c s s2.
Proof.
  intros [H [T C]] Ht Hs Hc. unfold grows, cursor in *.
  rewrite Ht, Hc. repeat split; auto; eapply table_step_trans; eauto.
Qed.

Lemma cleanupOldChanges_frame (s : Sys) :
  fst (cleanupOldChanges s) = Returned tt /\
  this (snd (cleanupOldChanges s)) = this s /\
  clients (snd (cleanupOldChanges s)) = clients s /\
  randoms (snd (cleanupOldChanges s)) = randoms s /\
  faults (snd (cleanupOldChanges s)) = tl (faults s) /\
  (order_changes (snd (cleanupOldChanges s)) = order_changes s \/
   order_changes (snd (cleanupOldChanges s)) = delete_old (order_changes s)).
Proof.
  unfold cleanupOldChanges, query_delete_old, database_query. unfold_async.
  destruct (faults s) as [|[|] f] eqn:Hf; simpl; rewrite ?Hf; repeat (split; [reflexivity|]); auto.
Qed.

Lemma grows_try_log (c : Z) (s s0 : Sys) (m : Async unit) (line : Console) :
  grows c s (snd (m s0)) ->
  grows c s (snd (try_catch m (fun _ => log line) s0)).
Proof.
  intros H. unfold try_catch. destruct (m s0) as [[x|e] s1]; simpl in *; exact H.
Qed.

Lemma batch_body_grows (batch : list ChangeRow) (c : Z) (s0 : Sys) :
  c <= cursor s0 -> Forall (fun r => c < id r) batch ->
  grows c s0
    (snd ((process_batch JSON_parse batch ;;
           r <- Math_random ;;
           (if lt_tenth r then cleanupOldChanges else ret tt)) s0)).
Proof.
  intros Hc Hb. pose proof (process_batch_grows batch c s0 Hc Hb) as G.
  unfold bind at 1. destruct (process_batch JSON_parse batch s0) as [[[]|e] s1]; simpl in *; auto.
  unfold bind, Math_random.
  assert (K : forall s2, this s2 = this s1 -> order_changes s2 = order_changes s1 ->
                         clients s2 = clients s1 -> forall r,
            grows c s0 (snd ((if lt_tenth r then cleanupOldChanges else ret tt) s2))).
  { intros s2 Ht Ho Hcl r.
    assert (G2 : grows c s0 s2).
    { eapply grows_frame; eauto. rewrite Ho. apply table_step_refl. }
    destruct (lt_tenth r); simpl; auto.
    destruct (cleanupOldChanges_frame s2) as [_ [Ht' [Hcl' [_ [_ Hd]]]]].
    eapply grows_frame; eauto.
    destruct Hd as [-> | ->]; auto using table_step_refl, delete_old_step. }
  destruct (randoms s1) as [|r rs]; apply K; reflexivity.
Qed.

Lemma tick_grows (s : Sys) : grows (cursor s) s (tick JSON_parse s).
Proof.
  assert (R : forall s0, this s0 = this s -> order_changes s0 = order_changes s ->
                         clients s0 = clients s -> grows (cursor s) s s0).
  { intros s0 Ht Ho Hc. unfold grows, cursor. rewrite Ht, Ho, Hc.
    repeat split; auto using clients_step_refl; lia. }
  unfold tick, poll_callback, exec.
  apply grows_try_log. unfold checkForChanges. apply grows_try_log.
  unfold bind at 1 2, get, query_unprocessed, database_query.
  destruct (faults s) as [|[|] f] eqn:Hf; simpl.
  - destruct (select_unprocessed _ _) eqn:B.
    + apply R; reflexivity.
    + rewrite <- B. eapply grows_trans; cycle 1.
      * apply batch_body_grows; [unfold cursor; simpl; lia|].
        apply select_unprocessed_above.
      * apply R; reflexivity.
  - apply R; reflexivity.
  - destruct (select_unprocessed _ _) eqn:B.
    + apply R; reflexivity.
    + rewrite <- B. eapply grows_trans; cycle 1.
      * apply batch_body_grows; [unfold cursor; simpl; lia|].
        apply select_unprocessed_above.
      * apply R; reflexivity.
Qed.

Lemma ticks_grows (n : nat) : forall s, grows (cursor s) s (ticks JSON_parse n s).
Proof.
  induction n as [|n IH]; intros s; simpl.
  - repeat split; auto using clients_step_refl; lia.
  - pose proof (tick_grows s) as G. eapply grows_trans; [exact G|].
    eapply grows_weaken; [|apply IH]. apply G.
Qed.


(** ** A tick on a healthy store *)

Lemma bind_assoc {A B C} (m : Async A) (k : A -> Async B) (h : B -> Async C) (s : Sys) :
  bind (bind m k) h s = bind m (fun x => bind (k x) h) s.
Proof.
  unfold bind. destruct (m s) as [[a|e] s1]; reflexivity.
Qed.

Lemma bind_ext {A B} (m : Async A) (k k' : A -> Async B) (s : Sys) :
  (forall a s1, k a s1 = k' a s1) -> bind m k s = bind m k' s.
Proof.
  intros H. unfold bind. destruct (m s) as [[a|e] s1]; auto.
Qed.

Lemma process_batch_app (a b : list ChangeRow) :
  forall s, process_batch JSON_parse (a ++ b) s =
            (process_batch JSON_parse a ;; process_batch JSON_parse b) s.
Proof.
  induction a as [|r a IH]; intros s.
  - reflexivity.
  - simpl. rewrite bind_assoc. apply bind_ext. intros _ s1.
    rewrite bind_assoc. apply bind_ext. intros _ s2.
    rewrite bind_assoc. apply bind_ext. intros _ s3.
    apply IH.
Qed.

Lemma healthy_S (n : nat) (s : Sys) :
  healthy (S n) s ->
  hd false (faults s) = false /\ forallb negb (firstn n (tl (faults s))) = true.
Proof.
  unfold healthy. destruct (faults s) as [|[|] f]; simpl; intros H;
    try discriminate; auto.
  split; auto. now rewrite firstn_nil.
Qed.

Lemma skipn_tl {A} (n : nat) (l : list A) : skipn n (tl l) = skipn (S n) l.
Proof. destruct l; simpl; [destruct n|]; reflexivity. Qed.

Lemma process_batch_healthy (rows : list ChangeRow) :
  forall s, healthy (length rows) s ->
  exists lines,
    process_batch JSON_parse rows s =
    (Returned tt,
     mkSys (advance_to rows (this s)) (mark_all rows (order_changes s))
           (publish_rows JSON_parse rows (clients s)) (console s ++ lines)%list
           (skipn (length rows) (faults s)) (randoms s)
           (timers s) (next_handle s) (clock s) (exit_code s) (fetching s)).
Proof.
  induction rows as [|r rows IH]; intros s H.
  - exists []. simpl. rewrite app_nil_r. destruct s; reflexivity.
  - change (healthy (S (length rows)) s) in H.
    apply healthy_S in H. destruct H as [H0 H].
    destruct (process_batch_cons_ok r rows s H0) as [l1 E1].
    rewrite E1.
    match goal with
    | |- context [process_batch _ rows ?s1] => destruct (IH s1 H) as [l2 E2]
    end.
    rewrite E2. exists (l1 ++ l2)%list.
    cbn [this order_changes clients console faults randoms timers next_handle
         clock exit_code fetching].
    rewrite skipn_tl, app_assoc. reflexivity.
Qed.

(** The loop stops at the first [UPDATE] the store rejects: that row's
    event is out and the cursor is on it. *)
Lemma process_batch_mark_fails (pre post : list ChangeRow) (r : ChangeRow)
      (s : Sys) (f : list bool) :
  faults s = (repeat false (length pre) ++ true :: f)%list ->
  exists lines,
    process_batch JSON_parse (pre ++ r :: post) s =
    (Thrown DbError,
     mkSys (set_lastProcessedId (id r) (advance_to pre (this s)))
           (mark_all pre (order_changes s))
           (publish_rows JSON_parse (pre ++ [r]) (clients s))
           (console s ++ lines)%list f (randoms s)
           (timers s) (next_handle s) (clock s) (exit_code s) (fetching s)).
Proof.
  intros Hf. rewrite process_batch_app. unfold bind.
  destruct (process_batch_healthy pre s) as [l1 E1].
  { unfold healthy. rewrite Hf, firstn_app, repeat_length, Nat.sub_diag.
    rewrite firstn_all2 by (rewrite repeat_length; auto).
    simpl. rewrite app_nil_r. clear. induction (length pre); simpl; auto. }
  rewrite E1.
  edestruct (process_batch_cons_fail r post) as [l2 E2];
    [|rewrite E2].
  { simpl. rewrite Hf, skipn_app, repeat_length, Nat.sub_diag.
    rewrite skipn_all2 by (rewrite repeat_length; auto). reflexivity. }
  exists (l1 ++ l2)%list. simpl. unfold publish_rows.
  rewrite fold_left_app, app_assoc. reflexivity.
Qed.

Lemma fetch_ok (s : Sys) (k : list ChangeRow -> Async unit) :
  hd false (faults s) = false ->
  (cursor <- get (fun s => lastProcessedId (this s)) ;;
   changes <- query_unprocessed cursor ;; k changes) s =
  k (select_unprocessed (cursor s) (order_changes s))
    (mkSys (this s) (order_changes s) (clients s) (console s) (tl (faults s))
           (randoms s) (timers s) (next_handle s) (clock s) (exit_code s)
           (fetching s)).
Proof.
  intros H. unfold bind, get, query_unprocessed, database_query, cursor.
  destruct (faults s) as [|[|] f] eqn:Hf; simpl in *; try discriminate.
  - destruct s; simpl in *; subst; reflexivity.
  - reflexivity.
Qed.

(** A poll that fetches nothing changes nothing. *)
Lemma tick_idle (s : Sys) :
  healthy 1 s ->
  select_unprocessed (cursor s) (order_changes s) = [] ->
  tick JSON_parse s =
  mkSys (this s) (order_changes s) (clients s) (console s) (tl (faults s))
        (randoms s) (timers s) (next_handle s) (clock s) (exit_code s)
        (fetching s).
Proof.
  intros H B. apply healthy_S in H. destruct H as [H0 _].
  unfold tick, poll_callback, checkForChanges, exec.
  unfold try_catch at 1 2. rewrite (fetch_ok s _ H0), B. reflexivity.
Qed.

(** A poll whose fetch the store rejects changes nothing but the log. *)
Lemma tick_fetch_fails (s : Sys) (f : list bool) :
  faults s = true :: f ->
  tick JSON_parse s =
  mkSys (this s) (order_changes s) (clients s)
        (console s ++ [ErrDatabaseQuery; ErrInCheckForChanges])%list f
        (randoms s) (timers s) (next_handle s) (clock s) (exit_code s)
        (fetching s).
Proof.
  intros Hf. unfold tick, poll_callback, checkForChanges, exec.
  unfold try_catch, bind, get, query_unprocessed, database_query, log, modify.
  rewrite Hf. simpl. unfold set_console; simpl. now rewrite <- app_assoc.
Qed.

Lemma after_batch (s1 : Sys) :
  let swept := sweep (hd 0%Q (randoms s1)) (faults s1) (order_changes s1) in
  exists lines,
    (r <- Math_random ;; (if lt_tenth r then cleanupOldChanges else ret tt)) s1 =
    (Returned tt,
     mkSys (this s1) (fst swept) (clients s1) (console s1 ++ lines)%list
           (snd swept) (tl (randoms s1))
           (timers s1) (next_handle s1) (clock s1) (exit_code s1) (fetching s1)).
Proof.
  unfold bind, Math_random, sweep.
  unfold cleanupOldChanges, query_delete_old, database_query, try_catch, ret.
  destruct s1 as [th t cs co f rs ti nh cl ex fe]; cbn [randoms faults order_changes].
  destruct rs as [|r rs]; cbn [hd tl].
  - destruct (lt_tenth 0%Q); [destruct f as [|[|] f]|]; cbn;
      try (exists []; rewrite app_nil_r; reflexivity).
    exists [ErrDatabaseQuery]. reflexivity.
  - destruct (lt_tenth r); [destruct f as [|[|] f]|]; cbn;
      try (exists []; rewrite app_nil_r; reflexivity).
    exists [ErrDatabaseQuery]. reflexivity.
Qed.

(** A poll on a store that answers the fetch and every [UPDATE]: the whole
    batch is published in order, the cursor is on its last row, every row
    of it is marked, and the sweep may follow. *)
Lemma tick_healthy (s : Sys) :
  let batch := select_unprocessed (cursor s) (order_changes s) in
  let swept := sweep (hd 0%Q (randoms s)) (skipn (S (length batch)) (faults s))
                     (mark_all batch (order_changes s)) in
  batch <> [] ->
  healthy (S (length batch)) s ->
  exists lines,
    tick JSON_parse s =
    mkSys (advance_to batch (this s)) (fst swept)
          (publish_rows JSON_parse batch (clients s)) (console s ++ lines)%list
          (snd swept) (tl (randoms s))
          (timers s) (next_handle s) (clock s) (exit_code s) (fetching s).
Proof.
  intros batch swept Hb H. apply healthy_S in H. destruct H as [H0 H].
  subst swept.
  unfold tick, poll_callback, checkForChanges, exec.
  unfold try_catch at 1 2. rewrite (fetch_ok s _ H0). fold batch.
  clearbody batch. destruct batch as [|b0 rest]; [congruence|].
  set (batch := b0 :: rest) in *.
  unfold bind at 1.
  match goal with
  | |- context [process_batch _ batch ?s1] =>
      destruct (process_batch_healthy batch s1 H) as [l1 E]; rewrite E
  end.
  cbn [this order_changes clients console faults randoms timers next_handle
       clock exit_code fetching].
  match goal with
  | |- context [bind Math_random ?k ?s1] =>
      destruct (after_batch s1) as [l2 E2]; rewrite E2
  end.
  cbn [this order_changes clients console faults randoms timers next_handle
       clock exit_code fetching snd].
  rewrite skipn_tl. exists (l1 ++ l2)%list. now rewrite app_assoc.
Qed.

(** A poll in which the store rejects the [UPDATE] of row [r]: the rows
    before it are done, the event of [r] is out, the cursor is on [r], and
    the rest of the batch is abandoned. *)
Lemma tick_mark_fails (s : Sys) (pre post : list ChangeRow) (r : ChangeRow)
      (f : list bool) :
  select_unprocessed (cursor s) (order_changes s) = (pre ++ r :: post)%list ->
  faults s = (false :: repeat false (length pre) ++ true :: f)%list ->
  exists lines,
    tick JSON_parse s =
    mkSys (set_lastProcessedId (id r) (advance_to pre (this s)))
          (mark_all pre (order_changes s))
          (publish_rows JSON_parse (pre ++ [r]) (clients s))
          (console s ++ lines)%list f (randoms s)
          (timers s) (next_handle s) (clock s) (exit_code s) (fetching s).
Proof.
  intros B Hf.
  unfold tick, poll_callback, checkForChanges, exec.
  unfold try_catch at 1 2. rewrite (fetch_ok s _) by (now rewrite Hf).
  rewrite B.
  destruct (pre ++ r :: post)%list as [|b0 rest] eqn:Hb;
    [destruct pre; discriminate|]. rewrite <- Hb.
  unfold bind at 1.
  match goal with
  | |- context [process_batch _ _ ?s1] =>
      destruct (process_batch_mark_fails pre post r s1 f) as [l1 E];
        [cbn [faults]; rewrite Hf; reflexivity | rewrite E]
  end.
  cbn [this order_changes clients console faults randoms timers next_handle
       clock exit_code fetching].
  unfold log, modify. cbn.
  exists (l1 ++ [ErrInCheckForChanges])%list. now rewrite app_assoc.
Qed.

(** ** The four ways a tick can go *)

Lemma faults_split (n : nat) :
  forall f : list bool,
    forallb negb (firstn n f) = true \/
    exists k f', (k < n)%nat /\ f = (repeat false k ++ true :: f')%list.
Proof.
  induction n as [|n IH]; intros f.
  - left. reflexivity.
  - destruct f as [|[|] f].
    + left. reflexivity.
    + right. exists 0%nat, f. split; [lia | reflexivity].
    + destruct (IH f) as [H | [k [f' [Hk E]]]].
      * left. exact H.
      * right. exists (S k), f'. split; [lia | simpl; now rewrite E].
Qed.

Lemma split_at {A} (k : nat) (l : list A) :
  (k < length l)%nat ->
  exists pre x post, l = (pre ++ x :: post)%list /\ length pre = k.
Proof.
  intros H. exists (firstn k l).
  destruct (skipn k l) as [|x post] eqn:E.
  - apply (f_equal (@length A)) in E. rewrite length_skipn in E. simpl in E. lia.
  - exists x, post. split.
    + rewrite <- E. symmetry. apply firstn_skipn.
    + rewrite length_firstn. lia.
Qed.

Lemma tick_cases (s : Sys) : TickCase JSON_parse s (tick JSON_parse s).
Proof.
  destruct (faults s) as [|[|] f] eqn:Hf.
  - destruct (select_unprocessed (cursor s) (order_changes s)) eqn:B.
    + assert (H : healthy 1 s) by (unfold healthy; now rewrite Hf).
      apply Idle; auto. now rewrite tick_idle.
    + destruct (tick_healthy s) as [lines E].
      * now rewrite B.
      * unfold healthy. now rewrite Hf, firstn_nil.
      * apply (Completed _ _ _ lines); [now rewrite B | | exact E].
        unfold healthy. now rewrite Hf, firstn_nil.
  - eapply FetchFails; eauto. now apply tick_fetch_fails.
  - destruct (select_unprocessed (cursor s) (order_changes s)) as [|b0 rest] eqn:B.
    + assert (H : healthy 1 s) by (unfold healthy; now rewrite Hf).
      apply Idle; auto. now rewrite tick_idle.
    + destruct (faults_split (length (select_unprocessed (cursor s) (order_changes s))) f)
        as [H | [k [f' [Hk E]]]].
      * assert (H' : healthy (S (length (select_unprocessed (cursor s) (order_changes s)))) s).
        { unfold healthy. rewrite Hf. exact H. }
        destruct (tick_healthy s) as [lines E]; [now rewrite B | exact H' |].
        apply (Completed _ _ _ lines); [now rewrite B | exact H' | exact E].
      * destruct (split_at k _ Hk) as [pre [x [post [Hs Hl]]]].
        destruct (tick_mark_fails s pre post x f') as [lines E'].
        -- exact Hs.
        -- rewrite Hf, Hl, E. reflexivity.
        -- eapply MarkFails; eauto. rewrite Hf, Hl, E. reflexivity.
Qed.

(** ** Cursor, marks and primary keys *)

Lemma last_cons_default {A} (x : A) (l : list A) (d d' : A) :
  last (x :: l) d = last (x :: l) d'.
Proof.
  revert x. induction l as [|y l IH]; intros x; [reflexivity|].
  change (last (y :: l) d = last (y :: l) d'). apply IH.
Qed.

Lemma advance_to_cursor (rows : list ChangeRow) :
  forall l, lastProcessedId (advance_to rows l) =
            last (map id rows) (lastProcessedId l).
Proof.
  induction rows as [|r rows IH]; intros l; [reflexivity|].
  change (lastProcessedId (advance_to rows (set_lastProcessedId (id r) l)) =
          last (id r :: map id rows) (lastProcessedId l)).
  rewrite IH. destruct rows as [|c rows]; [reflexivity|].
  change (last (map id (c :: rows)) (id r) =
          last (map id (c :: rows)) (lastProcessedId l)).
  apply last_cons_default.
Qed.

Lemma mark_all_ids (batch : list ChangeRow) :
  forall t, map id (mark_all batch t) = map id t.
Proof.
  induction batch as [|b batch IH]; intros t; simpl; auto.
  rewrite IH. unfold update_processed. rewrite map_map.
  apply map_ext. intros r. destruct (id r =? id b); reflexivity.
Qed.

(** A row whose id is not in the batch is left as it is. *)
Lemma mark_all_other (batch : list ChangeRow) (x : ChangeRow) :
  forall t, In x t -> ~ In (id x) (map id batch) -> In x (mark_all batch t).
Proof.
  induction batch as [|b batch IH]; intros t Hx Hn; simpl in *; auto.
  apply IH; [|tauto]. unfold update_processed. apply in_map_iff.
  exists x. split; auto. destruct (Z.eqb_spec (id x) (id b)); auto.
  exfalso. apply Hn. left. congruence.
Qed.

Lemma update_processed_keeps_marks (i : Z) (t : list ChangeRow) (P : Z -> Prop) :
  (forall x, In x t -> P (id x) -> processed x = true) ->
  forall x, In x (update_processed i t) -> P (id x) \/ id x = i ->
            processed x = true.
Proof.
  intros H x Hx Hp. unfold update_processed in Hx. apply in_map_iff in Hx.
  destruct Hx as [y [Hy Hin]]. destruct (Z.eqb_spec (id y) i) as [E|E].
  - subst x. reflexivity.
  - subst x. destruct Hp as [Hp|Hp]; [auto | contradiction].
Qed.

(** Every row whose id is in the batch is marked. *)
Lemma mark_all_marks (batch : list ChangeRow) :
  forall (t : list ChangeRow) (P : Z -> Prop),
    (forall x, In x t -> P (id x) -> processed x = true) ->
    forall x, In x (mark_all batch t) ->
              P (id x) \/ In (id x) (map id batch) -> processed x = true.
Proof.
  induction batch as [|b batch IH]; intros t P H x Hx Hp; simpl in *.
  - destruct Hp as [Hp|[]]. auto.
  - apply (IH (update_processed (id b) t) (fun i => P i \/ i = id b)); auto.
    + intros y Hy Hq. eapply update_processed_keeps_marks; eauto.
    + destruct Hp as [Hp|[Hp|Hp]]; auto.
Qed.

Lemma sweep_incl (r : Q) (f : list bool) (t : list ChangeRow) (x : ChangeRow) :
  In x (fst (sweep r f t)) -> In x t.
Proof.
  unfold sweep, delete_old. destruct (lt_tenth r); simpl; auto.
  destruct (hd false f); auto.
  destruct (cleanup_threshold t); auto. intros H. now apply filter_In in H.
Qed.

Lemma sweep_keeps_unprocessed (r : Q) (f : list bool) (t : list ChangeRow)
      (x : ChangeRow) :
  In x t -> processed x = false -> In x (fst (sweep r f t)).
Proof.
  intros Hx Hp. unfold sweep, delete_old. destruct (lt_tenth r); simpl; auto.
  destruct (hd false f); auto.
  destruct (cleanup_threshold t); auto. apply filter_In. now rewrite Hp.
Qed.

Lemma StronglySorted_firstn {A} (R : A -> A -> Prop) (n : nat) (l : list A) :
  StronglySorted R l -> StronglySorted R (firstn n l).
Proof.
  intros H. revert n. induction H as [|x l Hs IH Hx]; intros [|n]; simpl;
    try constructor; auto.
  rewrite Forall_forall in *. intros y Hy. apply Hx. eapply In_firstn; eauto.
Qed.

Lemma select_unprocessed_sorted (c : Z) (t : list ChangeRow) :
  StronglySorted id_le (select_unprocessed c t).
Proof.
  apply StronglySorted_firstn, order_by_id_sorted.
Qed.

Lemma sorted_app_le (pre post : list ChangeRow) (r x : ChangeRow) :
  StronglySorted id_le (pre ++ r :: post) -> In x post -> id r <= id x.
Proof.
  induction pre as [|p pre IH]; simpl; intros H Hx.
  - inversion H as [|? ? _ Hall]; subst. rewrite Forall_forall in Hall.
    apply Hall, Hx.
  - inversion H; subst. auto.
Qed.

Lemma sorted_last_le (pre post : list ChangeRow) (r : ChangeRow) (d : Z) :
  StronglySorted id_le (pre ++ r :: post) ->
  id r <= last (map id (pre ++ r :: post)) d.
Proof.
  intros H. rewrite map_app. simpl.
  assert (E : forall (l : list Z) (a d : Z), exists b,
             last (l ++ [a]) d = a /\ b = a) by
    (intros l a d0; exists a; split; [apply last_last | reflexivity]).
  destruct (exists_last (l := r :: post)) as [init [z Hz]]; [discriminate|].
  assert (Hl : last (map id pre ++ map id (r :: post)) d = id z).
  { rewrite Hz, map_app, app_assoc. simpl. apply last_last. }
  simpl in Hl. rewrite Hl.
  destruct init as [|i init]; simpl in Hz.
  - injection Hz as -> ->. lia.
  - injection Hz as -> Hp. eapply sorted_app_le; eauto.
    rewrite Hp. apply in_or_app. right. simpl. auto.
Qed.

Lemma NoDup_map_filter {A B} (g : A -> B) (f : A -> bool) (l : list A) :
  NoDup (map g l) -> NoDup (map g (filter f l)).
Proof.
  induction l as [|x l IH]; simpl; intros H; auto.
  inversion H as [|? ? Hn Hd]; subst. destruct (f x); simpl; auto.
  constructor; auto. intros Hin. apply Hn.
  apply in_map_iff in Hin. destruct Hin as [y [E Hy]].
  apply in_map_iff. exists y. split; auto. now apply filter_In in Hy.
Qed.

Lemma pending_ids_NoDup (c : Z) (t : list ChangeRow) :
  NoDup (map id t) ->
  NoDup (map id (order_by_id (filter (unprocessed_after c) t))).
Proof.
  intros H. eapply Permutation_NoDup.
  - apply Permutation_map, Permutation_sym, order_by_id_perm.
  - now apply NoDup_map_filter.
Qed.

Lemma select_unprocessed_ids_NoDup (c : Z) (t : list ChangeRow) :
  NoDup (map id t) -> NoDup (map id (select_unprocessed c t)).
Proof.
  intros H. unfold select_unprocessed.
  pose proof (pending_ids_NoDup c t H) as N.
  rewrite <- (firstn_skipn 50 (order_by_id _)), map_app in N.
  eapply NoDup_app_remove_r; eauto.
Qed.

Lemma NoDup_app_not_in {A} (pre post : list A) (x : A) :
  NoDup (pre ++ x :: post) -> ~ In x pre.
Proof.
  intros H Hin. apply NoDup_remove_2 in H. apply H.
  apply in_or_app. now left.
Qed.

(** ** Starting the listener *)

Lemma start_listening (s : Sys) :
  isListening (this s) = true -> start s = (Returned tt, s).
Proof.
  intros H. unfold start, bind, get. rewrite H. reflexivity.
Qed.

Lemma initializeLastProcessedId_spec (s : Sys) :
  initializeLastProcessedId s =
  (Returned tt,
   mkSys (set_lastProcessedId (init_cursor s) (this s))
         (order_changes s) (clients s) (console s ++ init_lines s)%list
         (tl (faults s)) (randoms s)
         (timers s) (next_handle s) (clock s) (exit_code s) (fetching s)).
Proof.
  unfold initializeLastProcessedId, query_max_processed, database_query.
  unfold try_catch, bind, update_this, log, modify, init_lines, init_cursor.
  destruct s as [th t cs co f rs ti nh cl ex fe]; cbn.
  destruct f as [|[|] f]; cbn.
  - destruct (select_max_processed t) as [m|]; cbn;
      [destruct (Z.eqb_spec m 0); subst|]; reflexivity.
  - now rewrite <- app_assoc.
  - destruct (select_max_processed t) as [m|]; cbn;
      [destruct (Z.eqb_spec m 0); subst|]; reflexivity.
Qed.

(** [start()] on a stopped listener never throws: it initialises the
    cursor (0 when the query fails), creates one interval and sets the
    flag. *)
Lemma start_stopped (s : Sys) :
  isListening (this s) = false ->
  start s =
  (Returned tt,
   mkSys (mkListener true (Some (next_handle s)) (init_cursor s))
         (order_changes s) (clients s)
         (console s ++ init_lines s ++ [LogListenerStarted])%list
         (tl (faults s)) (randoms s)
         (next_handle s :: timers s) (S (next_handle s)) (clock s)
         (exit_code s) (fetching s)).
Proof.
  intros H. unfold start. unfold bind at 1. unfold get. rewrite H.
  unfold try_catch, bind at 1.
  rewrite initializeLastProcessedId_spec.
  unfold startPolling, setInterval, bind, update_this, log, modify. cbn.
  now rewrite <- app_assoc.
Qed.

Lemma advance_to_frame (rows : list ChangeRow) :
  forall l, isListening (advance_to rows l) = isListening l /\
            pollInterval (advance_to rows l) = pollInterval l.
Proof.
  induction rows as [|r rows IH]; intros l; simpl; auto.
  destruct (IH (set_lastProcessedId (id r) l)) as [A B]. now rewrite A, B.
Qed.

Lemma tick_this_frame (s : Sys) :
  isListening (this (tick JSON_parse s)) = isListening (this s) /\
  pollInterval (this (tick JSON_parse s)) = pollInterval (this s) /\
  timers (tick JSON_parse s) = timers s.
Proof.
  destruct (tick_cases s) as [f Hf E | H B E | lines B H E | pre post r f lines B Hf E];
    rewrite E; cbn; auto.
  - destruct (advance_to_frame (select_unprocessed (cursor s) (order_changes s)) (this s))
      as [A1 A2]. auto.
  - destruct (advance_to_frame pre (this s)) as [A1 A2]. auto.
Qed.

(** Calls awaited one after the other keep at most one interval alive. *)
Lemma calls_one_poll_loop (cs : list Call) :
  forall s, one_poll_loop s -> one_poll_loop (calls JSON_parse cs s).
Proof.
  induction cs as [|c cs IH]; intros s H; simpl; auto.
  apply IH. unfold one_poll_loop in *. destruct c; simpl.
  - destruct (isListening (this s)) eqn:L.
    + unfold exec. rewrite (start_listening s L). cbn. rewrite ?L. exact H.
    + unfold exec. rewrite (start_stopped s L). cbn.
      destruct (pollInterval (this s)); destruct H as [Ht Hl];
        [congruence | now rewrite Ht].
  - unfold exec, stop, bind, get, clearInterval, update_this, log, modify.
    destruct (pollInterval (this s)) as [h|] eqn:P; cbn; destruct H as [Ht _];
      rewrite Ht; cbn; rewrite ?Nat.eqb_refl, ?P; auto.
  - destruct (tick_this_frame s) as [A [B C]]. now rewrite A, B, C.
Qed.

(** C10 (as the code has it): calling [start()] on a listener that is
    already listening returns at once and changes nothing: no query is
    sent, no second interval is created, and [lastProcessedId],
    [pollInterval] and [isListening] keep their values.  So, over calls
    that are awaited one after the other, at most one interval is ever
    live. *)
Theorem start_while_listening_is_noop (s : Sys) :
  isListening (this s) = true ->
  start s = (Returned tt, s) /\
  this (exec start s) = this s /\
  timers (exec start s) = timers s /\
  (one_poll_loop s ->
   forall cs, one_poll_loop (calls JSON_parse cs s) /\
              (length (timers (calls JSON_parse cs s)) <= 1)%nat).
Proof.
  intros H. unfold exec. rewrite (start_listening s H).
  repeat split; auto.
  - now apply calls_one_poll_loop.
  - pose proof (calls_one_poll_loop cs s H0) as L. unfold one_poll_loop in L.
    destruct (pollInterval _); destruct L as [-> _]; simpl; lia.
Qed.

Lemma boot_stopped (s : Sys) :
  isListening (this s) = false ->
  boot s =
  (Returned tt,
   mkSys (mkListener true (Some (next_handle s)) (init_cursor s))
         (order_changes s) (clients s)
         (console s ++ init_lines s ++ [LogListenerStarted; LogListenerStarted])%list
         (tl (faults s)) (randoms s)
         (next_handle s :: timers s) (S (next_handle s)) (clock s)
         (exit_code s) (fetching s)).
Proof.
  intros L. unfold boot, try_catch, bind. cbv beta.
  rewrite (start_stopped s L). unfold log, modify. cbn.
  repeat rewrite <- app_assoc. reflexivity.
Qed.

(** C8 (as the code has it): when the max-delivered-id query fails at
    start-up, [initializeLastProcessedId] logs the error and falls back to
    cursor 0, so [start()] resolves: the process does not exit, the
    listener is listening and its interval is live, polling from 0. *)
Theorem startup_survives_failed_cursor_query (s : Sys) (f : list bool) :
  isListening (this s) = false ->
  exit_code s = None ->
  faults s = true :: f ->
  let s1 := react JSON_parse EvBoot s in
  exit_code s1 = None /\
  isListening (this s1) = true /\
  lastProcessedId (this s1) = 0 /\
  pollInterval (this s1) = Some (next_handle s) /\
  timers s1 = next_handle s :: timers s /\
  In ErrInitializing (console s1) /\
  react JSON_parse (EvTimer (next_handle s)) s1 = tick JSON_parse s1.
Proof.
  intros L X Hf s1.
  assert (E : s1 =
    mkSys (mkListener true (Some (next_handle s)) 0)
          (order_changes s) (clients s)
          (console s ++ [ErrDatabaseQuery; ErrInitializing] ++
                        [LogListenerStarted; LogListenerStarted])%list
          f (randoms s) (next_handle s :: timers s) (S (next_handle s))
          (clock s) None (fetching s)).
  { subst s1. unfold react. rewrite X. unfold handler, exec.
    rewrite (boot_stopped s L). unfold init_cursor, init_lines.
    rewrite Hf, X. reflexivity. }
  rewrite E. cbn. repeat split; try reflexivity.
  - apply in_or_app. right. simpl. auto.
  - unfold react, handler, bind, get, tick, exec. cbn.
    rewrite Nat.eqb_refl. reflexivity.
Qed.

(** ** Normalisation and message shapes *)

Lemma safeJSONParse_structured (v : JsValue) :
  typeof_object v = true -> truthy v = true ->
  safeJSONParse JSON_parse v = (v, []).
Proof.
  intros Ho Ht. unfold safeJSONParse. now rewrite Ht, Ho.
Qed.

Lemma safeJSONParse_text (text : string) (v : JsValue) :
  text <> EmptyString -> text <> "[object Object]" ->
  JSON_parse text = Some v ->
  safeJSONParse JSON_parse (JStr text) = (v, []).
Proof.
  intros He Hp Hv. unfold safeJSONParse. simpl.
  destruct (String.eqb_spec text EmptyString); [contradiction|].
  destruct (String.eqb_spec text "[object Object]"); [contradiction|].
  simpl. now rewrite Hv.
Qed.

Lemma safeJSONParse_parses_to (payload v : JsValue) :
  parses_to JSON_parse payload v -> safeJSONParse JSON_parse payload = (v, []).
Proof.
  intros [[Ho [Ht ->]] | [text [-> [He [Hp Hv]]]]].
  - now apply safeJSONParse_structured.
  - now apply safeJSONParse_text.
Qed.


Lemma changeData_of_data (r : ChangeRow) :
  data (fst (changeData_of JSON_parse r)) =
  Some (fst (safeJSONParse JSON_parse (payload_of r))).
Proof.
  unfold changeData_of, payload_of. destruct (operation_type r);
    repeat match goal with
           | |- context [safeJSONParse ?p ?v] => destruct (safeJSONParse p v)
           end; reflexivity.
Qed.

Lemma op_name_inj (a b : Operation) : op_name a = op_name b -> a = b.
Proof. destruct a, b; simpl; intros H; try reflexivity; discriminate. Qed.

Lemma changeData_of_type (r : ChangeRow) :
  type (fst (changeData_of JSON_parse r)) = op_name (operation_type r).
Proof.
  unfold changeData_of. destruct (operation_type r);
    repeat match goal with
           | |- context [safeJSONParse ?p ?v] => destruct (safeJSONParse p v)
           end; reflexivity.
Qed.

(** What [processChange] does to the sockets is the fan-out of the row's
    event, if it has one. *)
Lemma processChange_clients (r : ChangeRow) (s : Sys) :
  fst (processChange JSON_parse r s) = Returned tt /\
  clients (exec (processChange JSON_parse r) s) =
  match normalize JSON_parse r with
  | Some m => publish m (clients s)
  | None => clients s
  end.
Proof.
  destruct (processChange_spec r s) as [lines E]. unfold exec. rewrite E.
  split; reflexivity.
Qed.

Lemma changeData_of_frame (r : ChangeRow) :
  table (fst (changeData_of JSON_parse r)) = Some "orders" /\
  timestamp (fst (changeData_of JSON_parse r)) = changed_at r /\
  changeId (fst (changeData_of JSON_parse r)) = Some (id r).
Proof.
  unfold changeData_of. destruct (operation_type r);
    repeat match goal with
           | |- context [safeJSONParse ?p ?v] => destruct (safeJSONParse p v)
           end; auto.
Qed.

(** C5 (as the code has it): every message of the polling listener has
    the shape of the interface for its operation.  It carries the name of
    the operation as type, the row's timestamp, the row's id as changeId
    and a data field that is the parsed payload (the after-payload of an
    INSERT or UPDATE, the before-payload of a DELETE); an UPDATE message
    carries oldData and newData as well, with data equal to newData, an
    INSERT or DELETE message carries neither.  So a row with a parseable
    payload yields exactly that message, whatever its id; these are the
    messages [processChange] hands to the fan-out.  The binlog variant's
    UPDATE message carries oldData, newData and a timestamp, and no
    changeId. *)
Theorem change_messages_shape :
  (forall (r : ChangeRow) (m : Message),
      normalize JSON_parse r = Some m ->
      type m = op_name (operation_type r) /\ table m = Some "orders" /\
      timestamp m = changed_at r /\ changeId m = Some (id r) /\
      data m = Some (fst (safeJSONParse JSON_parse (payload_of r))) /\
      data_truthy m = true /\
      match operation_type r with
      | UPDATE =>
          oldData m = Some (fst (safeJSONParse JSON_parse (old_data r))) /\
          newData m = data m
      | _ => oldData m = None /\ newData m = None
      end) /\
  (forall (r : ChangeRow) (v : JsValue),
      operation_type r <> UPDATE ->
      parses_to JSON_parse (payload_of r) v -> truthy v = true ->
      normalize JSON_parse r =
      Some (mkMessage (op_name (operation_type r)) (Some "orders") (changed_at r)
                      (Some (id r)) (Some v) None None)) /\
  (forall (r : ChangeRow) (o n : JsValue),
      operation_type r = UPDATE ->
      parses_to JSON_parse (old_data r) o ->
      parses_to JSON_parse (new_data r) n -> truthy n = true ->
      normalize JSON_parse r =
      Some (mkMessage "UPDATE" (Some "orders") (changed_at r) (Some (id r))
                      (Some n) (Some o) (Some n))) /\
  (forall (r : ChangeRow) (s : Sys),
      clients (exec (processChange JSON_parse r) s) =
      match normalize JSON_parse r with
      | Some m => publish m (clients s)
      | None => clients s
      end) /\
  (forall (ev : BinlogListener.BinlogEvent) (row : JsValue) (rest : list JsValue)
          (s : Sys),
      BinlogListener.tableName ev = "orders" ->
      BinlogListener.eventName ev = "updaterows" ->
      BinlogListener.rows ev = row :: rest -> row <> JNull ->
      exists m,
        BinlogListener.handleBinlogEvent ev s = BinlogListener.broadcastChange m s /\
        type m = "UPDATE" /\
        oldData m = Some (BinlogListener.formatBinlogData (get_prop row "before")) /\
        newData m = Some (BinlogListener.formatBinlogData (get_prop row "after")) /\
        timestamp m = clock s /\
        changeId m = None).
Proof.
  split; [|split; [|split; [|split]]].
  - intros r m Hn. unfold normalize in Hn.
    destruct (data_truthy _) eqn:T; [|discriminate]. injection Hn as <-.
    destruct (changeData_of_frame r) as [F1 [F2 F3]].
    repeat split; auto using changeData_of_type, changeData_of_data.
    unfold changeData_of. destruct (operation_type r);
      repeat match goal with
             | |- context [safeJSONParse ?p ?v] => destruct (safeJSONParse p v)
             end; simpl; auto.
  - intros r v Hop Hp Ht. unfold normalize, data_truthy, changeData_of.
    unfold payload_of in Hp.
    destruct (operation_type r); [|congruence|];
      rewrite (safeJSONParse_parses_to _ _ Hp); simpl; now rewrite Ht.
  - intros r o n Hop Ho Hn Ht. unfold normalize, data_truthy, changeData_of.
    rewrite Hop, (safeJSONParse_parses_to _ _ Ho), (safeJSONParse_parses_to _ _ Hn).
    simpl. now rewrite Ht.
  - intros r s. apply processChange_clients.
  - intros ev row rest s Ht He Hr Hn.
    assert (is_null row = false) as N by (destruct row; [congruence|..]; reflexivity).
    unfold BinlogListener.handleBinlogEvent, BinlogListener.row0_prop.
    rewrite Ht, He, Hr. simpl. rewrite N. unfold bind, ret, get. simpl.
    eexists. split; [reflexivity|]. simpl. auto.
Qed.

(** ** The fan-out *)

Lemma forEach_send_ok (m : Message) (cs : list Client) :
  all_sends_succeed cs ->
  forall n, exists k,
    forEach_send m cs n = (map (send_open m) cs, Returned k).
Proof.
  unfold all_sends_succeed, send_open.
  induction cs as [|c cs IH]; intros H n; simpl in *.
  - eauto.
  - apply andb_true_iff in H. destruct H as [Hc H].
    destruct (readyState c =? 1)%nat; simpl in *.
    + apply negb_true_iff in Hc. rewrite Hc.
      destruct (IH H (S n)) as [k E]. rewrite E. eauto.
    + destruct (IH H n) as [k E]. rewrite E. eauto.
Qed.

Lemma forEach_send_throws (m : Message) (pre post : list Client) (c : Client) :
  all_sends_succeed pre -> readyState c = 1%nat -> send_throws c = true ->
  forall n,
    forEach_send m (pre ++ c :: post) n =
    (map (send_open m) pre ++ c :: post, Thrown SendError)%list.
Proof.
  unfold all_sends_succeed, send_open. intros H Hr Ht.
  induction pre as [|x pre IH]; intros n; simpl in *.
  - now rewrite Hr, Ht.
  - apply andb_true_iff in H. destruct H as [Hx H].
    destruct (readyState x =? 1)%nat; simpl in *.
    + apply negb_true_iff in Hx. rewrite Hx. now rewrite (IH H).
    + now rewrite (IH H).
Qed.

(** On a server object whose sockets can throw from [send], the fan-out
    sends to the open sockets in set order and stops at the first [send]
    that throws.  The sockets before it have the event once, the throwing
    socket and those after it are left as they were.  Both listener
    variants throw the error out of [broadcastChange]; [processChange]
    swallows it. *)
Theorem publish_stops_at_first_failed_send
        (m : Message) (pre post : list Client) (c : Client) (s : Sys) :
  clients s = (pre ++ c :: post)%list ->
  all_sends_succeed pre -> readyState c = 1%nat -> send_throws c = true ->
  let left_behind := (map (send_open m) pre ++ c :: post)%list in
  fst (broadcastChange m s) = Thrown SendError /\
  clients (exec (broadcastChange m) s) = left_behind /\
  fst (BinlogListener.broadcastChange m s) = Thrown SendError /\
  clients (exec (BinlogListener.broadcastChange m) s) = left_behind /\
  (forall r, normalize JSON_parse r = Some m ->
             fst (processChange JSON_parse r s) = Returned tt /\
             clients (exec (processChange JSON_parse r) s) = left_behind).
Proof.
  intros Hc Hp Hr Ht left_behind.
  pose proof (forEach_send_throws m pre post c Hp Hr Ht 0%nat) as E.
  assert (P : publish m (clients s) = left_behind).
  { unfold publish. now rewrite Hc, E. }
  assert (Q : forall r, normalize JSON_parse r = Some m ->
             fst (processChange JSON_parse r s) = Returned tt /\
             clients (exec (processChange JSON_parse r) s) = left_behind).
  { intros r Hn. destruct (processChange_clients r s) as [R ->].
    now rewrite Hn. }
  unfold broadcastChange, BinlogListener.broadcastChange, forEach_clients, exec, bind.
  rewrite Hc, E. simpl. repeat split; try reflexivity; apply Q; assumption.
Qed.


(** ** New connections and the snapshot *)

Lemma find_map_send_open (c : nat) (m : Message) (cs : list Client) :
  find (fun y => (conn y =? c)%nat) (map (send_open m) cs) =
  option_map (send_open m) (find (fun y => (conn y =? c)%nat) cs).
Proof.
  induction cs as [|x cs IH]; simpl; auto.
  assert (E : conn (send_open m x) = conn x).
  { unfold send_open. destruct (readyState x =? 1)%nat; reflexivity. }
  rewrite E. destruct (conn x =? c)%nat; auto.
Qed.

Lemma all_sends_succeed_map (m : Message) (cs : list Client) :
  all_sends_succeed cs -> all_sends_succeed (map (send_open m) cs).
Proof.
  unfold all_sends_succeed.
  induction cs as [|x cs IH]; simpl; auto.
  intros H. apply andb_true_iff in H. destruct H as [Hx H].
  rewrite (IH H), andb_true_r.
  unfold send_open. destruct (readyState x =? 1)%nat eqn:E; simpl;
    now rewrite E.
Qed.

Lemma broadcastChange_live (c : nat) (m : Message) (s : Sys) :
  all_sends_succeed (clients s) -> live c s ->
  let s' := exec (broadcastChange m) s in
  all_sends_succeed (clients s') /\ live c s' /\
  inbox c s' = (inbox c s ++ [m])%list /\
  fetching s' = fetching s /\ clock s' = clock s.
Proof.
  intros H [x [Hf [Hr Ht]]] s'.
  destruct (forEach_send_ok m (clients s) H 0%nat) as [k E].
  assert (Ec : clients s' = map (send_open m) (clients s)).
  { subst s'. unfold broadcastChange, forEach_clients, exec, bind. now rewrite E. }
  assert (Ex : send_open m x = deliver m x).
  { unfold send_open. now rewrite Hr. }
  repeat split.
  - rewrite Ec. now apply all_sends_succeed_map.
  - exists (deliver m x). rewrite Ec, find_map_send_open, Hf. simpl.
    rewrite Ex. auto.
  - unfold inbox. rewrite Ec, find_map_send_open, Hf. simpl. now rewrite Ex.
  - subst s'. unfold broadcastChange, forEach_clients, exec, bind. now rewrite E.
  - subst s'. unfold broadcastChange, forEach_clients, exec, bind. now rewrite E.
Qed.

Lemma publish_all_live (c : nat) (ms : list Message) :
  forall s,
    all_sends_succeed (clients s) -> live c s ->
    let s' := publish_all ms s in
    all_sends_succeed (clients s') /\ live c s' /\
    inbox c s' = (inbox c s ++ ms)%list /\
    fetching s' = fetching s /\ clock s' = clock s.
Proof.
  induction ms as [|m ms IH]; intros s H L; simpl.
  - rewrite app_nil_r. auto.
  - destruct (broadcastChange_live c m s H L) as [H1 [L1 [I1 [F1 C1]]]].
    destruct (IH _ H1 L1) as [H2 [L2 [I2 [F2 C2]]]].
    repeat split; auto.
    + rewrite I2, I1, <- app_assoc. reflexivity.
    + congruence.
    + congruence.
Qed.

Lemma find_app_fresh (c : nat) (cs : list Client) (x : Client) :
  (forall y, In y cs -> conn y <> c) -> conn x = c ->
  find (fun y => (conn y =? c)%nat) (cs ++ [x]) = Some x.
Proof.
  intros H Hx. induction cs as [|y cs IH]; simpl.
  - now rewrite Hx, Nat.eqb_refl.
  - destruct (Nat.eqb_spec (conn y) c) as [E|_].
    + exfalso. apply (H y); simpl; auto.
    + apply IH. intros z Hz. apply H. simpl; auto.
Qed.

Lemma ws_send_live (c : nat) (m : Message) (s : Sys) :
  live c s ->
  fst (ws_send c m s) = Returned tt /\
  inbox c (exec (ws_send c m) s) = (inbox c s ++ [m])%list.
Proof.
  intros [x [Hf [Hr Ht]]]. unfold ws_send, exec, inbox. rewrite Hf, Hr, Ht. simpl.
  split; auto. clear Hr Ht.
  induction (clients s) as [|y cs IH]; simpl in *; [discriminate|].
  destruct (conn y =? c)%nat eqn:E; simpl.
  - rewrite E. now injection Hf as ->.
  - rewrite E. auto.
Qed.

(** C3 (as the code has it): a new socket is in the live set before the
    [connection] handler runs, so before the snapshot fetch begins; every
    event published from then on is handed to it; when the fetch resolves
    the whole collection is sent as one INITIAL_DATA message, which comes
    after the events published while the fetch was in flight. *)
Theorem snapshot_follows_registration
        (c : nat) (ms : list Message) (orders : list JsValue) (s : Sys) :
  (forall x, In x (clients s) -> conn x <> c) ->
  ~ In c (fetching s) ->
  all_sends_succeed (clients s) ->
  let s1 := exec (track_client c false) s in
  let s2 := exec (connection_handler c) s1 in
  let s3 := publish_all ms s2 in
  let s4 := exec (on_orders_settled c (Some orders)) s3 in
  on_connection c false s = connection_handler c s1 /\
  live c s1 /\ fetching s1 = fetching s /\
  fetching s2 = (fetching s ++ [c])%list /\
  inbox c s3 = ms /\
  inbox c s4 = (ms ++ [initial_data orders (clock s)])%list /\
  ~ In c (fetching s4).
Proof.
  intros Hnew Hnf Hok s1 s2 s3 s4.
  assert (L1 : live c s1).
  { exists (mkClient c 1 false []). split; [|auto].
    subst s1. unfold track_client, modify, exec. simpl.
    now apply find_app_fresh. }
  assert (I1 : inbox c s1 = []).
  { unfold inbox. subst s1. unfold track_client, modify, exec. simpl.
    now rewrite find_app_fresh. }
  assert (A1 : all_sends_succeed (clients s1)).
  { subst s1. unfold track_client, modify, exec, all_sends_succeed in *. simpl.
    rewrite forallb_app, Hok. reflexivity. }
  assert (E2 : clients s2 = clients s1 /\ fetching s2 = (fetching s ++ [c])%list /\
               clock s2 = clock s).
  { subst s2 s1. unfold connection_handler, getAllOrders_begin, track_client.
    unfold exec, bind, log, modify. simpl. auto. }
  destruct E2 as [C2 [F2 K2]].
  assert (L2 : live c s2).
  { destruct L1 as [x Hx]. exists x. now rewrite C2. }
  assert (A2 : all_sends_succeed (clients s2)) by now rewrite C2.
  destruct (publish_all_live c ms s2 A2 L2) as [A3 [L3 [I3 [F3 K3]]]].
  fold s3 in A3, L3, I3, F3, K3.
  assert (I2 : inbox c s2 = []).
  { unfold inbox. rewrite C2. exact I1. }
  rewrite I2 in I3. simpl in I3.
  split; [reflexivity|]. split; [exact L1|]. split; [reflexivity|].
  split; [exact F2|]. split; [exact I3|].
  assert (Hin : existsb (Nat.eqb c) (fetching s3) = true).
  { rewrite F3, F2. apply existsb_exists. exists c. split.
    - apply in_or_app. right. simpl. auto.
    - apply Nat.eqb_refl. }
  assert (E4 : exists s5,
             ws_send c (initial_data orders (clock s3))
               (set_fetching (filter (fun x => negb (x =? c)%nat) (fetching s3)) s3)
             = (Returned tt, s5) /\ s4 = s5).
  { subst s4. unfold on_orders_settled, exec, bind, get, modify.
    unfold orders_callbacks, try_catch, bind, get. rewrite Hin.
    cbn [clock set_fetching].
    match goal with
    | |- context [ws_send c ?m ?s0] =>
        assert (L0 : live c s0) by (destruct L3 as [x Hx]; exists x; exact Hx);
        destruct (ws_send_live c m s0 L0) as [R0 _];
        destruct (ws_send c m s0) as [[[]|e] s5] eqn:W; [|discriminate]
    end.
    exists s5. split; reflexivity. }
  destruct E4 as [s5 [W ->]].
  match type of W with
  | ws_send c ?m ?s0 = _ =>
      assert (L0 : live c s0) by (destruct L3 as [x Hx]; exists x; exact Hx);
      destruct (ws_send_live c m s0 L0) as [_ I0];
      unfold exec in I0; rewrite W in I0; simpl in I0
  end.
  split.
  - rewrite I0.
    match goal with
    | |- context [inbox c (set_fetching ?f s3)] =>
        change (inbox c (set_fetching f s3)) with (inbox c s3)
    end.
    now rewrite I3, K3, K2.
  - assert (F5 : fetching s5 = filter (fun x => negb (x =? c)%nat) (fetching s3)).
    { revert W. unfold ws_send. simpl.
      destruct (find _ _) as [y|]; [|intros W; now inversion W].
      destruct (readyState y =? 0)%nat; [discriminate|].
      destruct (readyState y =? 1)%nat; [|intros W; now inversion W].
      destruct (send_throws y); [discriminate|]. intros W. now inversion W. }
    rewrite F5. intros Hc. apply filter_In in Hc. destruct Hc as [_ Hc].
    now rewrite Nat.eqb_refl in Hc.
Qed.

(** ** A connection that fails *)







(** ** The cursor across ticks *)

(** C7 (as the code has it): across any number of polls the cursor never
    decreases, because a poll only assigns the ids of rows it fetched above
    the cursor.  The loop itself has no check: it assigns the id of every
    row it is given, so after a batch the cursor is the id of its last
    row. *)
Theorem cursor_never_decreases_across_ticks :
  (forall (s : Sys) (n : nat), cursor s <= cursor (ticks JSON_parse n s)) /\
  (forall (rows : list ChangeRow) (s : Sys),
      healthy (length rows) s ->
      cursor (exec (process_batch JSON_parse rows) s) =
      last (map id rows) (cursor s)).
Proof.
  split.
  - intros s n. apply (ticks_grows n s).
  - intros rows s H. destruct (process_batch_healthy rows s H) as [lines E].
    unfold exec. rewrite E. unfold cursor. simpl. apply advance_to_cursor.
Qed.

(** C1 (as the code has it): when the store rejects the [UPDATE] of a row
    whose event has just been published, the cursor is already on that row:
    the rest of the batch is abandoned, the row stays unprocessed in the
    table, and over polls that run one after the other, the listener not
    being restarted, no later poll fetches it or publishes its event
    again. *)
Theorem failed_mark_leaves_record_behind
        (s : Sys) (pre post : list ChangeRow) (r : ChangeRow) (f : list bool) :
  NoDup (map id (order_changes s)) ->
  select_unprocessed (cursor s) (order_changes s) = (pre ++ r :: post)%list ->
  faults s = (false :: repeat false (length pre) ++ true :: f)%list ->
  let s' := tick JSON_parse s in
  clients s' = publish_rows JSON_parse (pre ++ [r]) (clients s) /\
  cursor s' = id r /\
  In r (order_changes s') /\ processed r = false /\
  forall n,
    let s'' := ticks JSON_parse n s' in
    id r <= cursor s'' /\
    In r (order_changes s'') /\
    ~ In r (select_unprocessed (cursor s'') (order_changes s'')) /\
    clients_step (id r) (clients s') (clients s'').
Proof.
  intros Hk B Hf s'.
  destruct (tick_mark_fails s pre post r f B Hf) as [lines E].
  assert (Hr : In r (order_changes s) /\ cursor s < id r /\ processed r = false).
  { apply select_unprocessed_In. rewrite B. apply in_or_app. right. simpl. auto. }
  destruct Hr as [Hin [Hc Hp]].
  assert (Hcur : cursor s' = id r).
  { subst s'. rewrite E. reflexivity. }
  assert (Hin' : In r (order_changes s')).
  { subst s'. rewrite E. simpl. apply mark_all_other; auto.
    pose proof (select_unprocessed_ids_NoDup (cursor s) _ Hk) as N.
    rewrite B, map_app in N. simpl in N. now apply NoDup_app_not_in in N. }
  split; [subst s'; rewrite E; reflexivity|].
  split; [exact Hcur|]. split; [exact Hin'|]. split; [exact Hp|].
  intros n s''. destruct (ticks_grows n s') as [G1 [[G2 _] G3]].
  fold s'' in G1, G2, G3. rewrite Hcur in *.
  repeat split; auto.
  - apply G2; auto. lia.
  - intros Hs. apply select_unprocessed_In in Hs. lia.
Qed.

(** ** Poison records *)


Lemma publish_rows_app (a b : list ChangeRow) (cs : list Client) :
  publish_rows JSON_parse (a ++ b) cs =
  publish_rows JSON_parse b (publish_rows JSON_parse a cs).
Proof. apply fold_left_app. Qed.

Lemma publish_rows_cons (r : ChangeRow) (l : list ChangeRow) (cs : list Client) :
  publish_rows JSON_parse (r :: l) cs =
  publish_rows JSON_parse l (publish_row JSON_parse r cs).
Proof. reflexivity. Qed.



(** ** The retention sweep *)

Lemma lt_tenth_spec (r : Q) : lt_tenth r = true <-> (r < 1 # 10)%Q.
Proof.
  unfold lt_tenth. rewrite negb_true_iff. split.
  - intros H. apply Qnot_le_lt. intros Hle.
    apply Qle_bool_iff in Hle. congruence.
  - intros H. destruct (Qle_bool (1 # 10) r) eqn:E; auto.
    apply Qle_bool_iff in E. exfalso. eapply Qlt_not_le; eauto.
Qed.

Lemma delete_old_incl (t : list ChangeRow) (x : ChangeRow) :
  In x (delete_old t) -> In x t.
Proof.
  unfold delete_old. destruct (cleanup_threshold t); auto.
  intros H. now apply filter_In in H.
Qed.

Lemma delete_old_keeps_unprocessed (t : list ChangeRow) (x : ChangeRow) :
  In x t -> processed x = false -> In x (delete_old t).
Proof.
  intros Hx Hp. unfold delete_old. destruct (cleanup_threshold t); auto.
  apply filter_In. now rewrite Hp.
Qed.

Lemma StronglySorted_app_inv {A} (R : A -> A -> Prop) (l1 l2 : list A) :
  StronglySorted R (l1 ++ l2) ->
  StronglySorted R l1 /\ StronglySorted R l2 /\
  (forall a b, In a l1 -> In b l2 -> R a b).
Proof.
  induction l1 as [|x l1 IH]; simpl; intros H.
  - repeat split; auto; [constructor | intros a b []].
  - inversion H as [|? ? Hs Hall]; subst.
    destruct (IH Hs) as [S1 [S2 Hab]]. rewrite Forall_forall in Hall.
    repeat split; auto.
    + constructor; auto. rewrite Forall_forall. intros y Hy.
      apply Hall, in_or_app. now left.
    + intros a b [<-|Ha] Hb; [apply Hall, in_or_app; now right | auto].
Qed.

(** A row among the first [n] of the processed rows, most recent first,
    has an id at least that of the row at offset [n]. *)
Lemma processed_desc_offset (t : list ChangeRow) (n : nat) (x y : ChangeRow) :
  In x (firstn n (processed_desc t)) ->
  nth_error (processed_desc t) n = Some y ->
  id y <= id x.
Proof.
  unfold processed_desc. intros Hx Hy.
  pose proof (order_by_id_sorted (filter processed t)) as S.
  set (l := order_by_id (filter processed t)) in *.
  apply nth_error_split in Hy. destruct Hy as [l1 [l2 [E Hn]]].
  assert (Hx1 : In x l1).
  { rewrite E in Hx. rewrite firstn_app, Hn, Nat.sub_diag in Hx.
    rewrite firstn_all2 in Hx by lia. simpl in Hx. now rewrite app_nil_r in Hx. }
  assert (El : l = (rev l2 ++ y :: rev l1)%list).
  { rewrite <- (rev_involutive l), E, rev_app_distr. simpl.
    now rewrite <- app_assoc. }
  rewrite El in S. apply StronglySorted_app_inv in S.
  destruct S as [_ [S2 _]]. inversion S2 as [|? ? _ Hall]; subst.
  rewrite Forall_forall in Hall. apply Hall. now apply in_rev in Hx1.
Qed.

(** The sweep keeps the 1000 most recent processed rows. *)
Lemma delete_old_keeps_recent (t : list ChangeRow) (x : ChangeRow) :
  In x (firstn 1000 (processed_desc t)) -> In x (delete_old t).
Proof.
  intros Hx.
  assert (Hin : In x t /\ processed x = true).
  { apply In_firstn in Hx. unfold processed_desc in Hx.
    apply in_rev, order_by_id_In, filter_In in Hx. exact Hx. }
  destruct Hin as [Hin Hp].
  unfold delete_old, cleanup_threshold. fold (processed_desc t).
  destruct (nth_error (processed_desc t) 1000) as [y|] eqn:E; simpl; auto.
  apply filter_In. split; auto.
  pose proof (processed_desc_offset t 1000 x y Hx E) as Hle.
  rewrite Hp. simpl. apply negb_true_iff, Z.ltb_ge. exact Hle.
Qed.

Lemma cleanupOldChanges_returns (s : Sys) : fst (cleanupOldChanges s) = Returned tt.
Proof. apply cleanupOldChanges_frame. Qed.

(** ** Delivery does not depend on the processed rows *)

Lemma filter_unprocessed_after (c : Z) (t : list ChangeRow) :
  filter (unprocessed_after c) t =
  filter (fun r => c <? id r) (unprocessed_rows t).
Proof.
  unfold unprocessed_rows, unprocessed_after.
  induction t as [|r t IH]; simpl; auto.
  destruct (processed r); simpl.
  - rewrite andb_false_r. exact IH.
  - rewrite andb_true_r. destruct (c <? id r); simpl; now rewrite IH.
Qed.

Lemma select_unprocessed_view (c : Z) (t t' : list ChangeRow) :
  unprocessed_rows t = unprocessed_rows t' ->
  select_unprocessed c t = select_unprocessed c t'.
Proof.
  intros H. unfold select_unprocessed. now rewrite !filter_unprocessed_after, H.
Qed.

Lemma unprocessed_update (i : Z) (t : list ChangeRow) :
  unprocessed_rows (update_processed i t) =
  filter (fun r => negb (id r =? i)) (unprocessed_rows t).
Proof.
  unfold unprocessed_rows, update_processed.
  induction t as [|r t IH]; simpl; auto.
  destruct (id r =? i) eqn:E; simpl.
  - destruct (processed r); simpl; rewrite ?E; simpl; exact IH.
  - destruct (processed r); simpl; rewrite ?E; simpl; now rewrite IH.
Qed.

Lemma unprocessed_mark_all (batch : list ChangeRow) :
  forall t t', unprocessed_rows t = unprocessed_rows t' ->
               unprocessed_rows (mark_all batch t) =
               unprocessed_rows (mark_all batch t').
Proof.
  induction batch as [|b batch IH]; intros t t' H; simpl; auto.
  apply IH. now rewrite !unprocessed_update, H.
Qed.

Lemma unprocessed_delete_old (t : list ChangeRow) :
  unprocessed_rows (delete_old t) = unprocessed_rows t.
Proof.
  unfold delete_old. destruct (cleanup_threshold t) as [th|]; auto.
  unfold unprocessed_rows. induction t as [|r t IH]; simpl; auto.
  destruct (processed r) eqn:P; simpl.
  - destruct (id r <? th); simpl; rewrite ?P; simpl; exact IH.
  - rewrite P. simpl. now rewrite IH.
Qed.

Lemma unprocessed_sweep (r : Q) (f : list bool) (t : list ChangeRow) :
  unprocessed_rows (fst (sweep r f t)) = unprocessed_rows t.
Proof.
  unfold sweep. destruct (lt_tenth r); simpl; auto.
  destruct (hd false f); auto using unprocessed_delete_old.
Qed.

Lemma sweep_faults (r : Q) (f : list bool) (t : list ChangeRow) :
  snd (sweep r f t) = if lt_tenth r then tl f else f.
Proof. unfold sweep. destruct (lt_tenth r); reflexivity. Qed.

(** A poll of two processes that agree on the delivery state leaves them
    in agreement. *)
Lemma tick_delivery_state (s1 s2 : Sys) :
  delivery_state s1 = delivery_state s2 ->
  delivery_state (tick JSON_parse s1) = delivery_state (tick JSON_parse s2).
Proof.
  unfold delivery_state. intros H. injection H as Ht Hc Hf Hr Hu.
  assert (Hb : select_unprocessed (cursor s1) (order_changes s1) =
               select_unprocessed (cursor s2) (order_changes s2)).
  { unfold cursor. rewrite Ht. now apply select_unprocessed_view. }
  destruct (tick_cases s1) as [f F E | H B E | lines B H E | pre post r f lines B F E];
    rewrite E; cbn [this clients faults randoms order_changes].
  - rewrite (tick_fetch_fails s2 f) by congruence.
    cbn [this clients faults randoms order_changes]. congruence.
  - rewrite (tick_idle s2); [| unfold healthy in *; congruence | congruence].
    cbn [this clients faults randoms order_changes]. congruence.
  - destruct (tick_healthy s2) as [l2 E2];
      [congruence | unfold healthy in *; congruence |].
    rewrite E2. cbn [this clients faults randoms order_changes].
    rewrite !unprocessed_sweep, !sweep_faults, <- Hb, Ht, Hc, Hf, Hr.
    now rewrite (unprocessed_mark_all _ _ _ Hu).
  - destruct (tick_mark_fails s2 pre post r f) as [l2 E2]; [congruence | congruence |].
    rewrite E2. cbn [this clients faults randoms order_changes].
    rewrite Ht, Hc, Hr. now rewrite (unprocessed_mark_all _ _ _ Hu).
Qed.

Lemma ticks_delivery_state (n : nat) :
  forall s1 s2,
    delivery_state s1 = delivery_state s2 ->
    delivery_state (ticks JSON_parse n s1) = delivery_state (ticks JSON_parse n s2).
Proof.
  induction n as [|n IH]; intros s1 s2 H; simpl; auto.
  apply IH. now apply tick_delivery_state.
Qed.

Lemma healthy_repeat (n : nat) (f : list bool) (s : Sys) :
  healthy n (set_faults (repeat false n ++ f)%list s).
Proof.
  unfold healthy. simpl. rewrite firstn_app, repeat_length, Nat.sub_diag.
  rewrite firstn_all2 by (rewrite repeat_length; auto).
  simpl. rewrite app_nil_r. induction n; simpl; auto.
Qed.

Lemma skipn_repeat_app {A} (n : nat) (a : A) (f : list A) :
  skipn n (repeat a n ++ f) = f.
Proof.
  rewrite skipn_app, repeat_length, Nat.sub_diag.
  rewrite skipn_all2 by (rewrite repeat_length; auto). reflexivity.
Qed.

Lemma insert_by_id_length (r : ChangeRow) (l : list ChangeRow) :
  length (insert_by_id r l) = S (length l).
Proof.
  induction l as [|x l IH]; cbn; [reflexivity|].
  destruct (id r <=? id x); cbn; [reflexivity | now rewrite IH].
Qed.

Lemma order_by_id_length (l : list ChangeRow) :
  length (order_by_id l) = length l.
Proof.
  induction l as [|x l IH]; cbn; [reflexivity|].
  unfold order_by_id in IH. now rewrite insert_by_id_length, IH.
Qed.

(** The [DELETE] has a row to compare with as soon as more than 1000 rows
    are processed. *)
Lemma cleanup_threshold_exists (t : list ChangeRow) :
  (1000 < length (filter processed t))%nat ->
  exists y, In y t /\ processed y = true /\ cleanup_threshold t = Some (id y).
Proof.
  intros H. unfold cleanup_threshold.
  destruct (nth_error (rev (order_by_id (filter processed t))) 1000) as [y|] eqn:E.
  - exists y. apply nth_error_In in E. apply in_rev, order_by_id_In, filter_In in E.
    destruct E as [E1 E2]. auto.
  - apply nth_error_None in E. rewrite length_rev, order_by_id_length in E. lia.
Qed.

(** What the [DELETE] leaves, exactly. *)
Lemma delete_old_spec (t : list ChangeRow) (x : ChangeRow) :
  In x (delete_old t) <->
  In x t /\
  (processed x = false \/ forall th, cleanup_threshold t = Some th -> th <= id x).
Proof.
  unfold delete_old. destruct (cleanup_threshold t) as [th|].
  - rewrite filter_In. split; intros [Hx H]; (split; [exact Hx|]).
    + destruct (processed x); [|now left]. right. intros th' [= <-].
      simpl in H. apply negb_true_iff, Z.ltb_ge in H. exact H.
    + destruct H as [-> | H]; [reflexivity|].
      specialize (H th eq_refl). apply negb_true_iff.
      apply andb_false_iff. right. now apply Z.ltb_ge.
  - split; [intros H; split; [exact H | right; discriminate] | tauto].
Qed.

(** A poll that fetched nothing, because the store rejected the fetch or
    because nothing is pending, makes no draw and leaves the table. *)
Lemma tick_without_batch (s : Sys) :
  select_unprocessed (cursor s) (order_changes s) = [] ->
  randoms (tick JSON_parse s) = randoms s /\
  order_changes (tick JSON_parse s) = order_changes s.
Proof.
  intros B. destruct (faults s) as [|[] f] eqn:F.
  - rewrite tick_idle; [auto | unfold healthy; now rewrite F | exact B].
  - rewrite (tick_fetch_fails s f F). auto.
  - rewrite tick_idle; [auto | unfold healthy; now rewrite F | exact B].
Qed.

(** C9 (as the code has it): the sweep is attempted at the end of a poll
    that completed a non-empty batch, behind one draw [Math.random() <
    0.1]; a poll that fetched nothing makes no draw and never sweeps.
    Where the store runs the [DELETE], it removes the processed rows whose
    id is below that of the 1001st most recent processed row, and nothing
    else: unprocessed rows and the 1000 most recent processed rows stay.
    [cleanupOldChanges] swallows a rejected [DELETE]; and whether the
    [DELETE] ran or was rejected, the listener, the sockets and the rows
    still to deliver are the same after that poll and after every later
    one. *)
Theorem retention_sweep_is_best_effort :
  (forall s : Sys,
      select_unprocessed (cursor s) (order_changes s) = [] ->
      randoms (tick JSON_parse s) = randoms s /\
      order_changes (tick JSON_parse s) = order_changes s) /\
  (forall s : Sys,
      let batch := select_unprocessed (cursor s) (order_changes s) in
      let marked := mark_all batch (order_changes s) in
      batch <> [] -> healthy (S (length batch)) s ->
      randoms (tick JSON_parse s) = tl (randoms s) /\
      order_changes (tick JSON_parse s) =
      if lt_tenth (hd 0%Q (randoms s)) then
        if hd false (skipn (S (length batch)) (faults s)) then marked
        else delete_old marked
      else marked) /\
  (forall (t : list ChangeRow) (x : ChangeRow),
      (In x (delete_old t) <->
       In x t /\
       (processed x = false \/
        forall th, cleanup_threshold t = Some th -> th <= id x)) /\
      (In x (firstn 1000 (processed_desc t)) -> In x (delete_old t))) /\
  (forall t : list ChangeRow,
      (1000 < length (filter processed t))%nat ->
      exists y, In y t /\ processed y = true /\
                cleanup_threshold t = Some (id y)) /\
  (forall s : Sys, fst (cleanupOldChanges s) = Returned tt) /\
  (forall (s : Sys) (f : list bool),
      let batch := select_unprocessed (cursor s) (order_changes s) in
      let marked := mark_all batch (order_changes s) in
      let swept := set_faults (repeat false (S (length batch)) ++ false :: f)%list s in
      let rejected := set_faults (repeat false (S (length batch)) ++ true :: f)%list s in
      batch <> [] -> lt_tenth (hd 0%Q (randoms s)) = true ->
      order_changes (tick JSON_parse swept) = delete_old marked /\
      order_changes (tick JSON_parse rejected) = marked /\
      forall n,
        delivery_state (ticks JSON_parse n (tick JSON_parse swept)) =
        delivery_state (ticks JSON_parse n (tick JSON_parse rejected))).
Proof.
  split; [exact tick_without_batch|]. split.
  { intros s batch marked Hb H. destruct (tick_healthy s Hb H) as [lines E].
    rewrite E. unfold sweep. fold batch. fold marked. simpl.
    split; [reflexivity|].
    destruct (lt_tenth _); [destruct (hd false _)|]; reflexivity. }
  split.
  { intros t x. split; [apply delete_old_spec | apply delete_old_keeps_recent]. }
  split; [exact cleanup_threshold_exists|].
  split; [exact cleanupOldChanges_returns|].
  intros s f batch marked swept rejected Hb Hr.
  assert (B1 : select_unprocessed (cursor swept) (order_changes swept) = batch)
    by reflexivity.
  assert (B2 : select_unprocessed (cursor rejected) (order_changes rejected) = batch)
    by reflexivity.
  destruct (tick_healthy swept) as [l1 E1];
    [now rewrite B1 | rewrite B1; apply healthy_repeat |].
  destruct (tick_healthy rejected) as [l2 E2];
    [now rewrite B2 | rewrite B2; apply healthy_repeat |].
  rewrite B1 in E1. rewrite B2 in E2.
  assert (S1 : sweep (hd 0%Q (randoms swept))
                     (skipn (S (length batch)) (faults swept))
                     (mark_all batch (order_changes swept)) =
               (delete_old marked, f)).
  { unfold swept at 2. cbn [faults set_faults].
    rewrite skipn_repeat_app. unfold sweep.
    change (randoms swept) with (randoms s). now rewrite Hr. }
  assert (S2 : sweep (hd 0%Q (randoms rejected))
                     (skipn (S (length batch)) (faults rejected))
                     (mark_all batch (order_changes rejected)) =
               (marked, f)).
  { unfold rejected at 2. cbn [faults set_faults].
    rewrite skipn_repeat_app. unfold sweep.
    change (randoms rejected) with (randoms s). now rewrite Hr. }
  rewrite S1 in E1. rewrite S2 in E2.
  split; [now rewrite E1|]. split; [now rewrite E2|].
  intros n. apply ticks_delivery_state. rewrite E1, E2.
  unfold delivery_state. cbn [this clients faults randoms order_changes fst snd].
  now rewrite unprocessed_delete_old.
Qed.

(** ** Polling after a fresh cursor initialisation *)

Lemma sorted_unique (l1 : list ChangeRow) :
  forall l2,
    StronglySorted id_le l1 -> StronglySorted id_le l2 ->
    NoDup (map id l2) -> Permutation l1 l2 -> l1 = l2.
Proof.
  induction l1 as [|a l1 IH]; intros l2 S1 S2 N P.
  - apply Permutation_nil in P. now subst.
  - destruct l2 as [|b l2].
    + apply Permutation_sym, Permutation_nil in P. discriminate.
    + assert (E : a = b).
      { assert (Ha : In a (b :: l2)) by (eapply Permutation_in; [exact P | now left]).
        assert (Hb : In b (a :: l1))
          by (eapply Permutation_in; [apply Permutation_sym; exact P | now left]).
        destruct Ha as [Ha|Ha]; [now subst|].
        destruct Hb as [Hb|Hb]; [now subst|].
        inversion S1 as [|? ? _ A1]; inversion S2 as [|? ? _ A2]; subst.
        rewrite Forall_forall in A1, A2.
        pose proof (A1 b Hb) as L1. pose proof (A2 a Ha) as L2.
        unfold id_le in *. simpl in N. inversion N as [|? ? Hn _]; subst.
        exfalso. apply Hn. replace (id b) with (id a) by lia.
        now apply in_map. }
      subst b. f_equal. apply IH.
      * now inversion S1.
      * now inversion S2.
      * simpl in N. now inversion N.
      * eapply Permutation_cons_inv; eauto.
Qed.

Lemma NoDup_app_disjoint {A} (l1 l2 : list A) :
  NoDup (l1 ++ l2) -> forall a, In a l1 -> In a l2 -> False.
Proof.
  induction l1 as [|x l1 IH]; simpl; intros N a H1 H2; [contradiction|].
  inversion N as [|? ? Hn Hd]; subst. destruct H1 as [->|H1].
  - apply Hn, in_or_app. now right.
  - eapply IH; eauto.
Qed.

Lemma mark_all_unprocessed (batch : list ChangeRow) (x : ChangeRow) :
  forall t, In x (mark_all batch t) -> processed x = false ->
            In x t /\ ~ In (id x) (map id batch).
Proof.
  induction batch as [|b batch IH]; intros t Hx Hp; simpl in *; [tauto|].
  destruct (IH _ Hx Hp) as [Hin Hn].
  unfold update_processed in Hin. apply in_map_iff in Hin.
  destruct Hin as [y [Hy Hin]]. destruct (Z.eqb_spec (id y) (id b)) as [E|E].
  - subst x. discriminate.
  - subst y. split; auto. intros [H|H]; [congruence | contradiction].
Qed.

Lemma last_In (l : list Z) (d : Z) : l <> [] -> In (last l d) l.
Proof.
  induction l as [|a l IH]; intros H; [congruence|].
  destruct l as [|b l]; [now left|]. right. apply IH. discriminate.
Qed.

Lemma firstn_nonempty {A} (n : nat) (l : list A) :
  firstn (S n) l = [] -> l = [].
Proof. destruct l; simpl; [auto | discriminate]. Qed.

(** After a batch is marked and the cursor is on its last row, the rows
    still to fetch are the ones that were behind the batch. *)
Lemma pending_after_batch (c : Z) (t t' : list ChangeRow) :
  NoDup (map id t) ->
  let todo := order_by_id (filter (unprocessed_after c) t) in
  let batch := firstn 50 todo in
  batch <> [] ->
  unprocessed_rows t' = unprocessed_rows (mark_all batch t) ->
  order_by_id (filter (unprocessed_after (last (map id batch) c)) t') =
  skipn 50 todo.
Proof.
  intros N todo batch Hb Hu.
  set (c' := last (map id batch) c).
  rewrite filter_unprocessed_after, Hu, <- filter_unprocessed_after.
  pose proof (order_by_id_sorted (filter (unprocessed_after c) t)) as S.
  fold todo in S.
  pose proof (pending_ids_NoDup c t N) as Nt. fold todo in Nt.
  assert (Et : todo = (batch ++ skipn 50 todo)%list)
    by (symmetry; apply firstn_skipn).
  rewrite Et in S. apply StronglySorted_app_inv in S.
  destruct S as [_ [S2 S12]].
  rewrite Et, map_app in Nt.
  pose proof (NoDup_app_disjoint _ _ Nt) as Hdis.
  assert (Nt2 : NoDup (map id (skipn 50 todo)))
    by (eapply NoDup_app_remove_l; eauto).
  assert (Hc' : In c' (map id batch)).
  { apply last_In. destruct batch; [congruence | discriminate]. }
  apply in_map_iff in Hc'. destruct Hc' as [z [Hz Hzb]].
  assert (Nm : NoDup (map id (mark_all batch t))) by now rewrite mark_all_ids.
  apply sorted_unique; auto using order_by_id_sorted.
  apply NoDup_Permutation.
  - eapply NoDup_map_inv. apply pending_ids_NoDup. exact Nm.
  - eapply NoDup_map_inv. exact Nt2.
  - intros x. rewrite pending_In. split.
    + intros [Hx [Hgt Hp]].
      destruct (mark_all_unprocessed batch x t Hx Hp) as [Hin Hnb].
      assert (Hcx : c < id x).
      { assert (Hzc : c < id z).
        { assert (In z todo) by (rewrite Et; apply in_or_app; now left).
          unfold todo in H. apply pending_In in H. tauto. }
        lia. }
      assert (Hxt : In x todo) by (apply pending_In; auto).
      rewrite Et in Hxt. apply in_app_or in Hxt. destruct Hxt as [Hxb|Hxs]; auto.
      exfalso. apply Hnb. now apply in_map.
    + intros Hx.
      assert (Hxt : In x todo) by (rewrite Et; apply in_or_app; now right).
      unfold todo in Hxt. apply pending_In in Hxt. destruct Hxt as [Hin [Hgt Hp]].
      assert (Hnb : ~ In (id x) (map id batch)).
      { intros Hi. apply (Hdis (id x)); auto. now apply in_map. }
      split; [now apply mark_all_other|]. split; auto.
      pose proof (S12 z x Hzb Hx) as Hle. unfold id_le in Hle.
      assert (id z <> id x).
      { intros E. apply Hnb. rewrite <- E. now apply in_map. }
      lia.
Qed.

Lemma select_unprocessed_pending (s : Sys) :
  select_unprocessed (cursor s) (order_changes s) = firstn 50 (pending s).
Proof. reflexivity. Qed.

Lemma sweep_ids_NoDup (r : Q) (f : list bool) (t : list ChangeRow) :
  NoDup (map id t) -> NoDup (map id (fst (sweep r f t))).
Proof.
  intros N. unfold sweep, delete_old. destruct (lt_tenth r); simpl; auto.
  destruct (hd false f); auto.
  destruct (cleanup_threshold t); auto. now apply NoDup_map_filter.
Qed.

(** One poll on a healthy store publishes the first 50 pending rows and
    leaves the others pending. *)
Lemma tick_healthy_pending (s : Sys) :
  faults s = [] -> NoDup (map id (order_changes s)) ->
  let s' := tick JSON_parse s in
  faults s' = [] /\ NoDup (map id (order_changes s')) /\
  clients s' = publish_rows JSON_parse (firstn 50 (pending s)) (clients s) /\
  pending s' = skipn 50 (pending s).
Proof.
  intros Hf N s'.
  assert (H : forall n, healthy n s) by (intros n; unfold healthy; now rewrite Hf, firstn_nil).
  destruct (firstn 50 (pending s)) as [|b rest] eqn:B.
  - assert (E : s' = mkSys (this s) (order_changes s) (clients s) (console s)
                           (tl (faults s)) (randoms s) (timers s) (next_handle s)
                           (clock s) (exit_code s) (fetching s)).
    { subst s'. apply tick_idle; auto. }
    rewrite E. cbn [faults order_changes clients]. rewrite Hf.
    apply firstn_nonempty in B.
    repeat split; auto. unfold pending, cursor in *. cbn [this order_changes].
    now rewrite B.
  - destruct (tick_healthy s) as [lines E].
    { rewrite select_unprocessed_pending, B. discriminate. }
    { apply H. }
    fold s' in E. rewrite select_unprocessed_pending in E.
    rewrite E. cbn [faults order_changes clients]. rewrite <- B.
    split; [|split; [|split]].
    + rewrite sweep_faults, Hf, skipn_nil. now destruct (lt_tenth _).
    + apply sweep_ids_NoDup. now rewrite mark_all_ids.
    + reflexivity.
    + unfold pending at 1. unfold cursor. cbn [this order_changes].
      rewrite advance_to_cursor.
      apply (pending_after_batch (cursor s) (order_changes s)); auto.
      * fold (pending s). rewrite B. discriminate.
      * apply unprocessed_sweep.
Qed.

Lemma firstn_add {A} (a b : nat) (l : list A) :
  firstn (a + b) l = (firstn a l ++ firstn b (skipn a l))%list.
Proof.
  revert l. induction a as [|a IH]; intros l; simpl; auto.
  destruct l; simpl; [now rewrite firstn_nil | now rewrite IH].
Qed.

Lemma ticks_healthy_pending (n : nat) :
  forall s,
    faults s = [] -> NoDup (map id (order_changes s)) ->
    clients (ticks JSON_parse n s) =
      publish_rows JSON_parse (firstn (50 * n) (pending s)) (clients s) /\
    pending (ticks JSON_parse n s) = skipn (50 * n) (pending s).
Proof.
  induction n as [|n IH]; intros s Hf N.
  - rewrite Nat.mul_0_r. simpl. auto.
  - destruct (tick_healthy_pending s Hf N) as [Hf' [N' [C' P']]].
    destruct (IH _ Hf' N') as [C P].
    change (ticks JSON_parse (S n) s) with (ticks JSON_parse n (tick JSON_parse s)).
    replace (50 * S n)%nat with (50 + 50 * n)%nat by lia.
    split.
    + rewrite C, C', P', firstn_add, publish_rows_app. reflexivity.
    + rewrite P, P', skipn_skipn. f_equal. lia.
Qed.

(** C2 (as the code has it): a fresh initialisation puts the cursor on the
    highest processed id (0 when there is none).  On a store that answers,
    the polls that follow, run one after the other, publish exactly the
    unprocessed rows above that id, in id order and 50 per poll, until
    none is pending.  No processed
    row is above the cursor, so none is published again; an unprocessed row
    at or below the cursor is never fetched and stays unprocessed. *)
Theorem fresh_cursor_resumes_above_max_processed (s : Sys) :
  faults s = [] -> NoDup (map id (order_changes s)) ->
  let s0 := exec initializeLastProcessedId s in
  let todo := pending s0 in
  cursor s0 = match select_max_processed (order_changes s) with
              | Some m => m
              | None => 0
              end /\
  (forall x, In x todo <->
             In x (order_changes s) /\ cursor s0 < id x /\ processed x = false) /\
  (forall x, In x (order_changes s) -> processed x = true -> id x <= cursor s0) /\
  forall n,
    let sn := ticks JSON_parse n s0 in
    clients sn = publish_rows JSON_parse (firstn (50 * n) todo) (clients s) /\
    pending sn = skipn (50 * n) todo /\
    (forall x, In x (order_changes s) -> processed x = false ->
               id x <= cursor s0 -> In x (order_changes sn)).
Proof.
  intros Hf N s0 todo.
  assert (E : s0 = mkSys (set_lastProcessedId
                            match select_max_processed (order_changes s) with
                            | Some m => m
                            | None => 0
                            end (this s))
                         (order_changes s) (clients s)
                         (console s ++ init_lines s)%list [] (randoms s)
                         (timers s) (next_handle s) (clock s) (exit_code s)
                         (fetching s)).
  { subst s0. unfold exec. rewrite initializeLastProcessedId_spec.
    unfold init_cursor. rewrite Hf. reflexivity. }
  assert (Ec : cursor s0 = match select_max_processed (order_changes s) with
                           | Some m => m
                           | None => 0
                           end) by (rewrite E; reflexivity).
  assert (Et : order_changes s0 = order_changes s) by (rewrite E; reflexivity).
  assert (Ef : faults s0 = []) by (rewrite E; reflexivity).
  assert (Ecl : clients s0 = clients s) by (rewrite E; reflexivity).
  split; [exact Ec|]. split.
  { intros x. unfold todo, pending. rewrite Et. apply pending_In. }
  split.
  { intros x Hx Hp. rewrite Ec.
    pose proof (select_max_processed_bound (order_changes s)) as B.
    destruct (select_max_processed (order_changes s)) as [m|].
    - now apply B.
    - rewrite (B x Hx) in Hp. discriminate. }
  intros n sn.
  destruct (ticks_healthy_pending n s0 Ef) as [C P]; [now rewrite Et|].
  fold sn in C, P. fold todo in C, P. rewrite Ecl in C.
  split; [exact C|]. split; [exact P|].
  intros x Hx Hp Hle. destruct (ticks_grows n s0) as [_ [[G _] _]].
  fold sn in G. apply G; auto. now rewrite Et.
Qed.

(** ** Calls and polls that overlap *)

(** Run to its end before anything else, a call of [start()] is its two
    halves one after the other, and so is a firing of the timer. *)
Lemma start_in_halves_is_start (s : Sys) : start_in_halves s = start s.
Proof.
  unfold start_in_halves, start_enter, start_resume, start, bind, get, ret.
  destruct (isListening (this s)); reflexivity.
Qed.

Lemma poll_in_halves_is_the_callback (s : Sys) :
  poll_in_halves JSON_parse s = poll_callback JSON_parse s.
Proof.
  unfold poll_in_halves, poll_begin, poll_resume, poll_end, poll_callback,
    checkForChanges.
  unfold try_catch, bind, get, ret, log, modify, query_unprocessed, database_query.
  destruct (faults s) as [|[] f]; reflexivity.
Qed.

Lemma poll_begin_ok (s : Sys) :
  hd false (faults s) = false ->
  poll_begin s =
  (Returned (Some (select_unprocessed (cursor s) (order_changes s))),
   set_faults (tl (faults s)) s).
Proof.
  intros H. unfold poll_begin, try_catch, bind, get, ret, query_unprocessed,
    database_query, cursor.
  destruct (faults s) as [|[] f] eqn:F; simpl in *; try discriminate.
  - destruct s; simpl in *; subst; reflexivity.
  - reflexivity.
Qed.

Lemma poll_end_healthy (batch : list ChangeRow) (s : Sys) :
  let swept := sweep (hd 0%Q (randoms s)) (skipn (length batch) (faults s))
                     (mark_all batch (order_changes s)) in
  batch <> [] ->
  healthy (length batch) s ->
  exists lines,
    poll_end JSON_parse batch s =
    (Returned tt,
     mkSys (advance_to batch (this s)) (fst swept)
           (publish_rows JSON_parse batch (clients s)) (console s ++ lines)%list
           (snd swept) (tl (randoms s))
           (timers s) (next_handle s) (clock s) (exit_code s) (fetching s)).
Proof.
  intros swept Hb H. subst swept. unfold poll_end.
  destruct batch as [|b0 rest]; [congruence|].
  set (batch := b0 :: rest) in *.
  unfold try_catch at 1 2. unfold bind at 1.
  destruct (process_batch_healthy batch s H) as [l1 E]. rewrite E.
  match goal with
  | |- context [bind Math_random ?k ?s1] =>
      destruct (after_batch s1) as [l2 E2]; rewrite E2
  end.
  cbn [this order_changes clients console faults randoms timers next_handle
       clock exit_code fetching snd].
  exists (l1 ++ l2)%list. now rewrite app_assoc.
Qed.

Lemma sweep_no_faults (r : Q) (t : list ChangeRow) : snd (sweep r [] t) = [].
Proof. unfold sweep. destruct (lt_tenth r); reflexivity. Qed.

(** X23: polls overlap when the timer fires again while a poll still
    awaits its SELECT.  On a store that answers every call, both polls are
    then answered with the same batch, and each hands the whole batch to
    the fan-out: every event of the batch is published twice, and the
    cursor ends on the last row of the batch. *)
Theorem overlapping_polls_publish_the_batch_twice (s : Sys) :
  let batch := select_unprocessed (cursor s) (order_changes s) in
  batch <> [] -> faults s = [] ->
  let s' := exec (overlapping_polls JSON_parse) s in
  fst (overlapping_polls JSON_parse s) = Returned tt /\
  clients s' =
    publish_rows JSON_parse batch (publish_rows JSON_parse batch (clients s)) /\
  cursor s' = last (map id batch) (cursor s).
Proof.
  intros batch Hb Hf s'. subst s'. unfold exec, overlapping_polls.
  assert (S0 : set_faults (tl (faults s)) s = s).
  { rewrite Hf. destruct s; simpl in *; subst; reflexivity. }
  unfold bind. rewrite poll_begin_ok by (now rewrite Hf). rewrite S0.
  cbv beta iota. rewrite poll_begin_ok by (now rewrite Hf). rewrite S0.
  cbv beta iota. fold batch. unfold poll_resume.
  destruct (poll_end_healthy batch s Hb) as [l1 E1].
  { unfold healthy. rewrite Hf, firstn_nil. reflexivity. }
  rewrite E1. cbv beta iota.
  match goal with
  | |- context [poll_end _ batch ?s1] =>
      destruct (poll_end_healthy batch s1 Hb) as [l2 E2]
  end.
  { unfold healthy. cbn [faults]. rewrite Hf, skipn_nil, sweep_no_faults, firstn_nil.
    reflexivity. }
  rewrite E2. cbn [fst snd this clients]. split; [reflexivity|]. split; [reflexivity|].
  unfold cursor. cbn [this]. rewrite !advance_to_cursor.
  destruct batch as [|b rest]; [congruence|]. simpl map. apply last_cons_default.
Qed.

(** ** Order and number of the events a socket is handed *)

Lemma StronglySorted_lt_app (l1 l2 : list Z) (mid : Z) :
  StronglySorted Z.lt l1 -> StronglySorted Z.lt l2 ->
  Forall (fun i => i <= mid) l1 -> Forall (fun i => mid < i) l2 ->
  StronglySorted Z.lt (l1 ++ l2).
Proof.
  intros S1 S2 H1 H2. induction S1 as [|x l1 S1 IH Hx]; simpl; auto.
  inversion H1; subst. constructor; auto.
  apply Forall_app. split; auto.
  eapply Forall_impl; [|exact H2]. simpl. intros; lia.
Qed.

Lemma delivered_between_refl (lo hi : Z) (k : nat) (a : Client) :
  delivered_between lo hi k a a.
Proof.
  repeat split. exists [], []. rewrite app_nil_r.
  repeat split; try constructor. simpl. lia.
Qed.

Lemma in_order_refl (lo hi : Z) (k : nat) (cs : list Client) :
  in_order lo hi k cs cs.
Proof. induction cs; constructor; auto using delivered_between_refl. Qed.

Lemma in_order_weaken (lo hi lo' hi' : Z) (k k' : nat) (cs cs' : list Client) :
  lo' <= lo -> hi <= hi' -> (k <= k')%nat ->
  in_order lo hi k cs cs' -> in_order lo' hi' k' cs cs'.
Proof.
  intros Hl Hh Hk. apply Forall2_impl.
  intros a b [C [R [T [extra [ids [E [I [S [B L]]]]]]]]].
  repeat split; auto. exists extra, ids. repeat split; auto; [|lia].
  eapply Forall_impl; [|exact B]. simpl. intros; lia.
Qed.

Lemma in_order_trans (lo1 hi1 lo2 hi2 : Z) (k1 k2 : nat) (cs1 cs2 cs3 : list Client) :
  in_order lo1 hi1 k1 cs1 cs2 -> in_order lo2 hi2 k2 cs2 cs3 ->
  hi1 < lo2 -> lo1 <= lo2 -> hi1 <= hi2 ->
  in_order lo1 hi2 (k1 + k2) cs1 cs3.
Proof.
  intros H12 H23 Hm Hl Hh. revert cs3 H23.
  induction H12 as [|a b cs1 cs2 Hab H12 IH]; intros cs3 H23;
    inversion H23 as [|? c ? cs3' Hbc H23']; subst; constructor; [|now apply IH].
  destruct Hab as [C1 [R1 [T1 [e1 [i1 [E1 [I1 [S1 [B1 L1]]]]]]]]].
  destruct Hbc as [C2 [R2 [T2 [e2 [i2 [E2 [I2 [S2 [B2 L2]]]]]]]]].
  repeat split; try congruence.
  exists (e1 ++ e2)%list, (i1 ++ i2)%list. repeat split.
  - now rewrite E2, E1, app_assoc.
  - unfold change_ids in *. now rewrite !map_app, I1, I2.
  - apply (StronglySorted_lt_app _ _ hi1); auto.
    + eapply Forall_impl; [|exact B1]. simpl. intros; lia.
    + eapply Forall_impl; [|exact B2]. simpl. intros; lia.
  - apply Forall_app. split.
    + eapply Forall_impl; [|exact B1]. simpl. intros; lia.
    + eapply Forall_impl; [|exact B2]. simpl. intros; lia.
  - rewrite length_app. lia.
Qed.

Lemma forEach_send_in_order (i : Z) (m : Message) (cs : list Client) (n : nat) :
  changeId m = Some i -> in_order i i 1 cs (fst (forEach_send m cs n)).
Proof.
  intros Hm. revert n. induction cs as [|a cs IH]; intros n; simpl.
  - constructor.
  - destruct (readyState a =? 1)%nat.
    + destruct (send_throws a); simpl.
      * apply in_order_refl.
      * specialize (IH (S n)). destruct (forEach_send m cs (S n)) as [cs' out].
        simpl in *. constructor; auto.
        repeat split. exists [m], [i]. repeat split; simpl; auto.
        -- unfold change_ids. simpl. now rewrite Hm.
        -- repeat constructor.
        -- repeat constructor; lia.
    + specialize (IH n). destruct (forEach_send m cs n) as [cs' out].
      simpl in *. constructor; auto using delivered_between_refl.
Qed.

Lemma publish_row_in_order (r : ChangeRow) (cs : list Client) :
  in_order (id r) (id r) 1 cs (publish_row JSON_parse r cs).
Proof.
  unfold publish_row, normalize. destruct (data_truthy _).
  - apply forEach_send_in_order, changeData_of_changeId.
  - apply in_order_refl.
Qed.

Lemma publish_rows_in_order (rows : list ChangeRow) :
  forall (cs : list Client) (lo hi : Z),
    StronglySorted id_lt rows ->
    Forall (fun r => lo <= id r <= hi) rows ->
    in_order lo hi (length rows) cs (publish_rows JSON_parse rows cs).
Proof.
  induction rows as [|r rows IH]; intros cs lo hi S B.
  - apply in_order_refl.
  - inversion S as [|? ? S' Hr]; inversion B as [|? ? Br B']; subst.
    rewrite publish_rows_cons.
    apply (in_order_weaken lo hi lo hi (1 + length rows)); try lia; [reflexivity|].
    apply (in_order_trans lo (id r) (id r + 1) hi 1 (length rows) cs
             (publish_row JSON_parse r cs)); try lia.
    + apply (in_order_weaken (id r) (id r) lo (id r) 1 1); try lia.
      apply publish_row_in_order.
    + apply IH; auto. rewrite Forall_forall in *. intros x Hx.
      specialize (Hr x Hx). specialize (B' x Hx). unfold id_lt in Hr. lia.
Qed.

Lemma sorted_strict (l : list ChangeRow) :
  StronglySorted id_le l -> NoDup (map id l) -> StronglySorted id_lt l.
Proof.
  induction 1 as [|x l S IH Hx]; intros N; [constructor|].
  simpl in N. inversion N as [|? ? Hn N']; subst.
  constructor; auto. rewrite Forall_forall in *. intros y Hy.
  specialize (Hx y Hy). unfold id_le, id_lt in *.
  assert (id x <> id y).
  { intros E. apply Hn. rewrite E. now apply in_map. }
  lia.
Qed.

Lemma sorted_le_last (l : list ChangeRow) (d : Z) :
  StronglySorted id_le l -> Forall (fun r => id r <= last (map id l) d) l.
Proof.
  intros S. apply Forall_forall. intros x Hx.
  apply in_split in Hx. destruct Hx as [pre [post ->]].
  now apply sorted_last_le.
Qed.

(** The primary key survives a poll. *)
Lemma tick_ids_NoDup (s : Sys) :
  NoDup (map id (order_changes s)) ->
  NoDup (map id (order_changes (tick JSON_parse s))).
Proof.
  intros N.
  destruct (tick_cases s) as [f Hf E | H B E | lines B H E | pre post r f lines B Hf E];
    rewrite E; cbn [order_changes]; auto.
  - apply sweep_ids_NoDup. now rewrite mark_all_ids.
  - now rewrite mark_all_ids.
Qed.

Lemma tick_in_order (s : Sys) :
  NoDup (map id (order_changes s)) ->
  cursor s <= cursor (tick JSON_parse s) /\
  in_order (cursor s + 1) (cursor (tick JSON_parse s)) 50
           (clients s) (clients (tick JSON_parse s)).
Proof.
  intros N. split; [apply (tick_grows s)|].
  pose proof (select_unprocessed_sorted (cursor s) (order_changes s)) as S.
  pose proof (select_unprocessed_ids_NoDup (cursor s) _ N) as Nb.
  pose proof (select_unprocessed_above (cursor s) (order_changes s)) as A.
  assert (L : (length (select_unprocessed (cursor s) (order_changes s)) <= 50)%nat).
  { unfold select_unprocessed. rewrite length_firstn. lia. }
  destruct (tick_cases s) as [f Hf E | H B E | lines B H E | pre post r f lines B Hf E];
    rewrite E; cbn [clients this]; try apply in_order_refl.
  - unfold cursor at 2. cbn [this]. rewrite advance_to_cursor.
    eapply in_order_weaken; [reflexivity | reflexivity | exact L |].
    apply publish_rows_in_order; [now apply sorted_strict|].
    pose proof (sorted_le_last _ (lastProcessedId (this s)) S) as U.
    rewrite Forall_forall in *. intros x Hx.
    specialize (A x Hx). specialize (U x Hx). simpl in A. lia.
  - unfold cursor at 2. cbn [this lastProcessedId set_lastProcessedId].
    rewrite B in S, Nb, A, L.
    assert (S1 : StronglySorted id_le (pre ++ [r])).
    { replace (pre ++ r :: post)%list with ((pre ++ [r]) ++ post)%list in S
        by (now rewrite <- app_assoc).
      now apply StronglySorted_app_inv in S. }
    assert (N1 : NoDup (map id (pre ++ [r]))).
    { replace (pre ++ r :: post)%list with ((pre ++ [r]) ++ post)%list in Nb
        by (now rewrite <- app_assoc).
      rewrite map_app in Nb. now apply NoDup_app_remove_r in Nb. }
    eapply in_order_weaken; [reflexivity | reflexivity | |].
    2: { apply publish_rows_in_order; [now apply sorted_strict|].
         pose proof (sorted_le_last _ 0 S1) as U.
         rewrite map_app in U. simpl in U. rewrite last_last in U.
         rewrite Forall_forall in *. intros x Hx. specialize (U x Hx).
         assert (Hx' : In x (pre ++ r :: post)).
         { apply in_app_or in Hx. apply in_or_app.
           destruct Hx as [Hx|[<-|[]]]; [now left | right; now left]. }
         specialize (A x Hx'). simpl in A. split; [lia | exact U]. }
    rewrite length_app in *. simpl in *. lia.
Qed.

Lemma ticks_in_order (n : nat) :
  forall s,
    NoDup (map id (order_changes s)) ->
    cursor s <= cursor (ticks JSON_parse n s) /\
    in_order (cursor s + 1) (cursor (ticks JSON_parse n s)) (50 * n)
             (clients s) (clients (ticks JSON_parse n s)).
Proof.
  induction n as [|n IH]; intros s N.
  - simpl. split; [lia | apply in_order_refl].
  - change (ticks JSON_parse (S n) s) with (ticks JSON_parse n (tick JSON_parse s)).
    destruct (tick_in_order s N) as [C1 O1].
    destruct (IH _ (tick_ids_NoDup s N)) as [C2 O2].
    split; [lia|].
    replace (50 * S n)%nat with (50 + 50 * n)%nat by lia.
    eapply in_order_trans; eauto; lia.
Qed.

(** X1: over any number of polls that run one after the other (each has
    ended when the timer fires again), whichever calls the store rejects
    and whatever the sockets do, every socket is handed change events with
    strictly increasing ids, all above the cursor the polls started from
    and none above the cursor they end on, at most 50 per poll: no event
    is sent twice to a socket and none is sent out of id order. *)
Theorem events_reach_a_socket_in_id_order (s : Sys) (n : nat) :
  NoDup (map id (order_changes s)) ->
  in_order (cursor s + 1) (cursor (ticks JSON_parse n s)) (50 * n)
           (clients s) (clients (ticks JSON_parse n s)).
Proof.
  intros N. apply (ticks_in_order n s N).
Qed.

(** ** What a poll leaves alone *)

Lemma poll_callback_returns (s : Sys) :
  fst (poll_callback JSON_parse s) = Returned tt.
Proof.
  unfold poll_callback, checkForChanges, try_catch, log, modify.
  repeat match goal with
         | |- context [let (_, _) := ?m in _] => destruct m as [[[]|?] ?]
         end; reflexivity.
Qed.

(** X2: when the store rejects the fetch of a poll, the poll ends without
    throwing and without side effects on the listener, the table, the
    sockets or the timers: it writes two lines to the console and the
    next poll starts from the same cursor. *)
Theorem rejected_fetch_changes_nothing (s : Sys) (f : list bool) :
  faults s = true :: f ->
  let s' := tick JSON_parse s in
  fst (poll_callback JSON_parse s) = Returned tt /\
  this s' = this s /\ order_changes s' = order_changes s /\
  clients s' = clients s /\ randoms s' = randoms s /\ timers s' = timers s /\
  faults s' = f /\
  console s' = (console s ++ [ErrDatabaseQuery; ErrInCheckForChanges])%list.
Proof.
  intros Hf s'. subst s'. rewrite (tick_fetch_fails s f Hf). cbn.
  split; [apply poll_callback_returns | auto 10].
Qed.

(** X3: a poll that fetches no row returns at once: it draws no random
    number and sends no [DELETE], so nothing is swept on an idle poll
    whatever the draw would have been; only the fetch has been answered. *)
Theorem idle_poll_changes_nothing (s : Sys) :
  healthy 1 s ->
  select_unprocessed (cursor s) (order_changes s) = [] ->
  tick JSON_parse s = set_faults (tl (faults s)) s /\
  randoms (tick JSON_parse s) = randoms s /\
  order_changes (tick JSON_parse s) = order_changes s /\
  console (tick JSON_parse s) = console s.
Proof.
  intros H B. rewrite (tick_idle s H B). cbn. auto.
Qed.

Lemma publish_row_starves (r : ChangeRow) (pre post : list Client) (c : Client) :
  all_sends_succeed pre -> readyState c = 1%nat -> send_throws c = true ->
  exists pre',
    publish_row JSON_parse r (pre ++ c :: post) = (pre' ++ c :: post)%list /\
    length pre' = length pre /\ all_sends_succeed pre'.
Proof.
  intros Hp Hr Ht. unfold publish_row. destruct (normalize JSON_parse r) as [m|].
  - exists (map (send_open m) pre). unfold publish.
    rewrite (forEach_send_throws m pre post c Hp Hr Ht). simpl.
    split; [reflexivity|]. split; [apply length_map|].
    now apply all_sends_succeed_map.
  - exists pre. auto.
Qed.

Lemma publish_rows_starves (rows : list ChangeRow) (post : list Client) (c : Client) :
  readyState c = 1%nat -> send_throws c = true ->
  forall pre,
    all_sends_succeed pre ->
    exists pre',
      publish_rows JSON_parse rows (pre ++ c :: post) = (pre' ++ c :: post)%list /\
      length pre' = length pre.
Proof.
  intros Hr Ht. induction rows as [|r rows IH]; intros pre Hp.
  - exists pre. auto.
  - destruct (publish_row_starves r pre post c Hp Hr Ht) as [p1 [E1 [L1 A1]]].
    destruct (IH p1 A1) as [p2 [E2 L2]].
    exists p2. rewrite publish_rows_cons, E1, E2. split; [reflexivity | congruence].
Qed.

(** X4: on a store that answers, a poll marks every row of its batch and
    puts the cursor on the last one whatever the sockets do, because
    [processChange] swallows the error of a failed send.  So when the
    [send] of an open socket throws, the sockets after it in the set are
    sent none of the batch's events, although the rows are now processed
    and will not be fetched again. *)
Theorem batch_is_marked_whatever_the_sockets_do (s : Sys) :
  let batch := select_unprocessed (cursor s) (order_changes s) in
  batch <> [] -> healthy (S (length batch)) s ->
  let s' := tick JSON_parse s in
  cursor s' = last (map id batch) (cursor s) /\
  (forall x, In x (order_changes s') -> In (id x) (map id batch) ->
             processed x = true) /\
  (forall pre c post,
      clients s = (pre ++ c :: post)%list ->
      all_sends_succeed pre -> readyState c = 1%nat -> send_throws c = true ->
      exists pre', clients s' = (pre' ++ c :: post)%list /\
                   length pre' = length pre).
Proof.
  intros batch Hb H s'. destruct (tick_healthy s Hb H) as [lines E].
  fold batch in E. fold s' in E. rewrite E. unfold cursor. cbn.
  split; [apply advance_to_cursor|]. split.
  - intros x Hx Hi. apply sweep_incl in Hx.
    refine (mark_all_marks _ _ (fun _ => False) _ x Hx _); [intros y _ [] | now right].
  - intros pre c post Hc Hp Hr Ht. rewrite Hc.
    now apply publish_rows_starves.
Qed.

(** ** Rows across polls *)

Lemma from_rows_refl (t : list ChangeRow) : from_rows t t.
Proof. intros x Hx. now left. Qed.

Lemma from_rows_trans (t1 t2 t3 : list ChangeRow) :
  from_rows t1 t2 -> from_rows t2 t3 -> from_rows t1 t3.
Proof.
  intros H12 H23 x Hx. destruct (H23 x Hx) as [H2 | [y [Hy [Hp E]]]].
  - now apply H12.
  - right. destruct (H12 y Hy) as [H1 | [z [Hz [Hq Ez]]]].
    + exists y. auto.
    + subst y. discriminate.
Qed.

Lemma update_processed_from_rows (i : Z) (t : list ChangeRow) :
  from_rows t (update_processed i t).
Proof.
  intros x Hx. unfold update_processed in Hx. apply in_map_iff in Hx.
  destruct Hx as [y [E Hy]]. destruct (id y =? i).
  - destruct (processed y) eqn:P.
    + left. subst x. unfold mark_processed. rewrite <- P. now destruct y.
    + right. exists y. auto.
  - left. now subst.
Qed.

Lemma mark_all_from_rows (batch : list ChangeRow) :
  forall t, from_rows t (mark_all batch t).
Proof.
  induction batch as [|b batch IH]; intros t; simpl.
  - apply from_rows_refl.
  - eapply from_rows_trans; [apply update_processed_from_rows | apply IH].
Qed.

Lemma tick_from_rows (s : Sys) :
  from_rows (order_changes s) (order_changes (tick JSON_parse s)).
Proof.
  destruct (tick_cases s) as [f Hf E | H B E | lines B H E | pre post r f lines B Hf E];
    rewrite E; cbn [order_changes]; try apply from_rows_refl.
  - intros x Hx. apply sweep_incl in Hx. now apply mark_all_from_rows in Hx.
  - apply mark_all_from_rows.
Qed.

(** X5: polling never inserts a row, never alters the id, the operation,
    the payloads or the timestamp of one, and never clears a [processed]
    flag: after any number of polls every row of the table is a row it
    had before, as it was or with only its flag set. *)
Theorem polls_only_set_the_processed_flag (s : Sys) (n : nat) :
  from_rows (order_changes s) (order_changes (ticks JSON_parse n s)).
Proof.
  revert s. induction n as [|n IH]; intros s; simpl.
  - apply from_rows_refl.
  - eapply from_rows_trans; [apply tick_from_rows | apply IH].
Qed.

(** ** Events always carry data *)

Lemma forEach_send_only_with_data (m : Message) (cs : list Client) (n : nat) :
  has_data m -> only_with_data cs (fst (forEach_send m cs n)).
Proof.
  intros Hm. revert n. induction cs as [|a cs IH]; intros n; simpl.
  - constructor.
  - assert (R : forall l, only_with_data l l).
    { induction l; constructor; auto. exists []. rewrite app_nil_r. auto. }
    destruct (readyState a =? 1)%nat.
    + destruct (send_throws a); simpl; [apply R|].
      specialize (IH (S n)). destruct (forEach_send m cs (S n)) as [cs' out].
      simpl in *. constructor; auto. exists [m]. auto.
    + specialize (IH n). destruct (forEach_send m cs n) as [cs' out].
      simpl in *. constructor; auto. exists []. rewrite app_nil_r. auto.
Qed.

Lemma only_with_data_refl (cs : list Client) : only_with_data cs cs.
Proof. induction cs; constructor; auto. exists []. rewrite app_nil_r. auto. Qed.

Lemma only_with_data_trans (cs1 cs2 cs3 : list Client) :
  only_with_data cs1 cs2 -> only_with_data cs2 cs3 -> only_with_data cs1 cs3.
Proof.
  intros H. revert cs3. induction H as [|a b cs1 cs2 [e1 [E1 F1]] H IH];
    intros cs3 H3; inversion H3 as [|? c ? cs3' [e2 [E2 F2]] H3']; subst;
    constructor; [|now apply IH].
  exists (e1 ++ e2)%list. split; [now rewrite E2, E1, app_assoc|].
  apply Forall_app. auto.
Qed.

Lemma normalize_has_data (r : ChangeRow) (m : Message) :
  normalize JSON_parse r = Some m -> has_data m.
Proof.
  unfold normalize, data_truthy. intros H.
  destruct (data (fst (changeData_of JSON_parse r))) as [d|] eqn:D; [|discriminate].
  destruct (truthy d) eqn:T; [|discriminate]. injection H as <-.
  exists d. auto.
Qed.

Lemma publish_rows_only_with_data (rows : list ChangeRow) :
  forall cs, only_with_data cs (publish_rows JSON_parse rows cs).
Proof.
  induction rows as [|r rows IH]; intros cs.
  - apply only_with_data_refl.
  - rewrite publish_rows_cons. eapply only_with_data_trans; [|apply IH].
    unfold publish_row. destruct (normalize JSON_parse r) as [m|] eqn:N.
    + apply forEach_send_only_with_data. eapply normalize_has_data; eauto.
    + apply only_with_data_refl.
Qed.

Lemma tick_only_with_data (s : Sys) :
  only_with_data (clients s) (clients (tick JSON_parse s)).
Proof.
  destruct (tick_cases s) as [f Hf E | H B E | lines B H E | pre post r f lines B Hf E];
    rewrite E; cbn [clients];
    auto using only_with_data_refl, publish_rows_only_with_data.
Qed.

(** X6: the polling listener never hands a socket a change event without
    data: an event is published only when the parsed payload is truthy, so
    over any number of polls every message a socket is handed has a [data]
    field that is neither absent nor null. *)
Theorem polled_events_always_carry_data (s : Sys) (n : nat) :
  only_with_data (clients s) (clients (ticks JSON_parse n s)).
Proof.
  revert s. induction n as [|n IH]; intros s; simpl.
  - apply only_with_data_refl.
  - eapply only_with_data_trans; [apply tick_only_with_data | apply IH].
Qed.

(** ** Stopping and restarting *)

Lemma stop_spec (s : Sys) :
  stop s =
  (Returned tt,
   mkSys (mkListener false None (lastProcessedId (this s)))
         (order_changes s) (clients s) (console s ++ [LogListenerStopped])%list
         (faults s) (randoms s)
         (match pollInterval (this s) with
          | Some h => filter (fun t => negb (t =? h)%nat) (timers s)
          | None => timers s
          end)
         (next_handle s) (clock s) (exit_code s) (fetching s)).
Proof.
  unfold stop, bind, get, clearInterval, update_this, log, modify.
  destruct (pollInterval (this s)) eqn:P; cbn;
    unfold set_console, set_this, set_isListening; cbn; rewrite ?P; reflexivity.
Qed.

(** X7: [stop()] never throws; it clears the listener's interval, so a
    later firing of that timer runs nothing, and it leaves the cursor, the
    table and the sockets as they are. *)
Theorem stop_ends_polling (s : Sys) (h : nat) :
  pollInterval (this s) = Some h ->
  exit_code s = None ->
  let s' := exec stop s in
  fst (stop s) = Returned tt /\
  isListening (this s') = false /\ pollInterval (this s') = None /\
  ~ In h (timers s') /\
  react JSON_parse (EvTimer h) s' = s' /\
  cursor s' = cursor s /\ order_changes s' = order_changes s /\
  clients s' = clients s.
Proof.
  intros P X s'. subst s'. unfold exec. rewrite stop_spec, P. cbn.
  assert (N : ~ In h (filter (fun t => negb (t =? h)%nat) (timers s))).
  { intros Hin. apply filter_In in Hin. destruct Hin as [_ Hin].
    now rewrite Nat.eqb_refl in Hin. }
  repeat split; auto.
  unfold react. cbn. rewrite X. unfold handler, exec, bind, get. cbn.
  destruct (existsb (Nat.eqb h) _) eqn:E; [|reflexivity].
  exfalso. apply existsb_exists in E. destruct E as [t [Ht Et]].
  apply Nat.eqb_eq in Et. subst t. contradiction.
Qed.

Lemma mark_all_processed_origin (batch : list ChangeRow) :
  forall t x, In x (mark_all batch t) -> processed x = true ->
              (exists y, In y t /\ processed y = true /\ id y = id x) \/
              In (id x) (map id batch).
Proof.
  induction batch as [|b batch IH]; intros t x Hx Hp; simpl in *.
  - left. eauto.
  - destruct (IH _ x Hx Hp) as [[y [Hy [Py Ey]]] | Hin]; [|auto].
    unfold update_processed in Hy. apply in_map_iff in Hy.
    destruct Hy as [z [Ez Hz]]. destruct (Z.eqb_spec (id z) (id b)) as [Eb|Eb].
    + right. left. subst y. simpl in Ey. congruence.
    + subst z. left. eauto.
Qed.

(** X8: a record left behind by a rejected [UPDATE] is pending again after
    [stop()] and [start()], provided no record above it is processed:
    the restart re-initialises the cursor from the store, below that
    record, so its event will be published a second time. *)
Theorem restart_makes_the_record_pending_again
        (s : Sys) (pre post : list ChangeRow) (r : ChangeRow) :
  NoDup (map id (order_changes s)) -> 0 <= cursor s ->
  select_unprocessed (cursor s) (order_changes s) = (pre ++ r :: post)%list ->
  faults s = (false :: repeat false (length pre) ++ [true])%list ->
  (forall x, In x (order_changes s) -> processed x = true -> id x < id r) ->
  let s1 := tick JSON_parse s in
  let s2 := exec start (exec stop s1) in
  cursor s1 = id r /\ ~ In r (pending s1) /\
  cursor s2 < id r /\ In r (pending s2).
Proof.
  intros N C0 B Hf Hmax s1 s2.
  destruct (tick_mark_fails s pre post r [] B Hf) as [lines E]. fold s1 in E.
  assert (Hr : In r (order_changes s) /\ cursor s < id r /\ processed r = false).
  { apply select_unprocessed_In. rewrite B. apply in_or_app. right. now left. }
  destruct Hr as [Hin [Hc Hp]].
  pose proof (select_unprocessed_ids_NoDup (cursor s) _ N) as Nb.
  pose proof (select_unprocessed_sorted (cursor s) (order_changes s)) as Sb.
  rewrite B in Nb, Sb.
  assert (Hnp : ~ In (id r) (map id pre)).
  { rewrite map_app in Nb. simpl in Nb. now apply NoDup_app_not_in in Nb. }
  assert (Hin1 : In r (order_changes s1)).
  { rewrite E. cbn. now apply mark_all_other. }
  assert (C1 : cursor s1 = id r) by (rewrite E; reflexivity).
  split; [exact C1|]. split.
  { intros Hpd. unfold pending in Hpd. apply pending_In in Hpd. lia. }
  assert (E2 : cursor s2 = match select_max_processed (order_changes s1) with
                           | Some m => m
                           | None => 0
                           end /\ order_changes s2 = order_changes s1).
  { subst s2. unfold exec. rewrite stop_spec. cbn [snd].
    rewrite start_stopped by reflexivity. unfold init_cursor, cursor. cbn.
    rewrite E. cbn. auto. }
  destruct E2 as [C2 T2].
  assert (Hlt : cursor s2 < id r).
  { rewrite C2. pose proof (select_max_processed_bound (order_changes s1)) as M.
    destruct (select_max_processed (order_changes s1)) as [m|]; [|lia].
    destruct M as [[x [Hx [Px Ex]]] _]. subst m.
    rewrite E in Hx. cbn in Hx.
    destruct (mark_all_processed_origin pre _ x Hx Px) as [[y [Hy [Py Ey]]] | Hi].
    - rewrite <- Ex, <- Ey. now apply Hmax.
    - apply in_map_iff in Hi. destruct Hi as [z [Ez Hz]].
      apply StronglySorted_app_inv in Sb. destruct Sb as [_ [_ Sb]].
      specialize (Sb z r Hz (or_introl eq_refl)). unfold id_le in Sb.
      assert (id z <> id r).
      { intros Q. apply Hnp. rewrite <- Q. now apply in_map. }
      rewrite <- Ex. lia. }
  split; [exact Hlt|].
  unfold pending. apply pending_In. rewrite T2. auto.
Qed.

End Properties.

(** * The properties on concrete processes *)

Import Scenario.

Lemma start_while_listening_is_noop_witness :
  let s := exec start (process [insert_alice 1 false] [subscriber 1] []) in
  start s = (Returned tt, s) /\
  this (exec start s) = this s /\
  timers (exec start s) = timers s /\
  (one_poll_loop s ->
   forall cs, one_poll_loop (calls Json.parse cs s) /\
              (length (timers (calls Json.parse cs s)) <= 1)%nat).
Proof.
  apply (start_while_listening_is_noop Json.parse). reflexivity.
Defined.

(** C10, as stated, fails: a second [start()] issued while the first
    still awaits the cursor query passes the guard too.  Two intervals are
    created, [stop()] clears the one it has the handle of, and the other
    keeps polling for the stopped listener. *)
Lemma overlapping_starts_create_two_poll_loops :
  let s := process [insert_alice 1 false] [subscriber 1] [] in
  let s1 := exec overlapping_starts s in
  let s2 := exec stop s1 in
  timers s = [] /\
  fst (overlapping_starts s) = Returned tt /\
  timers s1 = [1; 0]%nat /\ pollInterval (this s1) = Some 1%nat /\
  ~ one_poll_loop s1 /\
  timers s2 = [0%nat] /\ isListening (this s2) = false /\
  inbox 1 (react Json.parse (EvTimer 0) s2) = [insert_event 1].
Proof.
  split; [reflexivity|]. split; [reflexivity|]. split; [reflexivity|].
  split; [reflexivity|]. split.
  { unfold one_poll_loop. simpl. intros [H _]. discriminate H. }
  split; [reflexivity|]. split; [reflexivity|]. vm_compute. reflexivity.
Qed.

Lemma startup_survives_failed_cursor_query_witness :
  let s := process [insert_alice 1 false] [subscriber 1] [true] in
  let s1 := react Json.parse EvBoot s in
  exit_code s1 = None /\
  isListening (this s1) = true /\
  lastProcessedId (this s1) = 0 /\
  pollInterval (this s1) = Some (next_handle s) /\
  timers s1 = next_handle s :: timers s /\
  In ErrInitializing (console s1) /\
  react Json.parse (EvTimer (next_handle s)) s1 = tick Json.parse s1.
Proof.
  apply (startup_survives_failed_cursor_query Json.parse _ []); reflexivity.
Defined.

(** C8, as stated, fails: the cursor query is rejected, yet the process
    keeps running, the listener polls from the default cursor 0 and the
    subscriber is served the pending change. *)
Lemma failed_cursor_query_is_not_fatal :
  let s := process [insert_alice 1 false] [subscriber 1] [true] in
  let s1 := react Json.parse EvBoot s in
  let s2 := react Json.parse (EvTimer 0) s1 in
  faults s = [true] /\
  exit_code s2 = None /\
  isListening (this s1) = true /\
  timers s1 = [0%nat] /\
  lastProcessedId (this s1) = 0 /\
  inbox 1 s2 = [insert_event 1].
Proof.
  vm_compute. repeat split; reflexivity.
Qed.

Lemma change_messages_shape_witness :
  normalize Json.parse (insert_alice 1 false) = Some (insert_event 1).
Proof.
  apply (proj1 (proj2 (change_messages_shape Json.parse))
           (insert_alice 1 false) alice).
  - discriminate.
  - right. exists alice_text. repeat split; discriminate.
  - reflexivity.
Defined.

(** C5, as stated, fails for the binlog variant: its UPDATE message has
    no [changeId] (and no [data]). *)
Lemma binlog_update_message_lacks_changeId :
  let s := process [] [subscriber 1] [] in
  exists m,
    inbox 1 (exec (BinlogListener.handleBinlogEvent binlog_update) s) = [m] /\
    type m = "UPDATE" /\ changeId m = None /\ data m = None.
Proof.
  eexists. vm_compute. repeat split; reflexivity.
Qed.


Lemma snapshot_follows_registration_witness :
  let s := process [] [subscriber 1] [] in
  let ms := [insert_event 1; insert_event 2] in
  let s1 := exec (track_client 7 false) s in
  let s2 := exec (connection_handler 7) s1 in
  let s3 := publish_all ms s2 in
  let s4 := exec (on_orders_settled 7 (Some [alice])) s3 in
  on_connection 7 false s = connection_handler 7 s1 /\
  live 7 s1 /\ fetching s1 = fetching s /\
  fetching s2 = (fetching s ++ [7%nat])%list /\
  inbox 7 s3 = ms /\
  inbox 7 s4 = (ms ++ [initial_data [alice] (clock s)])%list /\
  ~ In 7%nat (fetching s4).
Proof.
  apply snapshot_follows_registration.
  - intros x [<-|[]]. simpl. lia.
  - simpl. tauto.
  - reflexivity.
Defined.

(** C3, as stated, fails: a change polled while the snapshot fetch of a
    new connection is in flight reaches that connection before its
    INITIAL_DATA message. *)
Lemma live_event_precedes_snapshot :
  let s := process [insert_alice 1 false] [] [] in
  let s' := run Json.parse
              [EvBoot; EvConnection 7 false; EvTimer 0;
               EvOrdersSettled 7 (Some [alice])] s in
  inbox 7 s' = [insert_event 1; initial_data [alice] (clock s)].
Proof.
  vm_compute. reflexivity.
Qed.

Lemma cursor_never_decreases_across_ticks_witness :
  let s := polling_at 5 [insert_alice 3 false] [subscriber 1] [] in
  cursor (exec (process_batch Json.parse [insert_alice 3 false]) s) =
  last (map id [insert_alice 3 false]) (cursor s).
Proof.
  apply (proj2 (cursor_never_decreases_across_ticks Json.parse)). reflexivity.
Defined.

(** C7, as stated, fails: nothing rejects or logs a backward move.  After a
    failed [UPDATE] left the cursor on row 3, [stop()] and [start()]
    re-initialise it to 2, the highest processed id; and the batch loop,
    handed a row below the cursor, assigns its id. *)
Lemma cursor_moves_backward_unchecked :
  let s := process [insert_alice 1 false; insert_alice 2 false; insert_alice 3 false]
                   [subscriber 1] [false; false; false; false; true] in
  let s1 := calls Json.parse [CallStart; CallTick] s in
  let s2 := calls Json.parse [CallStop; CallStart] s1 in
  let s3 := polling_at 5 [insert_alice 3 false] [subscriber 1] [] in
  let s4 := exec (process_batch Json.parse [insert_alice 3 false]) s3 in
  cursor s1 = 3 /\ cursor s2 = 2 /\
  skipn (length (console s1)) (console s2) =
    [LogListenerStopped; LogStartingFrom 2; LogListenerStarted] /\
  cursor s3 = 5 /\ cursor s4 = 3 /\
  console s4 = [LogBroadcast "INSERT" 1].
Proof.
  vm_compute. repeat split; reflexivity.
Qed.

Lemma failed_mark_leaves_record_behind_witness :
  let s := polling_at 0 [insert_alice 1 false; insert_alice 2 false]
                      [subscriber 1] [false; true] in
  let r := insert_alice 1 false in
  let s' := tick Json.parse s in
  clients s' = publish_rows Json.parse ([] ++ [r]) (clients s) /\
  cursor s' = id r /\
  In r (order_changes s') /\ processed r = false /\
  forall n,
    let s'' := ticks Json.parse n s' in
    id r <= cursor s'' /\
    In r (order_changes s'') /\
    ~ In r (select_unprocessed (cursor s'') (order_changes s'')) /\
    clients_step (id r) (clients s') (clients s'').
Proof.
  apply (failed_mark_leaves_record_behind Json.parse _ [] [insert_alice 2 false]
           (insert_alice 1 false) []).
  - simpl. repeat constructor; simpl; intuition discriminate.
  - reflexivity.
  - reflexivity.
Defined.

(** C1, as stated, fails: the [UPDATE] of row 1 is rejected after its
    event went out; the cursor is on row 1, the row is still unprocessed
    and the store is healthy again, yet however many polls follow, none
    fetches the row or publishes its event a second time. *)
Lemma failed_mark_is_not_retried :
  let s := process [insert_alice 1 false] [subscriber 1] [false; false; true] in
  let s1 := calls Json.parse [CallStart; CallTick] s in
  inbox 1 s1 = [insert_event 1] /\
  cursor s1 = 1 /\
  order_changes s1 = [insert_alice 1 false] /\
  faults s1 = [] /\
  forall n,
    let sn := ticks Json.parse n s1 in
    select_unprocessed (cursor sn) (order_changes sn) = [] /\
    inbox 1 sn = [insert_event 1] /\
    In (insert_alice 1 false) (order_changes sn).
Proof.
  intros s s1.
  split; [reflexivity|]. split; [reflexivity|]. split; [reflexivity|].
  split; [reflexivity|]. intros n sn.
  assert (N : NoDup (map id (order_changes s1))).
  { repeat constructor. simpl. tauto. }
  destruct (ticks_healthy_pending Json.parse n s1 eq_refl N) as [C P].
  fold sn in C, P.
  assert (E : pending s1 = []) by reflexivity.
  rewrite E, firstn_nil in C. rewrite E, skipn_nil in P.
  split; [|split].
  - rewrite select_unprocessed_pending, P. reflexivity.
  - unfold inbox. rewrite C. reflexivity.
  - destruct (ticks_grows Json.parse n s1) as [_ [[G _] _]].
    apply G; [now left | reflexivity | reflexivity].
Qed.



Lemma fresh_cursor_resumes_above_max_processed_witness :
  let s := process [insert_alice 1 false; insert_alice 2 true; insert_alice 3 false]
                   [subscriber 1] [] in
  let s0 := exec initializeLastProcessedId s in
  let todo := pending s0 in
  cursor s0 = match select_max_processed (order_changes s) with
              | Some m => m
              | None => 0
              end /\
  (forall x, In x todo <->
             In x (order_changes s) /\ cursor s0 < id x /\ processed x = false) /\
  (forall x, In x (order_changes s) -> processed x = true -> id x <= cursor s0) /\
  forall n,
    let sn := ticks Json.parse n s0 in
    clients sn = publish_rows Json.parse (firstn (50 * n) todo) (clients s) /\
    pending sn = skipn (50 * n) todo /\
    (forall x, In x (order_changes s) -> processed x = false ->
               id x <= cursor s0 -> In x (order_changes sn)).
Proof.
  apply (fresh_cursor_resumes_above_max_processed Json.parse).
  - reflexivity.
  - simpl. repeat constructor; simpl; intuition discriminate.
Defined.

(** C2, as stated, fails: row 1 is unprocessed and row 2 processed; a
    fresh start puts the cursor on 2, and however many polls follow, none
    fetches row 1: the subscriber gets nothing and the row stays
    unprocessed. *)
Lemma unprocessed_row_below_cursor_is_skipped :
  let s := process [insert_alice 1 false; insert_alice 2 true] [subscriber 1] [] in
  let s1 := calls Json.parse [CallStart] s in
  cursor s1 = 2 /\
  forall n,
    let sn := ticks Json.parse n s1 in
    select_unprocessed (cursor sn) (order_changes sn) = [] /\
    inbox 1 sn = [] /\
    In (insert_alice 1 false) (order_changes sn).
Proof.
  intros s s1. split; [reflexivity|]. intros n sn.
  assert (N : NoDup (map id (order_changes s1))).
  { repeat constructor; simpl; intuition discriminate. }
  destruct (ticks_healthy_pending Json.parse n s1 eq_refl N) as [C P].
  fold sn in C, P.
  assert (E : pending s1 = []) by reflexivity.
  rewrite E, firstn_nil in C. rewrite E, skipn_nil in P.
  split; [|split].
  - rewrite select_unprocessed_pending, P. reflexivity.
  - unfold inbox. rewrite C. reflexivity.
  - destruct (ticks_grows Json.parse n s1) as [_ [[G _] _]].
    apply G; [now left | reflexivity | simpl; unfold cursor; simpl; lia].
Qed.

Lemma retention_sweep_is_best_effort_witness :
  let t := (map (fun i => insert_alice (Z.of_nat i) true) (seq 1 1002)
              ++ [insert_alice 1003 false])%list in
  let s := polling_at 1002 t [subscriber 1] [] in
  let batch := select_unprocessed (cursor s) (order_changes s) in
  let marked := mark_all batch (order_changes s) in
  let swept := set_faults (repeat false (S (length batch)) ++ [false])%list s in
  let rejected := set_faults (repeat false (S (length batch)) ++ [true])%list s in
  (order_changes (tick Json.parse swept) = delete_old marked /\
   order_changes (tick Json.parse rejected) = marked /\
   forall n,
     delivery_state (ticks Json.parse n (tick Json.parse swept)) =
     delivery_state (ticks Json.parse n (tick Json.parse rejected))) /\
  cleanup_threshold marked = Some 3 /\
  length marked = 1003%nat /\
  length (delete_old marked) = 1001%nat.
Proof.
  split.
  - apply (proj2 (proj2 (proj2 (proj2 (proj2
             (retention_sweep_is_best_effort Json.parse)))))
             (polling_at 1002
                (map (fun i => insert_alice (Z.of_nat i) true) (seq 1 1002)
                   ++ [insert_alice 1003 false])%list
                [subscriber 1] []) []).
    + vm_compute. discriminate.
    + reflexivity.
  - vm_compute. repeat split; reflexivity.
Defined.

(** C9, as stated, fails: with 1002 delivered rows and nothing pending,
    twenty polls whose draw would be below 0.1 make no draw and delete
    nothing. *)
Lemma idle_polls_never_sweep :
  let t := map (fun i => insert_alice (Z.of_nat i) true) (seq 1 1002) in
  let s := set_randoms (repeat 0%Q 20) (polling_at 1002 t [subscriber 1] []) in
  forallb lt_tenth (randoms s) = true /\
  cleanup_threshold t = Some 2 /\
  order_changes (ticks Json.parse 20 s) = t /\
  randoms (ticks Json.parse 20 s) = randoms s.
Proof.
  vm_compute. repeat split; reflexivity.
Qed.

(** With 1002 processed rows the [DELETE] removes the oldest one only: the
    row at [OFFSET 1000] is kept too, so 1001 processed rows remain. *)
Example sweep_of_1002_processed_rows :
  let t := map (fun i => insert_alice (Z.of_nat i) true) (seq 1 1002) in
  cleanup_threshold t = Some 2 /\
  length (delete_old t) = 1001%nat /\
  map id (firstn 2 (delete_old t)) = [2; 3].
Proof.
  vm_compute. repeat split; reflexivity.
Qed.

(** * The statistics report ([getStats]) *)

Section StatsProperties.

Variable changed_within_last_hour : string -> bool.

Lemma filter_length_le_pointwise {A} (f g : A -> bool) (l : list A) :
  (forall x, f x = true -> g x = true) ->
  (length (filter f l) <= length (filter g l))%nat.
Proof.
  intros H. induction l as [|x l IH]; cbn; [lia|].
  destruct (f x) eqn:F.
  - rewrite (H x F). cbn. lia.
  - destruct (g x); cbn; lia.
Qed.

Lemma pending_length (s : Sys) :
  (length (pending s) <= length (unprocessed_rows (order_changes s)))%nat.
Proof.
  unfold pending, unprocessed_rows. rewrite order_by_id_length.
  apply filter_length_le_pointwise. intros x H.
  unfold unprocessed_after in H. apply andb_true_iff in H. tauto.
Qed.

Ltac unfold_getStats :=
  unfold ListenerStats.getStats, ListenerStats.count_total,
    ListenerStats.count_pending, ListenerStats.count_recent,
    bind, try_catch, ret, get, database_query.

(** X9: [getStats] never throws, and whatever the store does with its
    three queries it leaves the rows, the listener, the sockets and the
    timers as they were. *)
Theorem getStats_only_reads (s : Sys) :
  exists report,
    fst (ListenerStats.getStats changed_within_last_hour s) = Returned report /\
    let s' := snd (ListenerStats.getStats changed_within_last_hour s) in
    order_changes s' = order_changes s /\ this s' = this s /\
    clients s' = clients s /\ timers s' = timers s /\ exit_code s' = exit_code s.
Proof.
  unfold_getStats.
  destruct s as [t0 t c co f0 r ti n cl e fe]. cbn.
  destruct f0 as [|[] [|[] [|[] f3]]]; cbn;
    eexists; repeat split; reflexivity.
Qed.

(** X10: when the store answers the three counts, the report holds the
    number of rows, the number of unprocessed rows, the cursor and the
    listening flag; neither the pending nor the recent count exceeds the
    total, and the pending count is at least the number of rows the
    polling loop can still fetch (it also counts unprocessed rows at or
    below the cursor). *)
Theorem getStats_report (s : Sys) :
  healthy 3 s ->
  exists st,
    fst (ListenerStats.getStats changed_within_last_hour s) = Returned (Some st, []) /\
    ListenerStats.totalChanges st = length (order_changes s) /\
    ListenerStats.pendingChanges st = length (unprocessed_rows (order_changes s)) /\
    ListenerStats.lastProcessedId st = cursor s /\
    ListenerStats.isListening st = isListening (this s) /\
    (ListenerStats.pendingChanges st <= ListenerStats.totalChanges st)%nat /\
    (ListenerStats.recentChanges st <= ListenerStats.totalChanges st)%nat /\
    (length (pending s) <= ListenerStats.pendingChanges st)%nat.
Proof.
  intros H. pose proof (pending_length s) as P.
  unfold healthy in H.
  assert (forall (f : ChangeRow -> bool) (l : list ChangeRow),
             (length (filter f l) <= length l)%nat) as FL.
  { intros f l. induction l as [|x l IH]; cbn; [lia|]. destruct (f x); cbn; lia. }
  unfold_getStats. unfold pending, cursor in P.
  destruct s as [t0 t c co f0 r ti n cl e fe]. cbn in *.
  destruct f0 as [|[] [|[] [|[] f3]]]; cbn in *; try discriminate.
  all: eexists; split; [reflexivity|]; cbn; unfold unprocessed_rows;
    repeat split; try reflexivity; try apply FL; exact P.
Qed.

(** X11: when the store rejects one of the three counts, [getStats]
    resolves to [null] after an ['Error getting stats:'] line, below the
    ['Database query error:'] line of the rejected query. *)
Theorem getStats_null_on_rejected_count (s : Sys) :
  forallb negb (firstn 3 (faults s)) = false ->
  fst (ListenerStats.getStats changed_within_last_hour s)
    = Returned (None, [ListenerStats.ErrGettingStats]) /\
  console (snd (ListenerStats.getStats changed_within_last_hour s))
    = (console s ++ [ErrDatabaseQuery])%list.
Proof.
  intros H.
  unfold_getStats.
  destruct s as [t0 t c co f0 r ti n cl e fe]. cbn in *.
  destruct f0 as [|[] [|[] [|[] f3]]]; cbn in *; try discriminate;
    split; reflexivity.
Qed.

End StatsProperties.

(** * The binlog listener ([handleBinlogEvent], [formatBinlogData]) *)

Lemma assoc_of_columns (fields : list (string * JsValue)) (k : string)
      (columns : list string) :
  assoc k (flat_map (fun c => match assoc c fields with
                              | Some v => [(c, v)]
                              | None => []
                              end) columns)
  = if existsb (String.eqb k) columns then assoc k fields else None.
Proof.
  induction columns as [|c columns IH]; simpl; [reflexivity|].
  destruct (String.eqb_spec k c) as [->|N]; simpl.
  - destruct (assoc c fields) eqn:E; simpl.
    + now rewrite String.eqb_refl.
    + rewrite IH. now destruct (existsb (String.eqb c) columns).
  - destruct (assoc c fields) eqn:E; simpl; [|exact IH].
    apply String.eqb_neq in N. now rewrite N.
Qed.

Lemma flat_map_ext_in {A B} (f g : A -> list B) (l : list A) :
  (forall x, In x l -> f x = g x) -> flat_map f l = flat_map g l.
Proof.
  induction l as [|x l IH]; simpl; intros H; [reflexivity|].
  rewrite (H x (or_introl eq_refl)), IH; auto.
Qed.

Lemma existsb_eqb_In (k : string) (l : list string) :
  In k l -> existsb (String.eqb k) l = true.
Proof.
  intros H. apply existsb_exists. exists k. split; [exact H | apply String.eqb_refl].
Qed.

(** X12: a binlog event of another table, or of [orders] with an event
    name other than [writerows], [updaterows] and [deleterows], is ignored:
    nothing is sent, nothing is logged, nothing is thrown. *)
Theorem binlog_ignores_other_tables_and_events
        (ev : BinlogListener.BinlogEvent) (s : Sys) :
  BinlogListener.tableName ev <> "orders" \/
  ~ In (BinlogListener.eventName ev) ["writerows"; "updaterows"; "deleterows"] ->
  BinlogListener.handleBinlogEvent ev s = (Returned tt, s).
Proof.
  intros H. unfold BinlogListener.handleBinlogEvent.
  destruct (String.eqb_spec (BinlogListener.tableName ev) "orders") as [T|T]; simpl;
    [|reflexivity].
  destruct H as [H|H]; [contradiction|].
  destruct (String.eqb_spec (BinlogListener.eventName ev) "writerows") as [E|_];
    [exfalso; apply H; rewrite E; simpl; auto|].
  destruct (String.eqb_spec (BinlogListener.eventName ev) "updaterows") as [E|_];
    [exfalso; apply H; rewrite E; simpl; auto|].
  destruct (String.eqb_spec (BinlogListener.eventName ev) "deleterows") as [E|_];
    [exfalso; apply H; rewrite E; simpl; auto|].
  reflexivity.
Qed.

(** X13: a row event of [orders] without rows.  An [updaterows] event
    throws a [TypeError] before anything is sent or logged.  A [writerows]
    or [deleterows] event is broadcast all the same, as a message whose
    [data] is [null], to every open socket. *)
Theorem binlog_event_without_rows (ev : BinlogListener.BinlogEvent) (s : Sys) :
  BinlogListener.tableName ev = "orders" ->
  BinlogListener.rows ev = [] ->
  (BinlogListener.eventName ev = "updaterows" ->
   BinlogListener.handleBinlogEvent ev s = (Thrown TypeError, s)) /\
  (BinlogListener.eventName ev = "writerows" \/
   BinlogListener.eventName ev = "deleterows" ->
   all_sends_succeed (clients s) ->
   exists m,
     data m = Some JNull /\
     fst (BinlogListener.handleBinlogEvent ev s) = Returned tt /\
     clients (exec (BinlogListener.handleBinlogEvent ev) s)
       = map (send_open m) (clients s)).
Proof.
  intros T R. unfold BinlogListener.handleBinlogEvent, exec. rewrite T. simpl.
  split.
  - intros E. rewrite E. simpl.
    unfold bind, BinlogListener.row0_prop. rewrite R. reflexivity.
  - intros E Hs.
    assert (forall m (s0 : Sys), all_sends_succeed (clients s0) ->
              fst (BinlogListener.broadcastChange m s0) = Returned tt /\
              clients (snd (BinlogListener.broadcastChange m s0))
                = map (send_open m) (clients s0)) as B.
    { intros m s0 H0. unfold BinlogListener.broadcastChange, bind, forEach_clients,
        log, modify.
      destruct (forEach_send_ok m (clients s0) H0 0%nat) as [k Ek]. rewrite Ek.
      destruct s0; simpl. split; reflexivity. }
    destruct E as [E|E]; rewrite E; simpl; rewrite R; simpl;
      unfold bind, get;
      match goal with
      | |- context [BinlogListener.broadcastChange ?m s] =>
          exists m; split; [reflexivity | apply (B m s Hs)]
      end.
Qed.

(** X14: [formatBinlogData] projects a row on the six columns of [orders]:
    a column of the result has the value it has in the row, any other
    property of the row is dropped; and formatting a formatted row changes
    nothing. *)
Theorem formatBinlogData_projects_on_order_columns (row : JsValue) (k : string) :
  truthy row = true ->
  get_prop (BinlogListener.formatBinlogData (Some row)) k
    = (if existsb (String.eqb k) BinlogListener.order_columns
       then get_prop row k else None) /\
  BinlogListener.formatBinlogData
    (Some (BinlogListener.formatBinlogData (Some row)))
    = BinlogListener.formatBinlogData (Some row).
Proof.
  intros H. unfold BinlogListener.formatBinlogData. rewrite H.
  cbn [truthy].
  destruct row as [| b | n | t | items | fields]; cbn [get_prop].
  1-5: split; [|reflexivity];
    destruct (existsb (String.eqb k) BinlogListener.order_columns); reflexivity.
  split.
  - apply assoc_of_columns.
  - f_equal. apply flat_map_ext_in. intros c Hc.
    rewrite assoc_of_columns. now rewrite (existsb_eqb_In c _ Hc).
Qed.

(** * The orders API ([src/server.js] over [Database]) *)

(** X17: the text of the UPDATE that a PUT sends is one of seven fixed
    statements: the values of the body are bound as parameters, in the
    order of the columns and followed by the id, one for each
    placeholder. *)
Theorem put_statement_is_parameterised
        (i : string) (b : JsValue) (sql : string) (values : list (option JsValue)) :
  Rest.updateOrder_statement (Some (JStr i)) (Rest.updateData_of b)
    = Some (sql, values) ->
  In sql
     ["UPDATE orders SET customer_name = ? WHERE id = ?";
      "UPDATE orders SET product_name = ? WHERE id = ?";
      "UPDATE orders SET status = ? WHERE id = ?";
      "UPDATE orders SET customer_name = ?, product_name = ? WHERE id = ?";
      "UPDATE orders SET customer_name = ?, status = ? WHERE id = ?";
      "UPDATE orders SET product_name = ?, status = ? WHERE id = ?";
      "UPDATE orders SET customer_name = ?, product_name = ?, status = ? WHERE id = ?"] /\
  values = (map snd (Rest.updateData_of b) ++ [Some (JStr i)])%list /\
  placeholders sql = length values.
Proof.
  unfold Rest.updateOrder_statement, Rest.updateData_of. simpl.
  destruct (get_prop b "customer_name"), (get_prop b "product_name"),
    (get_prop b "status"); simpl; intros E; inversion E; subst; clear E;
    repeat split; simpl; tauto.
Qed.

Lemma not_null (b : JsValue) : b <> JNull -> is_null b = false.
Proof. destruct b; [congruence|..]; reflexivity. Qed.

Lemma has_prop_not_null (b v : JsValue) (k : string) :
  get_prop b k = Some v -> is_null b = false.
Proof. destruct b; [discriminate|..]; reflexivity. Qed.

Section RestProperties.

Variable D : Type.
Variable select : string -> list (option JsValue) -> D -> (string + list JsValue) * D.
Variable change : string -> list (option JsValue) -> D -> (string + Rest.Header) * D.

Ltac unfold_rest :=
  unfold Rest.get_orders, Rest.post_orders, Rest.put_order, Rest.delete_order,
    Rest.handle, Rest.getAllOrders, Rest.getOrderById, Rest.createOrder,
    Rest.updateOrder, Rest.deleteOrder, Rest.andThen, Rest.resolve,
    Rest.destructured, Rest.destructure,
    Rest.query_rows, Rest.query_header, Rest.written in *.

Lemma destructured_readable {A} (b : JsValue) (k : JsValue -> Rest.Req D A)
      (a : Rest.Api D) :
  is_null b = false ->
  Rest.andThen D (Rest.destructured D (Some b)) k a = k b a.
Proof.
  intros N. unfold Rest.andThen, Rest.destructured, Rest.destructure.
  now rewrite N.
Qed.

Lemma put_order_readable (i : string) (b : JsValue) (a : Rest.Api D) :
  is_null b = false ->
  Rest.put_order D select change i (Some b) a =
  Rest.handle D Rest.UpdateOrderError
    (match Rest.updateData_of b with
     | [] => Rest.resolve D
               (Rest.mkResponse 400 (Rest.json_error "No valid fields to update"))
     | _ =>
         Rest.andThen D
           (Rest.updateOrder D change (Some (JStr i)) (Rest.updateData_of b))
           (fun updated =>
              if negb updated then
                Rest.resolve D (Rest.mkResponse 404 (Rest.json_error "Order not found"))
              else
                Rest.andThen D (Rest.getOrderById D select (Some (JStr i)))
                  (fun updatedOrder =>
                     Rest.resolve D (Rest.mkResponse 200 (Rest.json_data updatedOrder))))
     end) a.
Proof.
  intros N. unfold Rest.put_order, Rest.handle.
  now rewrite (destructured_readable b _ a N).
Qed.

(** X15: a POST whose body can be read (it is not [undefined] or [null])
    and whose [customer_name] or [product_name] is missing or falsy is
    answered 400 and sends no statement to the store, whatever the store
    is. *)
Theorem post_without_names_is_rejected (b : JsValue) (a : Rest.Api D) :
  b <> JNull ->
  Rest.falsy (get_prop b "customer_name") = true \/
  Rest.falsy (get_prop b "product_name") = true ->
  Rest.post_orders D select change (Some b) a
    = (Rest.mkResponse 400
         (Rest.json_error "customer_name and product_name are required"), a).
Proof.
  intros N H. unfold_rest. rewrite (not_null b N).
  assert (Rest.falsy (get_prop b "customer_name")
          || Rest.falsy (get_prop b "product_name") = true) as E.
  { apply orb_true_iff. exact H. }
  rewrite E. reflexivity.
Qed.

(** X16: a PUT whose body can be read (it is not [undefined] or [null])
    and has none of [customer_name], [product_name] and [status] is
    answered 400 and sends no statement to the store. *)
Theorem put_without_fields_is_rejected (i : string) (b : JsValue) (a : Rest.Api D) :
  b <> JNull ->
  get_prop b "customer_name" = None ->
  get_prop b "product_name" = None ->
  get_prop b "status" = None ->
  Rest.put_order D select change i (Some b) a
    = (Rest.mkResponse 400 (Rest.json_error "No valid fields to update"), a).
Proof.
  intros N C P S. unfold Rest.put_order, Rest.updateData_of, Rest.destructured,
    Rest.destructure, Rest.andThen, Rest.handle. rewrite (not_null b N). simpl.
  rewrite C, P, S. reflexivity.
Qed.

(** X18: every handler answers, with 200, 201, 400, 404 or 500.  A POST
    or PUT whose [req.body] is [undefined] or [null] is answered 500 with
    the message of the TypeError of the destructuring, logged once by the
    handler, and sends no statement.  Otherwise a handler answers 500
    exactly when the store rejected a statement: the body carries the
    store's message, and the console has two more lines, the one of
    [Database.query] and the one of the handler; any other answer leaves
    the console as it was. *)
Theorem a_500_is_an_unread_body_or_a_rejected_statement
        (i : string) (b : option JsValue) (a : Rest.Api D) :
  logged_iff_500 Rest.GetOrdersError false a (Rest.get_orders D select a) /\
  logged_iff_500 Rest.CreateOrderError (Rest.unreadable b) a
                 (Rest.post_orders D select change b a) /\
  logged_iff_500 Rest.UpdateOrderError (Rest.unreadable b) a
                 (Rest.put_order D select change i b a) /\
  logged_iff_500 Rest.DeleteOrderError false a (Rest.delete_order D change i a).
Proof.
  assert (forall (x y : Rest.ApiConsole) (l : list Rest.ApiConsole),
             ((l ++ [x]) ++ [y] = l ++ [x; y])%list) as A2.
  { intros. now rewrite <- app_assoc. }
  unfold logged_iff_500. split; [|split; [|split]].
  - unfold_rest.
    destruct (select _ _ (Rest.db D a)) as [[m|rows] d]; simpl;
      [left; split; [reflexivity|]; exists m; rewrite A2; auto
      |right; auto].
  - unfold Rest.unreadable. unfold_rest.
    destruct b as [b|]; [destruct (is_null b)|]; simpl;
      try (split; [reflexivity|]; split; [reflexivity|]; eexists; split; reflexivity).
    destruct (Rest.falsy (get_prop b "customer_name")
              || Rest.falsy (get_prop b "product_name")); simpl;
      [right; auto 6|].
    destruct (change _ _ (Rest.db D a)) as [[m|h] d]; simpl;
      [left; split; [reflexivity|]; exists m; rewrite A2; auto|].
    destruct (select _ _ d) as [[m|rows] d']; simpl;
      [left; split; [reflexivity|]; exists m; rewrite A2; auto
      |right; auto].
  - unfold Rest.unreadable.
    destruct b as [b|]; [destruct (is_null b) eqn:N|];
      try (unfold_rest; simpl; rewrite ?N; simpl;
           split; [reflexivity|]; split; [reflexivity|];
           eexists; split; reflexivity).
    rewrite (put_order_readable i b a N).
    destruct (Rest.updateData_of b) as [|e es] eqn:U; [unfold_rest; simpl; right; auto 6|].
    unfold Rest.updateOrder.
    destruct (Rest.updateOrder_statement (Some (JStr i)) (e :: es)) as [[sql values]|];
      unfold_rest; simpl; [|right; auto 6].
    destruct (change _ _ (Rest.db D a)) as [[m|h] d]; simpl;
      [left; split; [reflexivity|]; exists m; rewrite A2; auto|].
    destruct (0 <? Rest.affectedRows h); simpl; [|right; auto 6].
    destruct (select _ _ d) as [[m|rows] d']; simpl;
      [left; split; [reflexivity|]; exists m; rewrite A2; auto
      |right; auto].
  - unfold_rest.
    destruct (change _ _ (Rest.db D a)) as [[m|h] d]; simpl;
      [left; split; [reflexivity|]; exists m; rewrite A2; auto|].
    destruct (0 <? Rest.affectedRows h); simpl; right; auto 6.
Qed.

(** X19: a PUT or a DELETE for which the store reports no affected row is
    answered 404; the PUT then does not read the order back: the store is
    left as the statement left it. *)
Theorem no_affected_row_is_404
        (i : string) (b : JsValue) (a : Rest.Api D)
        (sql : string) (values : list (option JsValue)) (h : Rest.Header) (d : D) :
  Rest.affectedRows h <= 0 ->
  (change "DELETE FROM orders WHERE id = ?" [Some (JStr i)] (Rest.db D a) = (inr h, d) ->
   Rest.delete_order D change i a
     = (Rest.mkResponse 404 (Rest.json_error "Order not found"),
        Rest.mkApi D d (Rest.api_console D a))) /\
  (Rest.updateOrder_statement (Some (JStr i)) (Rest.updateData_of b) = Some (sql, values) ->
   change sql values (Rest.db D a) = (inr h, d) ->
   Rest.put_order D select change i (Some b) a
     = (Rest.mkResponse 404 (Rest.json_error "Order not found"),
        Rest.mkApi D d (Rest.api_console D a))).
Proof.
  intros H.
  assert ((0 <? Rest.affectedRows h) = false) as L by (apply Z.ltb_ge; exact H).
  split.
  - intros E. unfold_rest. rewrite E. simpl. rewrite L. reflexivity.
  - intros U E.
    assert (is_null b = false) as N.
    { destruct b; try reflexivity. discriminate U. }
    rewrite (put_order_readable i b a N).
    destruct (Rest.updateData_of b) as [|e es] eqn:B.
    + discriminate U.
    + unfold Rest.updateOrder. rewrite U. unfold_rest. rewrite E. simpl.
      rewrite L. reflexivity.
Qed.

(** X20: a POST with both names and no [status] inserts the order with
    the status ['pending'] and answers 201 with the row it reads back by
    the id the store assigned; when that read finds no row the answer is
    still 201, without [data]. *)
Theorem post_reads_back_the_inserted_order
        (b c p : JsValue) (a : Rest.Api D) (h : Rest.Header) (d d' : D)
        (rows : list JsValue) :
  get_prop b "customer_name" = Some c -> truthy c = true ->
  get_prop b "product_name" = Some p -> truthy p = true ->
  get_prop b "status" = None ->
  change "INSERT INTO orders (customer_name, product_name, status) VALUES (?, ?, ?)"
         [Some c; Some p; Some (JStr "pending")] (Rest.db D a) = (inr h, d) ->
  select "SELECT * FROM orders WHERE id = ?" [Some (JNum (Rest.insertId h))] d
    = (inr rows, d') ->
  Rest.post_orders D select change (Some b) a
    = (Rest.mkResponse 201
         (JObj (("success", JBool true)
                  :: match rows with
                     | order :: _ => [("data", order)]
                     | [] => []
                     end)),
       Rest.mkApi D d' (Rest.api_console D a)).
Proof.
  intros C Tc P Tp S Ei Es. unfold_rest. rewrite (has_prop_not_null _ _ _ C).
  rewrite C, P, S. simpl.
  rewrite Tc, Tp. simpl. rewrite Ei. simpl. rewrite Es.
  destruct rows; reflexivity.
Qed.

End RestProperties.

(** * The snapshot of the [connection] handler ([src/server.js]) *)

Lemma find_map_other (c c' : nat) (f : Client -> Client) (l : list Client) :
  c' <> c -> (forall y, conn (f y) = conn y) ->
  find (fun x => (conn x =? c')%nat)
       (map (fun y => if (conn y =? c)%nat then f y else y) l)
  = find (fun x => (conn x =? c')%nat) l.
Proof.
  intros N Hf. induction l as [|y l IH]; simpl; [reflexivity|].
  destruct (Nat.eqb_spec (conn y) c) as [E|E].
  - rewrite Hf.
    destruct (Nat.eqb_spec (conn y) c') as [E'|E']; [congruence | exact IH].
  - destruct (conn y =? c')%nat; [reflexivity | exact IH].
Qed.

Lemma on_orders_settled_inflight (c : nat) (result : option (list JsValue)) (s : Sys) :
  In c (fetching s) ->
  on_orders_settled c result s
  = orders_callbacks c result
      (set_fetching (filter (fun x => negb (x =? c)%nat) (fetching s)) s).
Proof.
  intros H. unfold on_orders_settled, bind, get, modify.
  assert (existsb (Nat.eqb c) (fetching s) = true) as E.
  { apply existsb_exists. exists c. split; [exact H | apply Nat.eqb_refl]. }
  rewrite E. reflexivity.
Qed.

(** X21: the snapshot is sent to the socket that connected and to no
    other: whatever the fetch settled to and whatever state the socket is
    in by then, the messages handed to every other connection are the
    same before and after, and so are the table and the listener. *)
Theorem snapshot_reaches_only_its_socket
        (c c' : nat) (result : option (list JsValue)) (s : Sys) :
  c' <> c ->
  let s' := exec (on_orders_settled c result) s in
  inbox c' s' = inbox c' s /\
  order_changes s' = order_changes s /\ this s' = this s.
Proof.
  intros N. unfold exec, on_orders_settled, bind, get, modify.
  destruct (existsb (Nat.eqb c) (fetching s)); simpl; [|auto].
  unfold orders_callbacks, try_catch, bind, get, log, modify, throw.
  destruct result as [orders|]; simpl; [|destruct s; simpl; auto].
  unfold ws_send. cbn [clients set_fetching].
  destruct (find (fun x => (conn x =? c)%nat) (clients s)) as [x|] eqn:F;
    [|destruct s; simpl; auto].
  destruct (readyState x =? 0)%nat; [destruct s; simpl; auto|].
  destruct (readyState x =? 1)%nat; [|destruct s; simpl; auto].
  destruct (send_throws x); [destruct s; simpl; auto|].
  unfold inbox. destruct s; simpl in *.
  rewrite (find_map_other c c'); auto.
Qed.

(** X22: a snapshot that fails is dropped, not retried and not thrown:
    when the fetch was rejected, or when the socket's [send] throws, the
    handler logs ['Error sending initial data:'], no socket is handed
    anything, the socket stays in the live set, and the process goes on. *)
Theorem failed_snapshot_is_logged_and_dropped
        (c : nat) (orders : list JsValue) (s : Sys) :
  In c (fetching s) ->
  (let s' := exec (on_orders_settled c None) s in
   fst (on_orders_settled c None s) = Returned tt /\
   clients s' = clients s /\ exit_code s' = exit_code s /\
   console s' = (console s ++ [ErrDatabaseQuery; ErrSendingInitialData])%list) /\
  (forall x, find (fun y => (conn y =? c)%nat) (clients s) = Some x ->
             readyState x = 1%nat -> send_throws x = true ->
             let s' := exec (on_orders_settled c (Some orders)) s in
             fst (on_orders_settled c (Some orders) s) = Returned tt /\
             clients s' = clients s /\ exit_code s' = exit_code s /\
             console s' = (console s ++ [ErrSendingInitialData])%list).
Proof.
  intros H. split.
  - unfold exec. rewrite (on_orders_settled_inflight c None s H).
    unfold orders_callbacks, try_catch, bind, get, log, modify, throw.
    destruct s; simpl. rewrite <- app_assoc. auto.
  - intros x F R T. unfold exec.
    rewrite (on_orders_settled_inflight c (Some orders) s H).
    unfold orders_callbacks, try_catch, bind, get, log, modify, throw, ws_send.
    cbn [clients set_fetching]. destruct s; simpl in *.
    rewrite F, R, T. simpl. auto.
Qed.

(** * The further properties on concrete processes *)

Lemma events_reach_a_socket_in_id_order_witness :
  let s := polling_at 0 [insert_alice 1 false; update_alice 2 false]
                      [subscriber 1] [] in
  in_order (cursor s + 1) (cursor (ticks Json.parse 2 s)) (50 * 2)
           (clients s) (clients (ticks Json.parse 2 s)).
Proof.
  apply (events_reach_a_socket_in_id_order Json.parse
           (polling_at 0 [insert_alice 1 false; update_alice 2 false]
                       [subscriber 1] []) 2).
  simpl. repeat constructor; simpl; intuition discriminate.
Defined.

Lemma rejected_fetch_changes_nothing_witness :
  let s := polling_at 0 [insert_alice 1 false] [subscriber 1] [true] in
  let s' := tick Json.parse s in
  fst (poll_callback Json.parse s) = Returned tt /\
  this s' = this s /\ order_changes s' = order_changes s /\
  clients s' = clients s /\ randoms s' = randoms s /\ timers s' = timers s /\
  faults s' = [] /\
  console s' = (console s ++ [ErrDatabaseQuery; ErrInCheckForChanges])%list.
Proof.
  apply (rejected_fetch_changes_nothing Json.parse
           (polling_at 0 [insert_alice 1 false] [subscriber 1] [true]) []).
  reflexivity.
Defined.

Lemma idle_poll_changes_nothing_witness :
  let s := polling_at 0 [insert_alice 1 true] [subscriber 1] [] in
  tick Json.parse s = set_faults (tl (faults s)) s /\
  randoms (tick Json.parse s) = randoms s /\
  order_changes (tick Json.parse s) = order_changes s /\
  console (tick Json.parse s) = console s.
Proof.
  apply (idle_poll_changes_nothing Json.parse
           (polling_at 0 [insert_alice 1 true] [subscriber 1] []));
    reflexivity.
Defined.

Lemma batch_is_marked_whatever_the_sockets_do_witness :
  let s := polling_at 0 [insert_alice 1 false]
                      [broken_subscriber 1; subscriber 2] [] in
  let batch := select_unprocessed (cursor s) (order_changes s) in
  let s' := tick Json.parse s in
  cursor s' = last (map id batch) (cursor s) /\
  (forall x, In x (order_changes s') -> In (id x) (map id batch) ->
             processed x = true) /\
  (forall pre c post,
      clients s = (pre ++ c :: post)%list ->
      all_sends_succeed pre -> readyState c = 1%nat -> send_throws c = true ->
      exists pre', clients s' = (pre' ++ c :: post)%list /\
                   length pre' = length pre).
Proof.
  apply (batch_is_marked_whatever_the_sockets_do Json.parse
           (polling_at 0 [insert_alice 1 false]
                       [broken_subscriber 1; subscriber 2] [])).
  - vm_compute. discriminate.
  - reflexivity.
Defined.

Lemma stop_ends_polling_witness :
  let s := exec start (process [insert_alice 1 false] [subscriber 1] []) in
  let s' := exec stop s in
  fst (stop s) = Returned tt /\
  isListening (this s') = false /\ pollInterval (this s') = None /\
  ~ In 0%nat (timers s') /\
  react Json.parse (EvTimer 0) s' = s' /\
  cursor s' = cursor s /\ order_changes s' = order_changes s /\
  clients s' = clients s.
Proof.
  apply (stop_ends_polling Json.parse
           (exec start (process [insert_alice 1 false] [subscriber 1] [])) 0);
    reflexivity.
Defined.

Lemma restart_makes_the_record_pending_again_witness :
  let s := polling_at 0 [insert_alice 1 false] [subscriber 1] [false; true] in
  let r := insert_alice 1 false in
  let s1 := tick Json.parse s in
  let s2 := exec start (exec stop s1) in
  cursor s1 = id r /\ ~ In r (pending s1) /\
  cursor s2 < id r /\ In r (pending s2).
Proof.
  apply (restart_makes_the_record_pending_again Json.parse
           (polling_at 0 [insert_alice 1 false] [subscriber 1] [false; true])
           [] [] (insert_alice 1 false)).
  - simpl. repeat constructor; simpl; intuition discriminate.
  - vm_compute. discriminate.
  - reflexivity.
  - reflexivity.
  - simpl. intros x [<-|[]]. discriminate.
Defined.

Lemma getStats_report_witness :
  let recent := String.eqb "2024-01-01 10:00:05" in
  let s := polling_at 1 [insert_alice 1 false; update_alice 2 false;
                         insert_alice 3 true] [subscriber 1] [] in
  exists st,
    fst (ListenerStats.getStats recent s) = Returned (Some st, []) /\
    ListenerStats.totalChanges st = length (order_changes s) /\
    ListenerStats.pendingChanges st = length (unprocessed_rows (order_changes s)) /\
    ListenerStats.lastProcessedId st = cursor s /\
    ListenerStats.isListening st = isListening (this s) /\
    (ListenerStats.pendingChanges st <= ListenerStats.totalChanges st)%nat /\
    (ListenerStats.recentChanges st <= ListenerStats.totalChanges st)%nat /\
    (length (pending s) <= ListenerStats.pendingChanges st)%nat.
Proof.
  apply (getStats_report (String.eqb "2024-01-01 10:00:05")
           (polling_at 1 [insert_alice 1 false; update_alice 2 false;
                          insert_alice 3 true] [subscriber 1] [])).
  reflexivity.
Defined.

Lemma getStats_null_on_rejected_count_witness :
  let recent := String.eqb "2024-01-01 10:00:05" in
  let s := polling_at 1 [insert_alice 1 false] [subscriber 1] [false; true] in
  fst (ListenerStats.getStats recent s)
    = Returned (None, [ListenerStats.ErrGettingStats]) /\
  console (snd (ListenerStats.getStats recent s))
    = (console s ++ [ErrDatabaseQuery])%list.
Proof.
  apply (getStats_null_on_rejected_count (String.eqb "2024-01-01 10:00:05")
           (polling_at 1 [insert_alice 1 false] [subscriber 1] [false; true])).
  reflexivity.
Defined.

Lemma binlog_ignores_other_tables_and_events_witness :
  let s := process [] [subscriber 1] [] in
  BinlogListener.handleBinlogEvent
    (BinlogListener.mkBinlogEvent "customers" "writerows" [alice]) s
    = (Returned tt, s) /\
  BinlogListener.handleBinlogEvent
    (BinlogListener.mkBinlogEvent "orders" "tablemap" []) s
    = (Returned tt, s).
Proof.
  split.
  - apply (binlog_ignores_other_tables_and_events
             (BinlogListener.mkBinlogEvent "customers" "writerows" [alice])
             (process [] [subscriber 1] [])).
    left. simpl. discriminate.
  - apply (binlog_ignores_other_tables_and_events
             (BinlogListener.mkBinlogEvent "orders" "tablemap" [])
             (process [] [subscriber 1] [])).
    right. simpl. intuition discriminate.
Defined.

Lemma binlog_event_without_rows_witness :
  let s := process [] [subscriber 1] [] in
  BinlogListener.handleBinlogEvent
    (BinlogListener.mkBinlogEvent "orders" "updaterows" []) s
    = (Thrown TypeError, s) /\
  exists m,
    data m = Some JNull /\
    fst (BinlogListener.handleBinlogEvent
           (BinlogListener.mkBinlogEvent "orders" "writerows" []) s) = Returned tt /\
    clients (exec (BinlogListener.handleBinlogEvent
                     (BinlogListener.mkBinlogEvent "orders" "writerows" [])) s)
      = map (send_open m) (clients s).
Proof.
  split.
  - apply (proj1 (binlog_event_without_rows
                    (BinlogListener.mkBinlogEvent "orders" "updaterows" [])
                    (process [] [subscriber 1] []) eq_refl eq_refl)).
    reflexivity.
  - apply (proj2 (binlog_event_without_rows
                    (BinlogListener.mkBinlogEvent "orders" "writerows" [])
                    (process [] [subscriber 1] []) eq_refl eq_refl)).
    + left. reflexivity.
    + reflexivity.
Defined.

Lemma formatBinlogData_projects_on_order_columns_witness :
  let row := JObj [("id", JNum 5); ("name", JStr "Alice");
                   ("status", JStr "pending")] in
  get_prop (BinlogListener.formatBinlogData (Some row)) "name"
    = (if existsb (String.eqb "name") BinlogListener.order_columns
       then get_prop row "name" else None) /\
  BinlogListener.formatBinlogData
    (Some (BinlogListener.formatBinlogData (Some row)))
    = BinlogListener.formatBinlogData (Some row).
Proof.
  apply (formatBinlogData_projects_on_order_columns alice "name").
  reflexivity.
Defined.

Lemma post_without_names_is_rejected_witness :
  let b := JObj [("customer_name", JStr EmptyString);
                 ("product_name", JStr "Laptop")] in
  let a := ScriptedEngine.api [] [inl "ER_NO_SUCH_TABLE"] in
  Rest.post_orders ScriptedEngine.D ScriptedEngine.select ScriptedEngine.change
                   (Some b) a
    = (Rest.mkResponse 400
         (Rest.json_error "customer_name and product_name are required"), a).
Proof.
  apply (post_without_names_is_rejected
           ScriptedEngine.D ScriptedEngine.select ScriptedEngine.change
           (JObj [("customer_name", JStr EmptyString);
                  ("product_name", JStr "Laptop")])
           (ScriptedEngine.api [] [inl "ER_NO_SUCH_TABLE"])).
  - discriminate.
  - left. reflexivity.
Defined.

Lemma put_without_fields_is_rejected_witness :
  let b := JObj [("price", JNum 3)] in
  let a := ScriptedEngine.api [] [inr (Rest.mkHeader 0 1)] in
  Rest.put_order ScriptedEngine.D ScriptedEngine.select ScriptedEngine.change
                 "7" (Some b) a
    = (Rest.mkResponse 400 (Rest.json_error "No valid fields to update"), a).
Proof.
  apply (put_without_fields_is_rejected
           ScriptedEngine.D ScriptedEngine.select ScriptedEngine.change
           "7" (JObj [("price", JNum 3)])
           (ScriptedEngine.api [] [inr (Rest.mkHeader 0 1)]));
    [discriminate | reflexivity ..].
Defined.

Lemma put_statement_is_parameterised_witness :
  let sql := "UPDATE orders SET customer_name = ?, status = ? WHERE id = ?" in
  let values := [Some (JStr "Bob"); Some JNull; Some (JStr "7")] in
  let b := JObj [("status", JNull); ("customer_name", JStr "Bob")] in
  In sql
     ["UPDATE orders SET customer_name = ? WHERE id = ?";
      "UPDATE orders SET product_name = ? WHERE id = ?";
      "UPDATE orders SET status = ? WHERE id = ?";
      "UPDATE orders SET customer_name = ?, product_name = ? WHERE id = ?";
      "UPDATE orders SET customer_name = ?, status = ? WHERE id = ?";
      "UPDATE orders SET product_name = ?, status = ? WHERE id = ?";
      "UPDATE orders SET customer_name = ?, product_name = ?, status = ? WHERE id = ?"] /\
  values = (map snd (Rest.updateData_of b) ++ [Some (JStr "7")])%list /\
  placeholders sql = length values.
Proof.
  apply (put_statement_is_parameterised
           "7" (JObj [("status", JNull); ("customer_name", JStr "Bob")])
           "UPDATE orders SET customer_name = ?, status = ? WHERE id = ?"
           [Some (JStr "Bob"); Some JNull; Some (JStr "7")]).
  reflexivity.
Defined.

Lemma no_affected_row_is_404_witness :
  let a := ScriptedEngine.api [inr [ScriptedEngine.order_7]]
                              [inr (Rest.mkHeader 0 0)] in
  let d := ([inr [ScriptedEngine.order_7]], []) in
  Rest.delete_order ScriptedEngine.D ScriptedEngine.change "8" a
    = (Rest.mkResponse 404 (Rest.json_error "Order not found"),
       Rest.mkApi ScriptedEngine.D d []) /\
  Rest.put_order ScriptedEngine.D ScriptedEngine.select ScriptedEngine.change
                 "8" (Some (JObj [("status", JStr "shipped")])) a
    = (Rest.mkResponse 404 (Rest.json_error "Order not found"),
       Rest.mkApi ScriptedEngine.D d []).
Proof.
  assert (Rest.affectedRows (Rest.mkHeader 0 0) <= 0) as H by (simpl; lia).
  split.
  - apply (proj1 (no_affected_row_is_404
                    ScriptedEngine.D ScriptedEngine.select ScriptedEngine.change
                    "8" (JObj [("status", JStr "shipped")])
                    (ScriptedEngine.api [inr [ScriptedEngine.order_7]]
                                        [inr (Rest.mkHeader 0 0)])
                    "UPDATE orders SET status = ? WHERE id = ?"
                    [Some (JStr "shipped"); Some (JStr "8")]
                    (Rest.mkHeader 0 0)
                    ([inr [ScriptedEngine.order_7]], []) H)).
    reflexivity.
  - apply (proj2 (no_affected_row_is_404
                    ScriptedEngine.D ScriptedEngine.select ScriptedEngine.change
                    "8" (JObj [("status", JStr "shipped")])
                    (ScriptedEngine.api [inr [ScriptedEngine.order_7]]
                                        [inr (Rest.mkHeader 0 0)])
                    "UPDATE orders SET status = ? WHERE id = ?"
                    [Some (JStr "shipped"); Some (JStr "8")]
                    (Rest.mkHeader 0 0)
                    ([inr [ScriptedEngine.order_7]], []) H));
      reflexivity.
Defined.

Lemma post_reads_back_the_inserted_order_witness :
  let b := JObj [("customer_name", JStr "Alice"); ("product_name", JStr "Laptop")] in
  let a := ScriptedEngine.api [inr [ScriptedEngine.order_7]]
                              [inr (Rest.mkHeader 7 1)] in
  Rest.post_orders ScriptedEngine.D ScriptedEngine.select ScriptedEngine.change
                   (Some b) a
    = (Rest.mkResponse 201
         (JObj [("success", JBool true); ("data", ScriptedEngine.order_7)]),
       Rest.mkApi ScriptedEngine.D ([], []) []).
Proof.
  apply (post_reads_back_the_inserted_order
           ScriptedEngine.D ScriptedEngine.select ScriptedEngine.change
           (JObj [("customer_name", JStr "Alice"); ("product_name", JStr "Laptop")])
           (JStr "Alice") (JStr "Laptop")
           (ScriptedEngine.api [inr [ScriptedEngine.order_7]]
                               [inr (Rest.mkHeader 7 1)])
           (Rest.mkHeader 7 1) ([inr [ScriptedEngine.order_7]], []) ([], [])
           [ScriptedEngine.order_7]);
    reflexivity.
Defined.

Lemma snapshot_reaches_only_its_socket_witness :
  let s := exec (on_connection 1 false) (process [] [subscriber 2] []) in
  let s' := exec (on_orders_settled 1 (Some [alice])) s in
  inbox 2 s' = inbox 2 s /\
  order_changes s' = order_changes s /\ this s' = this s.
Proof.
  apply (snapshot_reaches_only_its_socket 1 2 (Some [alice])
           (exec (on_connection 1 false) (process [] [subscriber 2] []))).
  discriminate.
Defined.

Lemma failed_snapshot_is_logged_and_dropped_witness :
  let s := exec (on_connection 1 true) (process [] [subscriber 2] []) in
  (let s' := exec (on_orders_settled 1 None) s in
   fst (on_orders_settled 1 None s) = Returned tt /\
   clients s' = clients s /\ exit_code s' = exit_code s /\
   console s' = (console s ++ [ErrDatabaseQuery; ErrSendingInitialData])%list) /\
  (let s' := exec (on_orders_settled 1 (Some [alice])) s in
   fst (on_orders_settled 1 (Some [alice]) s) = Returned tt /\
   clients s' = clients s /\ exit_code s' = exit_code s /\
   console s' = (console s ++ [ErrSendingInitialData])%list).
Proof.
  assert (In 1%nat (fetching (exec (on_connection 1 true)
                                   (process [] [subscriber 2] [])))) as H
    by (simpl; auto).
  split.
  - apply (proj1 (failed_snapshot_is_logged_and_dropped 1 [alice] _ H)).
  - apply (proj2 (failed_snapshot_is_logged_and_dropped 1 [alice] _ H)
                 (broken_subscriber 1)); reflexivity.
Defined.

Lemma overlapping_polls_publish_the_batch_twice_witness :
  let s := polling_at 0 [insert_alice 1 false; update_alice 2 false]
                      [subscriber 1] [] in
  let batch := select_unprocessed (cursor s) (order_changes s) in
  let s' := exec (overlapping_polls Json.parse) s in
  (fst (overlapping_polls Json.parse s) = Returned tt /\
   clients s' =
     publish_rows Json.parse batch (publish_rows Json.parse batch (clients s)) /\
   cursor s' = last (map id batch) (cursor s)) /\
  map changeId (inbox 1 s') = [Some 1; Some 2; Some 1; Some 2].
Proof.
  split.
  - apply (overlapping_polls_publish_the_batch_twice Json.parse
             (polling_at 0 [insert_alice 1 false; update_alice 2 false]
                         [subscriber 1] [])).
    + vm_compute. discriminate.
    + reflexivity.
  - vm_compute. reflexivity.
Defined.

(** A POST without a body: the destructuring throws, the answer is 500,
    the handler logs one line and the store is not asked anything. *)
Example post_without_body_is_a_500 :
  let a := ScriptedEngine.api [] [inr (Rest.mkHeader 7 1)] in
  Rest.post_orders ScriptedEngine.D ScriptedEngine.select ScriptedEngine.change
                   None a
  = (Rest.mkResponse 500
       (Rest.json_error
          "Cannot destructure property 'customer_name' of 'req.body' as it is undefined."),
     Rest.mkApi ScriptedEngine.D ([], [inr (Rest.mkHeader 7 1)])
       [Rest.CreateOrderError
          "Cannot destructure property 'customer_name' of 'req.body' as it is undefined."]).
Proof. reflexivity. Qed.
